(** * Strategy evaluation pipeline: fingerprints, freshness cache, fetcher,
    discovery scheduler and evaluation engine.

    A shallow embedding of
      - src/controllers/technicalIndicators/cache.ts
      - src/controllers/technicalIndicators/technicalIndicators.ts
      - src/controllers/scheduler/redisStream.ts
      - src/controllers/scheduler/technicalStrategySource.ts, which holds the
        scan of the active indicators and the scheduler (startScheduler)
      - src/routes/userRoutes/userRoutes.ts, which holds the evaluator
        (evaluationService/evaluator.ts)
      - prisma/schema.prisma for the tables.
    JavaScript values are an inductive type, numbers are binary64 floats
    (the kernel's primitive floats), objects are property lists in
    enumeration order, Redis is a record with a key/value store, streams
    and a readiness flag, and the database is a record of tables. *)

From Stdlib Require Import ZArith Ascii String List Permutation Sorted.
From Corelib Require Import Uint63Axioms.
From Stdlib.Floats Require Import PrimFloat FloatOps FloatAxioms SpecFloat.
From stdpp Require Import base option list gmap strings pretty.

Set Warnings "-register-all,-inexact-float".

Local Open Scope string_scope.
Local Open Scope list_scope.

(** ** JavaScript values *)

Inductive value : Type :=
| VUndefined
| VNull
| VBool (b : bool)
| VNum (n : float)
| VStr (s : string)
| VArr (xs : list value)
| VObj (props : list (string * value)).

(** An object is the list of its own enumerable properties, in the order
    [Object.keys] lists them. A well-formed object has no repeated key. *)
Abbreviation object := (list (string * value)).

(** The parts of the JavaScript runtime the code calls and this development
    does not define: number printing, [parseFloat], [JSON.parse] and the
    text of a timestamp. *)
Class JSRuntime := {
  numberToString : float -> string;          (* String(n) for a number n *)
  parseFloat : string -> float;              (* NaN when no number is read *)
  JSON_parse : string -> option value;       (* None: SyntaxError *)
  toISOString : Z -> string                  (* new Date(t).toISOString() *)
}.

Definition typeof (v : value) : string :=
  match v with
  | VUndefined => "undefined"
  | VNull => "object"
  | VBool _ => "boolean"
  | VNum _ => "number"
  | VStr _ => "string"
  | VArr _ => "object"
  | VObj _ => "object"
  end.

Definition is_object (v : value) : bool :=
  match v with
  | VNull | VArr _ | VObj _ => true
  | _ => false
  end.

Definition nullish (v : value) : bool :=
  match v with
  | VUndefined | VNull => true
  | _ => false
  end.

(** ToBoolean: the falsy values are undefined, null, false, 0, -0, NaN and
    the empty string. *)
Definition truthy (v : value) : bool :=
  match v with
  | VUndefined | VNull => false
  | VBool b => b
  | VNum n => negb (PrimFloat.is_zero n || PrimFloat.is_nan n)
  | VStr s => negb (String.eqb s "")
  | VArr _ | VObj _ => true
  end.

Definition truthy_string (s : option string) : bool :=
  match s with
  | Some s => negb (String.eqb s "")
  | None => false
  end.

Fixpoint assoc (k : string) (o : object) : option value :=
  match o with
  | [] => None
  | (k', v) :: o' => if String.eqb k k' then Some v else assoc k o'
  end.

Fixpoint indexed_from (i : nat) (xs : list value) : object :=
  match xs with
  | [] => []
  | x :: xs' => (pretty i, x) :: indexed_from (S i) xs'
  end.

(** Own enumerable properties of a value: the properties of an object, the
    elements of an array, the characters of a string. *)
Definition ownEntries (v : value) : object :=
  match v with
  | VObj props => props
  | VArr xs => indexed_from 0 xs
  | VStr s =>
      indexed_from 0 (map (fun c => VStr (String c EmptyString)) (list_ascii_of_string s))
  | _ => []
  end.

Definition Object_keys (v : value) : list string := map fst (ownEntries v).
Definition Object_values (v : value) : list value := map snd (ownEntries v).

(** [v[k]] for an own property name [k]; undefined when there is none. *)
Definition getProp (v : value) (k : string) : value :=
  match assoc k (ownEntries v) with
  | Some x => x
  | None => VUndefined
  end.

Definition hasOwnProperty (v : value) (k : string) : bool :=
  match assoc k (ownEntries v) with
  | Some _ => true
  | None => false
  end.

(** [Array.prototype.sort] with the default comparator, on strings: an
    insertion sort by code unit order. *)
Fixpoint insert_sorted (s : string) (l : list string) : list string :=
  match l with
  | [] => [s]
  | x :: l' => if String.leb s x then s :: l else x :: insert_sorted s l'
  end.

Definition sort_strings (l : list string) : list string :=
  fold_right insert_sorted [] l.

(** *** Text of values *)

Definition quote_char : string := String (ascii_of_nat 34) EmptyString.
Definition backslash : string := String (ascii_of_nat 92) EmptyString.

Definition hex_digit (n : nat) : string :=
  String.substring n 1 "0123456789abcdef".

(** One character of a JSON string literal (QuoteJSONString). *)
Definition escape_char (c : ascii) : string :=
  let n := nat_of_ascii c in
  if Nat.eqb n 34 then backslash +:+ quote_char
  else if Nat.eqb n 92 then backslash +:+ backslash
  else if Nat.eqb n 8 then backslash +:+ "b"
  else if Nat.eqb n 9 then backslash +:+ "t"
  else if Nat.eqb n 10 then backslash +:+ "n"
  else if Nat.eqb n 12 then backslash +:+ "f"
  else if Nat.eqb n 13 then backslash +:+ "r"
  else if Nat.ltb n 32 then backslash +:+ "u00" +:+ hex_digit (n / 16) +:+ hex_digit (n mod 16)
  else String c EmptyString.

Fixpoint escape_string (s : string) : string :=
  match s with
  | EmptyString => EmptyString
  | String c s' => escape_char c +:+ escape_string s'
  end.

Definition quoteJSON (s : string) : string :=
  quote_char +:+ escape_string s +:+ quote_char.

Section Text.
Context {rt : JSRuntime}.

(** [JSON.stringify v]; [None] stands for the result undefined. Properties
    are written in enumeration order; a property whose value is undefined
    is left out, an undefined array element is written null. *)
Fixpoint JSON_stringify (v : value) : option string :=
  match v with
  | VUndefined => None
  | VNull => Some "null"
  | VBool b => Some (if b then "true" else "false")
  | VNum n => Some (if PrimFloat.is_finite n then numberToString n else "null")
  | VStr s => Some (quoteJSON s)
  | VArr xs =>
      let fix elems (l : list value) : list string :=
        match l with
        | [] => []
        | x :: l' =>
            match JSON_stringify x with
            | Some t => t
            | None => "null"
            end :: elems l'
        end in
      Some ("[" +:+ String.concat "," (elems xs) +:+ "]")
  | VObj props =>
      let fix members (l : object) : list string :=
        match l with
        | [] => []
        | (k, x) :: l' =>
            match JSON_stringify x with
            | Some t => (quoteJSON k +:+ ":" +:+ t) :: members l'
            | None => members l'
            end
        end in
      Some ("{" +:+ String.concat "," (members props) +:+ "}")
  end.

(** A value placed in a template literal or given to [String]. *)
Definition text_of (o : option string) : string :=
  match o with
  | Some t => t
  | None => "undefined"
  end.

(** [String(v)]. *)
Fixpoint ToString (v : value) : string :=
  match v with
  | VUndefined => "undefined"
  | VNull => "null"
  | VBool b => if b then "true" else "false"
  | VNum n => numberToString n
  | VStr s => s
  | VArr xs =>
      let fix elems (l : list value) : list string :=
        match l with
        | [] => []
        | x :: l' => (if nullish x then "" else ToString x) :: elems l'
        end in
      String.concat "," (elems xs)
  | VObj _ => "[object Object]"
  end.

(** ** cache.ts: generateCacheKey *)

Definition keyParams_of (params : value) : value :=
  VObj [ ("indicatorType", getProp params "indicatorType");
         ("symbol", getProp params "symbol");
         ("interval", getProp params "interval");
         ("parameters", getProp params "parameters");
         ("dataSource", getProp params "dataSource") ].

(** The callback of [sortedKeys.map]: [None] is the null of a skipped part. *)
Definition keyPart (keyParams : value) (key : string) : option string :=
  let value := getProp keyParams key in
  if nullish value then None
  else
    let stringValue :=
      if is_object value then text_of (JSON_stringify value) else ToString value in
    Some (key +:+ ":" +:+ stringValue).

Definition generateCacheKey (params : value) : string :=
  let keyParams := keyParams_of params in
  let sortedKeys := sort_strings (Object_keys keyParams) in
  let entries :=
    String.concat "|" (omap (fun part => part) (map (keyPart keyParams) sortedKeys)) in
  "indicator:" +:+ entries.

End Text.

(** ** The world the services run in *)

Inductive level : Type := Info | Warn | Error.

(** A console line: its level and its first argument (the message). *)
Record logEntry : Type := { lvl : level; msg : string }.

(** The Redis client: whether it is ready, the key/value store (a text and
    the time it expires at), and the streams. *)
Record Redis : Type := {
  isReady : bool;
  kv : gmap string (string * Z);
  streams : gmap string (list (list (string * string)))
}.

(** [clock] is the wall-clock time in seconds, [requests] the queries sent
    to the market-data provider so far. *)
Record World : Type := {
  redis : Redis;
  clock : Z;
  console : list logEntry;
  requests : list value
}.

Definition console_log (l : level) (m : string) (w : World) : World :=
  {| redis := redis w; clock := clock w;
     console := console w ++ [ {| lvl := l; msg := m |} ];
     requests := requests w |}.

Definition with_redis (r : Redis) (w : World) : World :=
  {| redis := r; clock := clock w; console := console w; requests := requests w |}.

(** [redisClient.get]: the text stored under [key], unless it has expired. *)
Definition redis_get (w : World) (key : string) : option string :=
  match kv (redis w) !! key with
  | Some (text, expires) => if (clock w <? expires)%Z then Some text else None
  | None => None
  end.

(** [redisClient.set(key, text, {EX: ttl})]. *)
Definition redis_set (key text : string) (ttl : Z) (w : World) : World :=
  with_redis {| isReady := isReady (redis w);
                kv := <[ key := (text, (clock w + ttl)%Z) ]> (kv (redis w));
                streams := streams (redis w) |} w.

(** [redisClient.xAdd(stream, '*', fields)]. *)
Definition redis_xAdd (stream : string) (fields : list (string * string)) (w : World) : World :=
  with_redis {| isReady := isReady (redis w);
                kv := kv (redis w);
                streams := <[ stream := default [] (streams (redis w) !! stream) ++ [fields] ]>
                             (streams (redis w)) |} w.

Definition stream_of (w : World) (stream : string) : list (list (string * string)) :=
  default [] (streams (redis w) !! stream).

(** The outcome of a block that may throw. *)
Inductive outcome (A : Type) : Type :=
| Normal (a : A)
| Throw (message : string).
Arguments Normal {A} a.
Arguments Throw {A} message.

Section Services.
Context {rt : JSRuntime}.

(** ** cache.ts: the freshness cache *)

Definition setCachedIndicatorData (key : string) (data metadata : value) (ttlSeconds : Z)
    (w : World) : World :=
  let cacheEntry :=
    VObj [ ("data", data); ("metadata", metadata);
           ("fetchedAt", VStr (toISOString (clock w))) ] in
  let w1 := console_log Info
              ("Setting cache for key: " +:+ key +:+ " with TTL: " +:+ pretty ttlSeconds +:+ " seconds") w in
  redis_set key (text_of (JSON_stringify cacheEntry)) ttlSeconds w1.

(** The result is a value: null on a miss or on a text that does not parse. *)
Definition getCachedIndicatorEntry (key : string) (w : World) : value * World :=
  let w1 := console_log Info ("Checking cache for key: " +:+ key) w in
  match redis_get w1 key with
  | None => (VNull, console_log Info ("Cache miss: " +:+ key) w1)
  | Some cached =>
      if String.eqb cached "" then (VNull, console_log Info ("Cache miss: " +:+ key) w1)
      else
        let w2 := console_log Info ("Cache hit: " +:+ key) w1 in
        match JSON_parse cached with
        | Some entry => (entry, w2)
        | None => (VNull, console_log Error "Error parsing cached indicator entry:" w2)
        end
  end.

(** ** redisStream.ts: the two streams *)

Definition STREAM_KEY : string := "indicatorUpdates".
Definition ACTION_STREAM_KEY : string := "actionRequired".

(** The loop over [Object.entries(payload)] that fills [streamData]. *)
Fixpoint indicatorStreamData (entries : object) : list (string * string) :=
  match entries with
  | [] => []
  | (key, value) :: rest =>
      if nullish value then indicatorStreamData rest
      else if (String.eqb key "parameters" && is_object value)%bool
      then (key, text_of (JSON_stringify value)) :: indicatorStreamData rest
      else (key, ToString value) :: indicatorStreamData rest
  end.

Definition publishIndicatorUpdate (payload : value) (w : World) : World :=
  if negb (isReady (redis w))
  then console_log Error "Redis client not ready. Cannot publish indicator update." w
  else
    let streamData := indicatorStreamData (ownEntries payload) in
    let w1 := redis_xAdd STREAM_KEY streamData w in
    console_log Info ("Published update to " +:+ STREAM_KEY +:+ " for "
                      +:+ ToString (getProp payload "cacheKey")) w1.

Fixpoint actionStreamData (entries : object) : list (string * string) :=
  match entries with
  | [] => []
  | (key, value) :: rest =>
      if nullish value then actionStreamData rest
      else if (String.eqb key "parameters" || String.eqb key "triggeringIndicator")%bool
      then (key, text_of (JSON_stringify value)) :: actionStreamData rest
      else (key, ToString value) :: actionStreamData rest
  end.

Definition publishActionRequired (payload : value) (w : World) : World :=
  if negb (isReady (redis w))
  then console_log Error "Redis client not ready. Cannot publish required action" w
  else
    let streamData := actionStreamData (ownEntries payload) in
    let w1 := redis_xAdd ACTION_STREAM_KEY streamData w in
    console_log Info ("Published action required to " +:+ ACTION_STREAM_KEY +:+ " for action "
                      +:+ ToString (getProp payload "actionId") +:+ " (strategy "
                      +:+ ToString (getProp payload "strategyId") +:+ ")") w1.

End Services.

(** ** technicalIndicators.ts: the fetcher *)

(** The external provider: the API key of the environment and the answer
    ([response.data], or a thrown error) to a query. *)
Record Provider : Type := {
  apikey : value;
  http_get : value -> outcome value
}.

(** [v === "s"]. *)
Definition is_str (v : value) (s : string) : bool :=
  match v with
  | VStr t => String.eqb t s
  | _ => false
  end.

(** The number a text of decimal digits denotes. *)
Fixpoint decimalValue (acc : N) (s : string) : option N :=
  match s with
  | EmptyString => Some acc
  | String c s' =>
      let n := N_of_ascii c in
      if ((48 <=? n)%N && (n <=? 57)%N)%bool
      then decimalValue (10 * acc + (n - 48)) s'
      else None
  end.

(** The array index a property name denotes, if any: the name is the
    canonical decimal text of an integer below 2^32 - 1. *)
Definition arrayIndex (k : string) : option N :=
  match k with
  | EmptyString => None
  | String c rest =>
      if (Ascii.eqb c "0" && negb (String.eqb rest ""))%bool then None
      else
        match decimalValue 0 k with
        | Some n => if (n <? 4294967295)%N then Some n else None
        | None => None
        end
  end.

(** The place of a new property: the array indices come first, in ascending
    order, then the other names in the order of their creation. *)
Fixpoint insertProp (o : object) (k : string) (v : value) : object :=
  match o with
  | [] => [(k, v)]
  | (k', v') :: o' =>
      match arrayIndex k, arrayIndex k' with
      | Some n, Some n' => if (n <? n')%N then (k, v) :: o else (k', v') :: insertProp o' k v
      | Some _, None => (k, v) :: o
      | None, _ => (k', v') :: insertProp o' k v
      end
  end.

Fixpoint replaceProp (o : object) (k : string) (v : value) : object :=
  match o with
  | [] => []
  | (k', v') :: o' =>
      if String.eqb k k' then (k, v) :: o' else (k', v') :: replaceProp o' k v
  end.

(** Assignment [o[k] = v]: an existing property keeps its place, a new one
    goes where [Object.keys] lists it. *)
Definition setProp (o : object) (k : string) (v : value) : object :=
  match assoc k o with
  | Some _ => replaceProp o k v
  | None => insertProp o k v
  end.

(** [{...o, ...src}]. *)
Definition spread (o : object) (src : value) : object :=
  fold_left (fun acc kv => setProp acc (fst kv) (snd kv)) (ownEntries src) o.

(** [x || y]. *)
Definition js_or (x y : value) : value := if truthy x then x else y.

(** [v?.includes(needle)] for a string needle: undefined on a nullish [v],
    a substring test on a string, a membership test on an array, and a
    TypeError on anything else (there is no such method to call). *)
Definition optional_includes (v : value) (needle : string) : outcome value :=
  match v with
  | VUndefined | VNull => Normal VUndefined
  | VStr s =>
      Normal (VBool (match String.index 0 needle s with Some _ => true | None => false end))
  | VArr xs => Normal (VBool (existsb (fun x => is_str x needle) xs))
  | _ => Throw "(intermediate value).includes is not a function"
  end.

(** The table of lines 86 to 93: seconds a fetched series stays cached. *)
Definition ttlSecondsFor (interval : value) : Z :=
  if is_str interval "1min" then 60 * 5
  else if is_str interval "5min" then 300 * 2
  else if is_str interval "daily" then 86400 + 3600
  else if is_str interval "weekly" then 86400 * 7 + 3600
  else if is_str interval "monthly" then 86400 * 30 + 3600
  else 86400.

(** The basic validation of line 66: true when the answer is rejected. *)
Definition invalidResponse (data : value) : bool :=
  negb (truthy data) || negb (String.eqb (typeof data) "object")
  || truthy (getProp data "Error Message") || negb (truthy (getProp data "Meta Data")).

(** The callback of line 77 over the values of the answer, in order: the
    first value that is an object without the property [1: Symbol]. The
    callback calls [val.hasOwnProperty] as a method of the value: on an
    object that has an own property of that name, which in data read from
    JSON is never a function, the call throws a TypeError. *)
Fixpoint findIndicatorDataIn (vals : list value) : outcome (option value) :=
  match vals with
  | [] => Normal None
  | val :: rest =>
      if (String.eqb (typeof val) "object" && negb (nullish val))%bool then
        if hasOwnProperty val "hasOwnProperty"
        then Throw "val.hasOwnProperty is not a function"
        else if negb (hasOwnProperty val "1: Symbol") then Normal (Some val)
        else findIndicatorDataIn rest
      else findIndicatorDataIn rest
  end.

(** Line 77: [Object.values(data).find(...)]. *)
Definition findIndicatorData (data : value) : outcome (option value) :=
  findIndicatorDataIn (Object_values data).

Section Fetcher.
Context {rt : JSRuntime}.
Variable provider : Provider.

(** The query sent to the provider: [{...apiParams, apikey}]. *)
Definition apiQuery (params : value) : value :=
  let func := getProp params "function" in
  let symbol := getProp params "symbol" in
  let interval := getProp params "interval" in
  let parameters := getProp params "parameters" in
  let apiParams :=
    spread [ ("function", func); ("symbol", symbol); ("interval", interval) ] parameters in
  VObj (setProp apiParams "apikey" (apikey provider)).

(** The body of the try block (lines 50 to 110). *)
Definition fetchFresh (params : value) (cacheKey : string) (w : World)
    : outcome value * World :=
  let w1 := console_log Info ("Fetching fresh data for " +:+ cacheKey) w in
  let w2 := console_log Info "params:" w1 in
  let query := apiQuery params in
  let w3 := {| redis := redis w2; clock := clock w2; console := console w2;
               requests := requests w2 ++ [query] |} in
  match http_get provider query with
  | Throw m => (Throw m, w3)
  | Normal data =>
      if invalidResponse data then
        let w4 := console_log Error "Invalid data received from Alpha Vantage:" w3 in
        let failure :=
          Throw ("Invalid or error data received from Alpha Vantage for " +:+ cacheKey +:+ ".") in
        if (String.eqb (typeof data) "object" && negb (nullish data))%bool then
          match optional_includes (js_or (getProp data "Note") (getProp data "Information"))
                                  "API call frequency" with
          | Throw m => (Throw m, w4)
          | Normal hit =>
              if truthy hit
              then (failure,
                    console_log Warn ("Rate limit likely hit for " +:+ cacheKey
                                      +:+ ". Data not cached.") w4)
              else (failure, w4)
          end
        else (failure, w4)
      else
        let metadata := js_or (getProp data "Meta Data") (VObj []) in
        match findIndicatorData data with
        | Throw m => (Throw m, w3)
        | Normal None =>
            (Throw ("Could not extract actual indicator data for " +:+ cacheKey +:+ "."),
             console_log Error "Could not extract actual indicator data from response:" w3)
        | Normal (Some actualIndicatorData) =>
            let lastRefreshedAV := getProp metadata "3: Last Refreshed" in
            let ttlSeconds := ttlSecondsFor (getProp params "interval") in
            let w4 :=
              setCachedIndicatorData cacheKey actualIndicatorData
                (VObj (setProp (spread [] metadata) "alphaVantageLastRefreshed" lastRefreshedAV))
                ttlSeconds w3 in
            let w5 :=
              publishIndicatorUpdate
                (VObj [ ("cacheKey", VStr cacheKey);
                        ("indicatorType", getProp params "function");
                        ("symbol", getProp params "symbol");
                        ("interval", getProp params "interval");
                        ("parameters", params);
                        ("lastRefreshed", lastRefreshedAV);
                        ("fetchTime", VStr (toISOString (clock w4))) ]) w4 in
            (Normal actualIndicatorData, w5)
        end
  end.

(** [getTechnicalIndicator(params, forceRefresh)]: the value the promise
    resolves to, and the world afterwards. *)
Definition getTechnicalIndicator (params : value) (forceRefresh : bool) (w : World)
    : value * World :=
  let cacheKey := generateCacheKey params in
  let fetch (w0 : World) :=
    match fetchFresh params cacheKey w0 with
    | (Normal data, w') => (data, w')
    | (Throw _, w') =>
        (VNull,
         console_log Error ("Error fetching Technical Indicator data for key " +:+ cacheKey +:+ ":") w')
    end in
  if negb forceRefresh then
    let (cachedEntry, w1) := getCachedIndicatorEntry cacheKey w in
    if truthy cachedEntry then (getProp cachedEntry "data", w1)
    else fetch w1
  else fetch w.

End Fetcher.

(** ** The relational store (prisma/schema.prisma) *)

Inductive Operator : Type :=
| EQUALS | NOT_EQUALS | GREATER_THAN | LESS_THAN
| GREATER_THAN_OR_EQUAL | LESS_THAN_OR_EQUAL | CROSSES_ABOVE | CROSSES_BELOW.

Inductive ActionType : Type := BUY | SELL | NOTIFY | REBALANCE | LOG_MESSAGE.

Record Strategy : Type := {
  strategy_id : string;
  isActive : bool
}.

Record Condition : Type := {
  condition_id : string;
  indicatorType : string;
  dataSource : option string;
  dataKey : option string;
  symbol : option string;
  interval : option string;
  parameters : value;
  operator : Operator;
  targetValue : option float;
  targetIndicatorId : option string
}.

Record Action : Type := {
  action_id : string;
  actionType : ActionType;
  action_parameters : value;
  action_order : Z
}.

Record StrategyBlock : Type := {
  block_id : string;
  strategyId : string;
  conditionId : option string;
  actionId : option string;
  order : Z
}.

Record Database : Type := {
  strategies : list Strategy;
  strategyBlocks : list StrategyBlock;
  conditions : list Condition;
  actions : list Action
}.

(** A nullable column read into JavaScript. *)
Definition nullable (s : option string) : value :=
  match s with
  | Some t => VStr t
  | None => VNull
  end.

Definition findStrategy (db : Database) (id : string) : option Strategy :=
  List.find (fun s => String.eqb (strategy_id s) id) (strategies db).

Definition findCondition (db : Database) (id : string) : option Condition :=
  List.find (fun c => String.eqb (condition_id c) id) (conditions db).

Definition findAction (db : Database) (id : string) : option Action :=
  List.find (fun a => String.eqb (action_id a) id) (actions db).

(** The relation [condition.strategyBlocks]. *)
Definition blocksOfCondition (db : Database) (c : Condition) : list StrategyBlock :=
  filter (fun b => conditionId b = Some (condition_id c)) (strategyBlocks db).

(** [block.strategy?.isActive]. *)
Definition blockActive (db : Database) (b : StrategyBlock) : bool :=
  match findStrategy db (strategyId b) with
  | Some s => isActive s
  | None => false
  end.

(** ** technicalStrategySource.ts: the indicators of the active strategies *)

Section Source.
Context {rt : JSRuntime}.

(** The [where] clause of the scan: conditions linked to at least one block
    of an active strategy. The [distinct] option of the query is left to the
    store; the loop below removes duplicates again. *)
Definition activeConditions (db : Database) : list Condition :=
  filter (fun c => existsb (blockActive db) (blocksOfCondition db c) = true) (conditions db).

Definition indicatorKey (cond : Condition) : string :=
  let paramKey := text_of (JSON_stringify (js_or (parameters cond) (VObj []))) in
  indicatorType cond +:+ "|"
  +:+ (if truthy_string (symbol cond) then default "" (symbol cond) else "NOSYMBOL") +:+ "|"
  +:+ (if truthy_string (interval cond) then default "" (interval cond) else "NOINTERVAL") +:+ "|"
  +:+ paramKey.

(** The body of [activeConditions.forEach]; the map keeps insertion order. *)
Definition addIndicator (technicalIndicators : list (string * value)) (cond : Condition)
    : list (string * value) :=
  let key := indicatorKey cond in
  match assoc key technicalIndicators with
  | Some _ => technicalIndicators
  | None =>
      let paramsObject :=
        if (is_object (parameters cond) && negb (nullish (parameters cond)))%bool
        then parameters cond else VObj [] in
      let symbol := default "" (symbol cond) in
      let interval := default "" (interval cond) in
      if (String.eqb symbol "" || String.eqb interval "")%bool then technicalIndicators
      else
        technicalIndicators ++
        [ (key, VObj [ ("function", VStr (indicatorType cond));
                       ("indicatorType", VStr (indicatorType cond));
                       ("symbol", VStr symbol);
                       ("interval", VStr interval);
                       ("parameters", paramsObject);
                       ("dataSource", nullable (dataSource cond));
                       ("dataKey", nullable (dataKey cond)) ]) ]
  end.

Definition technicalIndicatorsOf (rows : list Condition) : list value :=
  map snd (fold_left addIndicator rows []).

Definition getTechnicalActiveIndicators (db : Database) : list value :=
  technicalIndicatorsOf (activeConditions db).

End Source.

(** ** The discovery scheduler (startScheduler) *)

(** A cron task object: the indicator it refreshes, its pattern, and whether
    it is still running ([stop] clears the flag). *)
Record Task : Type := {
  subject : value;
  pattern : string;
  running : bool
}.

(** The scheduler's state: the module-level map [scheduledJobs] from job key
    to task (a reference into the heap of task objects), the task objects,
    and the next free reference. *)
Record Scheduler : Type := {
  scheduledJobs : gmap string nat;
  tasks : gmap nat Task;
  nextTask : nat
}.

Definition stopTask (t : Task) : Task :=
  {| subject := subject t; pattern := pattern t; running := false |}.

(** The module starts with an empty map of jobs. *)
Definition initialScheduler : Scheduler :=
  {| scheduledJobs := ∅; tasks := ∅; nextTask := 0 |}.

Section Discovery.
Context {rt : JSRuntime}.

(** The cron pattern fetchOrchestrator.ts derives from an indicator; that
    file is not among the sources, so its table is a parameter. *)
Variable cronPatternFor : value -> option string.

(** Modelled from the spec: [scheduleIndicatorFetch] of fetchOrchestrator.ts,
    which is missing from the sources. The spec has it create a recurring
    refresh task for the indicator; its caller tests the result, so the model
    returns no task when there is no pattern for the indicator. *)
Definition scheduleIndicatorFetch (indicatorParams : value) (st : Scheduler)
    : option nat * Scheduler :=
  match cronPatternFor indicatorParams with
  | None => (None, st)
  | Some p =>
      (Some (nextTask st),
       {| scheduledJobs := scheduledJobs st;
          tasks := <[ nextTask st :=
                      {| subject := indicatorParams; pattern := p; running := true |} ]> (tasks st);
          nextTask := S (nextTask st) |})
  end.

(** The body of [indicatorsToSchedule.forEach] (lines 113 to 126). *)
Definition scheduleOne (acc : gset string * Scheduler) (indicatorParams : value)
    : gset string * Scheduler :=
  let (newJobKeys, st) := acc in
  let jobKey := generateCacheKey indicatorParams in
  let newJobKeys := {[ jobKey ]} ∪ newJobKeys in
  match scheduledJobs st !! jobKey with
  | Some _ => (newJobKeys, st)
  | None =>
      match scheduleIndicatorFetch indicatorParams st with
      | (Some task, st1) =>
          (newJobKeys,
           {| scheduledJobs := <[ jobKey := task ]> (scheduledJobs st1);
              tasks := tasks st1; nextTask := nextTask st1 |})
      | (None, st1) => (newJobKeys, st1)
      end
  end.

(** The body of [scheduledJobs.forEach] (lines 129 to 135). *)
Definition pruneOne (newJobKeys : gset string) (key : string) (task : nat) (st : Scheduler)
    : Scheduler :=
  if decide (key ∈ newJobKeys) then st
  else
    {| scheduledJobs := delete key (scheduledJobs st);
       tasks := alter stopTask task (tasks st);
       nextTask := nextTask st |}.

(** One run of the discovery task. [scan] is what
    [getTechnicalActiveIndicators] resolved to, or the error it threw. *)
Definition discoveryTick (scan : outcome (list value)) (st : Scheduler) : Scheduler :=
  match scan with
  | Throw _ => st
  | Normal indicatorsToSchedule =>
      let (newJobKeys, st1) := fold_left scheduleOne indicatorsToSchedule (∅, st) in
      map_fold (pruneOne newJobKeys) st1 (scheduledJobs st1)
  end.

(** [stopScheduler]. *)
Definition stopScheduler (st : Scheduler) : Scheduler :=
  map_fold (pruneOne ∅) st (scheduledJobs st).

End Discovery.

(** ** evaluator.ts: the evaluation engine

    The console lines of the evaluator itself are not modelled; those of the
    cache functions it calls are, since they are part of the world. *)

Definition gtb (x y : float) : bool := PrimFloat.ltb y x.
Definition geb (x y : float) : bool := PrimFloat.leb y x.

(** The epsilon of the equality operators, the double nearest to 0.0001. *)
Definition epsilon : float := 0.0001%float.

(** The switch of lines 140 to 171. *)
Definition applyOperator (op : Operator) (currentValue : float) (previousValue : option float)
    (target : float) : bool :=
  match op with
  | GREATER_THAN => gtb currentValue target
  | LESS_THAN => PrimFloat.ltb currentValue target
  | EQUALS => PrimFloat.ltb (PrimFloat.abs (currentValue - target)) epsilon
  | NOT_EQUALS => geb (PrimFloat.abs (currentValue - target)) epsilon
  | GREATER_THAN_OR_EQUAL => geb currentValue target
  | LESS_THAN_OR_EQUAL => PrimFloat.leb currentValue target
  | CROSSES_ABOVE =>
      match previousValue with
      | None => false
      | Some previousValue => PrimFloat.leb previousValue target && gtb currentValue target
      end
  | CROSSES_BELOW =>
      match previousValue with
      | None => false
      | Some previousValue => geb previousValue target && PrimFloat.ltb currentValue target
      end
  end.

Definition operatorName (op : Operator) : string :=
  match op with
  | EQUALS => "EQUALS" | NOT_EQUALS => "NOT_EQUALS"
  | GREATER_THAN => "GREATER_THAN" | LESS_THAN => "LESS_THAN"
  | GREATER_THAN_OR_EQUAL => "GREATER_THAN_OR_EQUAL"
  | LESS_THAN_OR_EQUAL => "LESS_THAN_OR_EQUAL"
  | CROSSES_ABOVE => "CROSSES_ABOVE" | CROSSES_BELOW => "CROSSES_BELOW"
  end.

Definition actionTypeName (t : ActionType) : string :=
  match t with
  | BUY => "BUY" | SELL => "SELL" | NOTIFY => "NOTIFY"
  | REBALANCE => "REBALANCE" | LOG_MESSAGE => "LOG_MESSAGE"
  end.

(** [self.findIndex(p)]; [None] stands for -1. *)
Fixpoint findIndex {A : Type} (p : A -> bool) (self : list A) : option nat :=
  match self with
  | [] => None
  | x :: rest => if p x then Some 0 else S <$> findIndex p rest
  end.

(** [self.filter((x, index, self) => index === self.findIndex(y => y.id === x.id))]. *)
Definition uniqueById {A : Type} (id : A -> string) (self : list A) : list A :=
  map snd
    (filter (fun ix => findIndex (fun y => String.eqb (id y) (id (snd ix))) self = Some (fst ix))
            (imap pair self)).

(** [orderBy: {order: 'asc'}]: rows with the same order keep their place. *)
Fixpoint insertBlock (b : StrategyBlock) (l : list StrategyBlock) : list StrategyBlock :=
  match l with
  | [] => [b]
  | x :: l' => if (order b <=? order x)%Z then b :: l else x :: insertBlock b l'
  end.

Definition sortByOrder (l : list StrategyBlock) : list StrategyBlock :=
  fold_right insertBlock [] l.

Section Evaluator.
Context {rt : JSRuntime}.
Variable db : Database.

(** [parseFloat(x)] for any value [x]. *)
Definition parseFloatOf (x : value) : float := parseFloat (ToString x).

(** The first key of a data point whose value reads as a number, and that
    number; null when there is none or when the key is the empty string. *)
Definition numericField (dataPoint : value) : option float :=
  match List.find (fun k => negb (PrimFloat.is_nan (parseFloatOf (getProp dataPoint k))))
                  (Object_keys dataPoint) with
  | Some valueKey =>
      if String.eqb valueKey "" then None
      else Some (parseFloatOf (getProp dataPoint valueKey))
  | None => None
  end.

Definition sortedDates (indicatorData : value) : list string :=
  rev (sort_strings (Object_keys indicatorData)).

Definition valueAt (indicatorData : value) (date : string) : option float :=
  let dataPoint := getProp indicatorData date in
  if (negb (truthy dataPoint) || negb (is_object dataPoint))%bool then None
  else numericField dataPoint.

Definition getLatestIndicatorValue (indicatorData : value) : option float :=
  if (negb (truthy indicatorData) || negb (is_object indicatorData))%bool then None
  else
    match sortedDates indicatorData with
    | [] => None
    | latestDate :: _ => valueAt indicatorData latestDate
    end.

Definition getPreviousIndicatorValue (indicatorData : value) : option float :=
  if (negb (truthy indicatorData) || negb (is_object indicatorData))%bool then None
  else
    match sortedDates indicatorData with
    | _ :: previousDate :: _ => valueAt indicatorData previousDate
    | _ => None
    end.

(** The object literal both cache key computations of the evaluator build. *)
Definition conditionCacheKeyParams (c : Condition) : value :=
  VObj [ ("indicatorType", VStr (indicatorType c));
         ("symbol", nullable (symbol c));
         ("interval", nullable (interval c));
         ("parameters", parameters c);
         ("dataSource", nullable (dataSource c)) ].

(** Lines 99 to 137: the comparison target, or nothing when the evaluation
    stops with false. *)
Definition resolveTarget (condition : Condition) (w : World) : option float * World :=
  if truthy_string (targetIndicatorId condition) then
    match findCondition db (default "" (targetIndicatorId condition)) with
    | None => (None, w)
    | Some targetCondition =>
        let targetCacheKey := generateCacheKey (conditionCacheKeyParams targetCondition) in
        let (targetCachedEntry, w1) := getCachedIndicatorEntry targetCacheKey w in
        if negb (truthy targetCachedEntry) then (None, w1)
        else (getLatestIndicatorValue (getProp targetCachedEntry "data"), w1)
    end
  else
    match targetValue condition with
    | Some target => (Some target, w)
    | None => (None, w)
    end.

Definition evaluateSingleCondition (condition : Condition) (currentValue : float)
    (previousValue : option float) (w : World) : bool * World :=
  match resolveTarget condition w with
  | (None, w1) => (false, w1)
  | (Some target, w1) =>
      (applyOperator (operator condition) currentValue previousValue target, w1)
  end.

(** The [where] clause of step 1. The payload fields are strings, as the
    consumer reads them from the stream. *)
Definition columnIs (column : option string) (v : value) : bool :=
  match column, v with
  | Some s, VStr t => String.eqb s t
  | _, _ => false
  end.

Definition matchingConditions (payload : value) : list Condition :=
  List.filter
    (fun c => columnIs (Some (indicatorType c)) (getProp payload "indicatorType")
              && columnIs (symbol c) (getProp payload "symbol")
              && columnIs (interval c) (getProp payload "interval"))%bool
    (conditions db).

(** The test of line 221, negated: true when the condition is kept. *)
Definition parametersMatch (updatedParams : value) (condition : Condition) : bool :=
  bool_decide (JSON_stringify (parameters condition) = JSON_stringify updatedParams).

(** The conditions that pass line 221. *)
Definition keptConditions (payload : value) : list Condition :=
  List.filter (parametersMatch (getProp payload "parameters")) (matchingConditions payload).

(** [Set.add]: a set keeps the order of first insertion. *)
Definition set_add (x : string) (s : list string) : list string :=
  if bool_decide (x ∈ s) then s else s ++ [x].

(** The inner loop of step 2 for one block of a kept condition. *)
Definition recordBlock (condition : Condition)
    (acc : list string * gmap string (list Condition)) (block : StrategyBlock)
    : list string * gmap string (list Condition) :=
  let (relevantStrategyIds, conditionsByStrategy) := acc in
  if blockActive db block then
    let ids := set_add (strategyId block) relevantStrategyIds in
    let stored := default [] (conditionsByStrategy !! strategyId block) in
    if existsb (fun c => String.eqb (condition_id c) (condition_id condition)) stored
    then (ids, <[ strategyId block := stored ]> conditionsByStrategy)
    else (ids, <[ strategyId block := stored ++ [condition] ]> conditionsByStrategy)
  else acc.

(** Step 2 (lines 215 to 240). *)
Definition collectStrategies (payload : value)
    : list string * gmap string (list Condition) :=
  fold_left
    (fun acc condition =>
       if parametersMatch (getProp payload "parameters") condition
       then fold_left (recordBlock condition) (blocksOfCondition db condition) acc
       else acc)
    (matchingConditions payload) ([], ∅).

(** The blocks of a strategy, as step 3 fetches them. *)
Definition blocksOfStrategy (strategyId0 : string) : list StrategyBlock :=
  sortByOrder (List.filter (fun b => String.eqb (strategyId b) strategyId0) (strategyBlocks db)).

Definition allStrategyConditions (strategyId0 : string) : list Condition :=
  uniqueById condition_id
    (omap (fun b => c ← conditionId b; findCondition db c) (blocksOfStrategy strategyId0)).

Definition allStrategyActions (strategyId0 : string) : list Action :=
  uniqueById action_id
    (omap (fun b => a ← actionId b; findAction db a) (blocksOfStrategy strategyId0)).

(** Lines 292 to 331: one condition of a strategy against the cache. *)
Definition evaluateCondition (condition : Condition) (w : World) : bool * World :=
  let conditionCacheKey := generateCacheKey (conditionCacheKeyParams condition) in
  let (cachedEntry, w1) := getCachedIndicatorEntry conditionCacheKey w in
  if negb (truthy cachedEntry) then (false, w1)
  else
    let currentValue := getLatestIndicatorValue (getProp cachedEntry "data") in
    let previousValue := getPreviousIndicatorValue (getProp cachedEntry "data") in
    match currentValue with
    | None => (false, w1)
    | Some currentValue => evaluateSingleCondition condition currentValue previousValue w1
    end.

(** The loop over the conditions, which stops at the first one not met. *)
Fixpoint allConditionsMet (l : list Condition) (w : World) : bool * World :=
  match l with
  | [] => (true, w)
  | condition :: rest =>
      match evaluateCondition condition w with
      | (true, w1) => allConditionsMet rest w1
      | (false, w1) => (false, w1)
      end
  end.

Definition actionRequiredPayload (payload : value) (strategyId0 : string) (action : Action)
    : value :=
  let actionParams :=
    if (is_object (action_parameters action) && negb (nullish (action_parameters action)))%bool
    then action_parameters action else VObj [] in
  VObj [ ("actionId", VStr (action_id action));
         ("actionType", VStr (actionTypeName (actionType action)));
         ("parameters", actionParams);
         ("strategyId", VStr strategyId0);
         ("triggeringIndicator", payload) ].

(** The body of the loop of step 3 for one strategy. *)
Definition evaluateStrategy (payload : value) (w : World) (strategyId0 : string) : World :=
  match allStrategyConditions strategyId0 with
  | [] => w
  | conds =>
      match allConditionsMet conds w with
      | (true, w1) =>
          fold_left (fun w0 action =>
                       publishActionRequired (actionRequiredPayload payload strategyId0 action) w0)
                    (allStrategyActions strategyId0) w1
      | (false, w1) => w1
      end
  end.

(** The validation of lines 187 to 190: true when the payload is rejected
    and the run ends there. *)
Definition invalidPayload (payload : value) : bool :=
  (negb (truthy (getProp payload "indicatorType")) || negb (truthy (getProp payload "symbol"))
   || negb (truthy (getProp payload "interval"))
   || negb (is_object (getProp payload "parameters")))%bool.

Definition evaluateStrategiesForIndicator (payload : value) (w : World) : World :=
  if invalidPayload payload then w
  else
    let (relevantStrategyIds, _) := collectStrategies payload in
    fold_left (evaluateStrategy payload) relevantStrategyIds w.

(** What a run on [payload] does on its way: the conditions that pass
    line 221 and the strategies step 3 goes through, in order; none when
    the payload is rejected at line 187. *)
Definition conditionsKept (payload : value) : list Condition :=
  if invalidPayload payload then [] else keptConditions payload.

Definition strategiesEvaluated (payload : value) : list string :=
  if invalidPayload payload then [] else fst (collectStrategies payload).

End Evaluator.

(** ** cache.ts: getCachedData *)

Section CacheData.
Context {rt : JSRuntime}.

(** [entry ? entry.data : null]. *)
Definition getCachedData (key : string) (w : World) : value * World :=
  let (entry, w1) := getCachedIndicatorEntry key w in
  (if truthy entry then getProp entry "data" else VNull, w1).

End CacheData.

(** The world [dt] seconds later: only the clock has moved. *)
Definition afterSeconds (dt : Z) (w : World) : World :=
  {| redis := redis w; clock := (clock w + dt)%Z; console := console w;
     requests := requests w |}.

(** ** technicalIndicators.ts: one helper per indicator (lines 120 to 217) *)

Definition requestSMA (symbol0 interval0 time_period series_type : string) : value :=
  VObj [ ("function", VStr "SMA"); ("symbol", VStr symbol0); ("interval", VStr interval0);
         ("time_period", VStr time_period); ("series_type", VStr series_type) ].

Definition requestEMA (symbol0 interval0 time_period series_type : string) : value :=
  VObj [ ("function", VStr "EMA"); ("symbol", VStr symbol0); ("interval", VStr interval0);
         ("time_period", VStr time_period); ("series_type", VStr series_type) ].

Definition requestMACD (symbol0 interval0 series_type : string) : value :=
  VObj [ ("function", VStr "MACD"); ("symbol", VStr symbol0); ("interval", VStr interval0);
         ("series_type", VStr series_type) ].

Definition requestSTOCH (symbol0 interval0 series_type : string) : value :=
  VObj [ ("function", VStr "STOCH"); ("symbol", VStr symbol0); ("interval", VStr interval0) ].

Definition requestRSI (symbol0 interval0 time_period series_type : string) : value :=
  VObj [ ("function", VStr "RSI"); ("symbol", VStr symbol0); ("interval", VStr interval0);
         ("time_period", VStr time_period); ("series_type", VStr series_type) ].

Definition requestADX (symbol0 interval0 time_period : string) : value :=
  VObj [ ("function", VStr "ADX"); ("symbol", VStr symbol0); ("interval", VStr interval0);
         ("time_period", VStr time_period) ].

Definition requestCCI (symbol0 interval0 time_period : string) : value :=
  VObj [ ("function", VStr "CCI"); ("symbol", VStr symbol0); ("interval", VStr interval0);
         ("time_period", VStr time_period) ].

Definition requestAROON (symbol0 interval0 time_period : string) : value :=
  VObj [ ("function", VStr "AROON"); ("symbol", VStr symbol0); ("interval", VStr interval0);
         ("time_period", VStr time_period) ].

Definition requestBBANDS (symbol0 interval0 time_period series_type : string) : value :=
  VObj [ ("function", VStr "BBANDS"); ("symbol", VStr symbol0); ("interval", VStr interval0);
         ("time_period", VStr time_period); ("series_type", VStr series_type) ].

Definition requestAD (symbol0 interval0 : string) : value :=
  VObj [ ("function", VStr "AD"); ("symbol", VStr symbol0); ("interval", VStr interval0) ].

Definition requestOBV (symbol0 interval0 : string) : value :=
  VObj [ ("function", VStr "OBV"); ("symbol", VStr symbol0); ("interval", VStr interval0) ].

Section Helpers.
Context {rt : JSRuntime}.
Variable provider : Provider.

Definition getSMA (symbol0 interval0 time_period series_type : string) (w : World) :=
  getTechnicalIndicator provider (requestSMA symbol0 interval0 time_period series_type) false w.

Definition getEMA (symbol0 interval0 time_period series_type : string) (w : World) :=
  getTechnicalIndicator provider (requestEMA symbol0 interval0 time_period series_type) false w.

Definition getMACD (symbol0 interval0 series_type : string) (w : World) :=
  getTechnicalIndicator provider (requestMACD symbol0 interval0 series_type) false w.

Definition getSTOCH (symbol0 interval0 series_type : string) (w : World) :=
  getTechnicalIndicator provider (requestSTOCH symbol0 interval0 series_type) false w.

Definition getRSI (symbol0 interval0 time_period series_type : string) (w : World) :=
  getTechnicalIndicator provider (requestRSI symbol0 interval0 time_period series_type) false w.

Definition getADX (symbol0 interval0 time_period : string) (w : World) :=
  getTechnicalIndicator provider (requestADX symbol0 interval0 time_period) false w.

Definition getCCI (symbol0 interval0 time_period : string) (w : World) :=
  getTechnicalIndicator provider (requestCCI symbol0 interval0 time_period) false w.

Definition getAROON (symbol0 interval0 time_period : string) (w : World) :=
  getTechnicalIndicator provider (requestAROON symbol0 interval0 time_period) false w.

Definition getBBANDS (symbol0 interval0 time_period series_type : string) (w : World) :=
  getTechnicalIndicator provider (requestBBANDS symbol0 interval0 time_period series_type) false w.

Definition getAD (symbol0 interval0 : string) (w : World) :=
  getTechnicalIndicator provider (requestAD symbol0 interval0) false w.

Definition getOBV (symbol0 interval0 : string) (w : World) :=
  getTechnicalIndicator provider (requestOBV symbol0 interval0) false w.

End Helpers.

(** The requests the eleven helpers build for one symbol and one interval. *)
Definition helperRequests (symbol0 interval0 time_period series_type : string) : list value :=
  [ requestSMA symbol0 interval0 time_period series_type;
    requestEMA symbol0 interval0 time_period series_type;
    requestMACD symbol0 interval0 series_type;
    requestSTOCH symbol0 interval0 series_type;
    requestRSI symbol0 interval0 time_period series_type;
    requestADX symbol0 interval0 time_period;
    requestCCI symbol0 interval0 time_period;
    requestAROON symbol0 interval0 time_period;
    requestBBANDS symbol0 interval0 time_period series_type;
    requestAD symbol0 interval0;
    requestOBV symbol0 interval0 ].

(** The text [setCachedIndicatorData] stores at time [t]. *)
Definition cacheEntryText {rt : JSRuntime} (data metadata : value) (t : Z) : string :=
  text_of (JSON_stringify
             (VObj [ ("data", data); ("metadata", metadata);
                     ("fetchedAt", VStr (toISOString t)) ])).

(** The metadata the fetcher stores with a series, and the event it
    publishes for a request (lines 96 to 107). *)
Definition storedMetadata (data : value) : value :=
  let metadata := js_or (getProp data "Meta Data") (VObj []) in
  VObj (setProp (spread [] metadata) "alphaVantageLastRefreshed"
          (getProp metadata "3: Last Refreshed")).

Definition updateEvent {rt : JSRuntime} (params data : value) (t : Z) : value :=
  VObj [ ("cacheKey", VStr (generateCacheKey params));
         ("indicatorType", getProp params "function");
         ("symbol", getProp params "symbol");
         ("interval", getProp params "interval");
         ("parameters", params);
         ("lastRefreshed",
          getProp (js_or (getProp data "Meta Data") (VObj [])) "3: Last Refreshed");
         ("fetchTime", VStr (toISOString t)) ].

(** ** evaluationService/consumer.ts: the consumer of the indicator stream

    A consumer group on a stream, as Redis keeps it: how many entries of the
    stream were delivered to the group, and the ids delivered and not yet
    acknowledged. The id of a message is its position in the stream. Redis
    answers every command, and the console lines of the consumer are not
    modelled. *)

Record Group : Type := { delivered : nat; pending : list nat }.

Definition Message : Type := (nat * list (string * string))%type.

(** [xReadGroup(group, consumer, {key, id: '>'}, {COUNT: count})]. *)
Definition xReadGroup (entries : list (list (string * string))) (count : nat) (g : Group)
    : list Message * Group :=
  let messages := take count (drop (delivered g) (imap pair entries)) in
  (messages, {| delivered := delivered g + length messages;
                pending := pending g ++ map fst messages |}).

(** [xAck(key, group, messageId)]. *)
Definition xAck (messageId : nat) (g : Group) : Group :=
  {| delivered := delivered g;
     pending := List.filter (fun i => negb (Nat.eqb i messageId)) (pending g) |}.

(** [message.message]: the fields of an entry as an object of strings. *)
Definition messageObject (fields : list (string * string)) : value :=
  VObj (fold_left (fun o kv => setProp o (fst kv) (VStr (snd kv))) fields []).

Section Consumer.
Context {rt : JSRuntime}.
Variable db : Database.

(** Lines 46 to 70: the payload given to the evaluator, or nothing when the
    message is acknowledged and skipped. *)
Definition updatePayloadOf (fields : list (string * string)) : option value :=
  let payload := messageObject fields in
  if Nat.eqb (length (Object_keys payload)) 0 then None
  else
    let parameters := getProp payload "parameters" in
    if (truthy parameters && String.eqb (typeof parameters) "string")%bool then
      match JSON_parse (ToString parameters) with
      | Some parsed => Some (VObj (setProp (ownEntries payload) "parameters" parsed))
      | None => None
      end
    else if (truthy parameters && negb (String.eqb (typeof parameters) "object"))%bool
    then None
    else Some payload.

(** The body of the loop over the messages of a batch. *)
Definition handleUpdateMessage (st : World * Group) (message : Message) : World * Group :=
  let (w, g) := st in
  let (messageId, fields) := message in
  match updatePayloadOf fields with
  | None => (w, xAck messageId g)
  | Some payload => (evaluateStrategiesForIndicator db payload w, xAck messageId g)
  end.

(** One turn of the [while (true)] loop. *)
Definition consumerIteration (st : World * Group) : World * Group :=
  let (w, g) := st in
  let (messages, g1) := xReadGroup (stream_of w STREAM_KEY) 10 g in
  fold_left handleUpdateMessage messages (w, g1).

End Consumer.

(** ** Vocabulary of the statements *)

(** Structural equality: two values are structurally equal when they are
    the same up to the order of the properties of their objects, at every
    depth. *)
Fixpoint structEqb (a b : value) : bool :=
  match a, b with
  | VUndefined, VUndefined => true
  | VNull, VNull => true
  | VBool x, VBool y => Bool.eqb x y
  | VNum x, VNum y => PrimFloat.Leibniz.eqb x y
  | VStr x, VStr y => String.eqb x y
  | VArr xs, VArr ys =>
      let fix all2 (l : list value) (r : list value) : bool :=
        match l, r with
        | [], [] => true
        | x :: l', y :: r' => structEqb x y && all2 l' r'
        | _, _ => false
        end in
      all2 xs ys
  | VObj ps, VObj qs =>
      let fix sub (l : object) : bool :=
        match l with
        | [] => true
        | (k, x) :: l' =>
            match assoc k qs with
            | Some y => structEqb x y && sub l'
            | None => false
            end
        end in
      Nat.eqb (length ps) (length qs) && sub ps
  | _, _ => false
  end.

(** No object of the value, at any depth, repeats a key. *)
Fixpoint wfValue (v : value) : bool :=
  match v with
  | VArr xs =>
      let fix all (l : list value) : bool :=
        match l with
        | [] => true
        | x :: l' => wfValue x && all l'
        end in
      all xs
  | VObj props =>
      let fix all (l : object) : bool :=
        match l with
        | [] => true
        | (_, x) :: l' => wfValue x && all l'
        end in
      bool_decide (NoDup (map fst props)) && all props
  | _ => true
  end.

(** The names of the five components of a fingerprint, as line 14 sorts them. *)
Definition sortedFieldNames : list string :=
  [ "dataSource"; "indicatorType"; "interval"; "parameters"; "symbol" ].

(** The text of one component, when it is part of the key. *)
Definition partText {rt : JSRuntime} (p : value) (key : string) : string :=
  key +:+ ":" +:+
  (if is_object (getProp p key) then text_of (JSON_stringify (getProp p key))
   else ToString (getProp p key)).

Definition present (p : value) (key : string) : bool := negb (nullish (getProp p key)).

(** Two inputs agree up to nullish components when each of the five
    components is the same in both, or is null or undefined in both. *)
Definition agreeUpToNullish (p q : value) : Prop :=
  forall k, In k sortedFieldNames ->
    getProp p k = getProp q k \/ (nullish (getProp p k) = true /\ nullish (getProp q k) = true).

(** An unexpired cache entry under [key]: the stored text has not reached
    its expiry time and reads back as a truthy value (a text written by
    [setCachedIndicatorData] is that of an object, so it is never empty). *)
Definition freshEntry {rt : JSRuntime} (w : World) (key : string) (entry : value) : Prop :=
  exists text expires,
    kv (redis w) !! key = Some (text, expires) /\ (clock w < expires)%Z /\
    text <> "" /\ JSON_parse text = Some entry /\ truthy entry = true.

(** The rate-limit signal of line 69: the note or information of the answer
    mentions the API call frequency. *)
Definition rateLimitSignal (data : value) : bool :=
  String.eqb (typeof data) "object" && negb (nullish data) &&
  match optional_includes (js_or (getProp data "Note") (getProp data "Information"))
                          "API call frequency" with
  | Normal hit => truthy hit
  | Throw _ => false
  end.


(** The invariant of the scheduler's state: a job refers to an allocated
    task, two jobs never share a task object, and references are handed out
    in increasing order. *)
Record schedulerWf (st : Scheduler) : Prop := {
  wf_job_task : forall k t, scheduledJobs st !! k = Some t -> is_Some (tasks st !! t);
  wf_job_inj : forall k1 k2 t,
    scheduledJobs st !! k1 = Some t -> scheduledJobs st !! k2 = Some t -> k1 = k2;
  wf_task_bound : forall t, is_Some (tasks st !! t) -> t < nextTask st
}.

(** The states the scheduler can be in: the empty map at start, then any
    sequence of discovery ticks and stops, whatever the scans and whatever
    fetchOrchestrator.ts schedules. *)
Inductive reachable {rt : JSRuntime} : Scheduler -> Prop :=
| reachable_start : reachable initialScheduler
| reachable_tick cronPatternFor scan st :
    reachable st -> reachable (discoveryTick cronPatternFor scan st)
| reachable_stop st : reachable st -> reachable (stopScheduler st).

(** What the first loop establishes, for any state of its accumulator. *)
Record scheduled (K : gset string) (s : Scheduler) (keys : list string)
    (K' : gset string) (s' : Scheduler) : Prop := {
  sch_keys : forall k, k ∈ K' <-> k ∈ K \/ k ∈ keys;
  sch_wf : schedulerWf s';
  sch_next : nextTask s <= nextTask s';
  sch_old : forall k t, scheduledJobs s !! k = Some t -> scheduledJobs s' !! k = Some t;
  sch_all : forall k, k ∈ keys -> is_Some (scheduledJobs s' !! k);
  sch_new : forall k t, scheduledJobs s' !! k = Some t ->
            scheduledJobs s !! k = Some t
            \/ (scheduledJobs s !! k = None /\ k ∈ keys /\ nextTask s <= t
                /\ exists task, tasks s' !! t = Some task /\ running task = true);
  sch_tasks : forall t, t < nextTask s -> tasks s' !! t = tasks s !! t
}.

(** What the pruning loop has done once it has visited the jobs of [m]. *)
Record pruned (K : gset string) (s1 : Scheduler) (r : Scheduler) (m : gmap string nat)
    : Prop := {
  pr_gone : forall k, k ∉ K -> is_Some (m !! k) -> scheduledJobs r !! k = None;
  pr_kept : forall k, k ∈ K \/ m !! k = None -> scheduledJobs r !! k = scheduledJobs s1 !! k;
  pr_stopped : forall k t, k ∉ K -> m !! k = Some t -> tasks r !! t = stopTask <$> tasks s1 !! t;
  pr_untouched : forall t, (forall k, m !! k = Some t -> k ∈ K) -> tasks r !! t = tasks s1 !! t;
  pr_only_stops : forall t, stopTask <$> tasks r !! t = stopTask <$> tasks s1 !! t;
  pr_next : nextTask r = nextTask s1
}.

(** Every job of the map refers to a task that is running. *)
Definition jobsRunning (st : Scheduler) : Prop :=
  forall k t, scheduledJobs st !! k = Some t ->
    exists task, tasks st !! t = Some task /\ running task = true.

(** Worlds that differ by console lines only. *)
Definition sameButConsole (w w' : World) : Prop :=
  redis w = redis w' /\ clock w = clock w' /\ requests w = requests w'.

(** The indicator record the scan builds for a condition (lines 66 to 74). *)
Definition indicatorOf (cond : Condition) : value :=
  VObj [ ("function", VStr (indicatorType cond));
         ("indicatorType", VStr (indicatorType cond));
         ("symbol", VStr (default "" (symbol cond)));
         ("interval", VStr (default "" (interval cond)));
         ("parameters",
          if (is_object (parameters cond) && negb (nullish (parameters cond)))%bool
          then parameters cond else VObj []);
         ("dataSource", nullable (dataSource cond));
         ("dataKey", nullable (dataKey cond)) ].

(** A condition with a symbol and an interval, the ones the scan keeps. *)
Definition hasSymbolAndInterval (cond : Condition) : bool :=
  truthy_string (symbol cond) && truthy_string (interval cond).

(** [w'] is [w] with events appended to the action stream and lines to the
    console: the key/value store, the readiness of the client, the other
    streams, the clock and the provider requests are the same. *)
Definition onlyActionsAdded (w w' : World) : Prop :=
  isReady (redis w') = isReady (redis w)
  /\ kv (redis w') = kv (redis w)
  /\ clock w' = clock w
  /\ requests w' = requests w
  /\ (forall stream, stream <> ACTION_STREAM_KEY -> stream_of w' stream = stream_of w stream)
  /\ exists events, stream_of w' ACTION_STREAM_KEY = stream_of w ACTION_STREAM_KEY ++ events.

(** A condition with another target value. *)
Definition withTargetValue (target : option float) (c : Condition) : Condition :=
  {| condition_id := condition_id c; indicatorType := indicatorType c;
     dataSource := dataSource c; dataKey := dataKey c; symbol := symbol c;
     interval := interval c; parameters := parameters c; operator := operator c;
     targetValue := target; targetIndicatorId := targetIndicatorId c |}.

(** What the loop has built from [rows], starting from the map [acc]. *)
Record scanned {rt : JSRuntime} (acc : list (string * value)) (rows : list Condition)
    (res : list (string * value)) : Prop := {
  sc_nodup : NoDup (map fst res);
  sc_keeps : forall kv, kv ∈ acc -> kv ∈ res;
  sc_sound : forall kv, kv ∈ res ->
             kv ∈ acc \/ exists cond, cond ∈ rows /\ hasSymbolAndInterval cond = true
                                      /\ kv = (indicatorKey cond, indicatorOf cond);
  sc_complete : forall cond, cond ∈ rows -> hasSymbolAndInterval cond = true ->
                indicatorKey cond ∈ map fst res
}.







(** A value that is not an object: [String] of it runs no method of the
    value. *)
Definition isPrimitive (v : value) : bool :=
  match v with
  | VArr _ | VObj _ => false
  | _ => true
  end.

(** ** Sample data *)

(** A small runtime to run the model on examples. It prints and reads
    numbers without a fractional part, written in decimal, and parses back
    the texts of a given list of documents; it is one instance of the
    interface, used for examples only. *)
Definition sample_numberToString (n : float) : string :=
  if PrimFloat.is_nan n then "NaN"
  else if PrimFloat.Leibniz.eqb n PrimFloat.infinity then "Infinity"
  else if PrimFloat.Leibniz.eqb n PrimFloat.neg_infinity then "-Infinity"
  else
    let (mantissa, exponent) := PrimFloat.frshiftexp (PrimFloat.abs n) in
    let z := Uint63Axioms.to_Z (PrimFloat.normfr_mantissa mantissa) in
    let e := (Uint63Axioms.to_Z exponent - FloatOps.shift - 53)%Z in
    let m := (if (0 <=? e)%Z then z * 2 ^ e else z / 2 ^ (- e))%Z in
    (if PrimFloat.ltb n PrimFloat.zero then "-" else "") +:+ pretty m.

Fixpoint digits_value (acc : Z) (s : string) : option Z :=
  match s with
  | EmptyString => Some acc
  | String c s' =>
      let n := nat_of_ascii c in
      if (Nat.leb 48 n && Nat.leb n 57)%bool
      then digits_value (10 * acc + Z.of_nat (n - 48))%Z s'
      else None
  end.

Definition sample_parseFloat (s : string) : float :=
  match s with
  | EmptyString => PrimFloat.nan
  | String c s' =>
      if Nat.eqb (nat_of_ascii c) 45 then
        match s' with
        | EmptyString => PrimFloat.nan
        | _ => match digits_value 0 s' with
               | Some z => PrimFloat.opp (PrimFloat.of_uint63 (Uint63Axioms.of_Z z))
               | None => PrimFloat.nan
               end
        end
      else
        match digits_value 0 s with
        | Some z => PrimFloat.of_uint63 (Uint63Axioms.of_Z z)
        | None => PrimFloat.nan
        end
  end.

Definition sample_base : JSRuntime :=
  {| numberToString := sample_numberToString;
     parseFloat := sample_parseFloat;
     JSON_parse := fun _ => None;
     toISOString := fun t => "t" +:+ pretty t |}.

(** The sample runtime reads back the texts of [docs]. *)
Definition sampleRuntime (docs : list value) : JSRuntime :=
  {| numberToString := sample_numberToString;
     parseFloat := sample_parseFloat;
     JSON_parse := fun s =>
       List.find (fun v => String.eqb (text_of (@JSON_stringify sample_base v)) s) docs;
     toISOString := fun t => "t" +:+ pretty t |}.

(** The same SMA request written with two key orders. *)
Definition smaRequest : value :=
  VObj [ ("indicatorType", VStr "SMA"); ("symbol", VStr "AAPL"); ("interval", VStr "daily");
         ("parameters", VObj [ ("time_period", VStr "20"); ("series_type", VStr "close") ]) ].

Definition smaRequestTopReordered : value :=
  VObj [ ("parameters", VObj [ ("time_period", VStr "20"); ("series_type", VStr "close") ]);
         ("interval", VStr "daily"); ("symbol", VStr "AAPL"); ("indicatorType", VStr "SMA") ].

Definition smaRequestReordered : value :=
  VObj [ ("symbol", VStr "AAPL"); ("indicatorType", VStr "SMA"); ("interval", VStr "daily");
         ("parameters", VObj [ ("series_type", VStr "close"); ("time_period", VStr "20") ]) ].

Definition smaRequestNullSource : value :=
  VObj [ ("indicatorType", VStr "SMA"); ("symbol", VStr "AAPL"); ("interval", VStr "daily");
         ("parameters", VObj [ ("time_period", VStr "20"); ("series_type", VStr "close") ]);
         ("dataSource", VNull) ].

Definition rateLimitNote : string :=
  "Our standard API call frequency is 5 calls per minute and 500 calls per day.".

(** An answer with its metadata and its series, that also carries a
    rate-limit note. *)
Definition notedResponse : value :=
  VObj [ ("Meta Data",
          VObj [ ("1: Symbol", VStr "AAPL"); ("3: Last Refreshed", VStr "2024-01-02") ]);
         ("Note", VStr rateLimitNote);
         ("Technical Analysis: SMA", VObj [ ("2024-01-02", VObj [ ("SMA", VStr "155") ]) ]) ].

(** An answer that is only the rate-limit note. *)
Definition rateLimitedResponse : value :=
  VObj [ ("Note", VStr rateLimitNote) ].

Definition emptyWorld : World :=
  {| redis := {| isReady := true; kv := ∅; streams := ∅ |};
     clock := 0; console := []; requests := [] |}.

Definition constantProvider (data : value) : Provider :=
  {| apikey := VStr "demo"; http_get := fun _ => Normal data |}.

Definition smaFetch : value :=
  VObj [ ("function", VStr "SMA"); ("indicatorType", VStr "SMA"); ("symbol", VStr "AAPL");
         ("interval", VStr "daily");
         ("parameters", VObj [ ("time_period", VStr "20"); ("series_type", VStr "close") ]) ].

Definition sampleSeries : value :=
  VObj [ ("2024-01-02", VObj [ ("SMA", VStr "155") ]);
         ("2024-01-01", VObj [ ("SMA", VStr "149") ]) ].

Definition sampleMetadata : value :=
  VObj [ ("1: Symbol", VStr "AAPL"); ("3: Last Refreshed", VStr "2024-01-02");
         ("alphaVantageLastRefreshed", VStr "2024-01-02") ].

Definition sampleEntry : value :=
  VObj [ ("data", sampleSeries); ("metadata", sampleMetadata); ("fetchedAt", VStr "t0") ].

Definition sampleRt : JSRuntime := sampleRuntime [ sampleEntry ].

(** The world after the sample series was cached for the SMA request. *)
Definition cachedWorld : World :=
  @setCachedIndicatorData sampleRt (@generateCacheKey sampleRt smaFetch)
    sampleSeries sampleMetadata 90000 emptyWorld.

Definition indicatorFor (symbol0 : string) : value :=
  VObj [ ("function", VStr "SMA"); ("indicatorType", VStr "SMA"); ("symbol", VStr symbol0);
         ("interval", VStr "daily");
         ("parameters", VObj [ ("time_period", VStr "20"); ("series_type", VStr "close") ]);
         ("dataSource", VNull); ("dataKey", VNull) ].

Definition indicatorA : value := indicatorFor "AAPL".
Definition indicatorB : value := indicatorFor "BABA".
Definition indicatorC : value := indicatorFor "CSCO".

Definition dailyPattern (indicatorParams : value) : option string := Some "5 0 * * *".

(** Two discovery ticks from the initial state: the scan is A, B, then B, C. *)
Definition afterTick1 : Scheduler :=
  @discoveryTick sample_base dailyPattern (Normal [indicatorA; indicatorB]) initialScheduler.

Definition afterTick2 : Scheduler :=
  @discoveryTick sample_base dailyPattern (Normal [indicatorB; indicatorC]) afterTick1.

Definition keyOf (indicatorParams : value) : string :=
  @generateCacheKey sample_base indicatorParams.

(** A strategy with one condition, SMA of AAPL above 150, and one action. *)
Definition smaParameters : value :=
  VObj [ ("time_period", VStr "20"); ("series_type", VStr "close") ].

Definition smaParametersReordered : value :=
  VObj [ ("series_type", VStr "close"); ("time_period", VStr "20") ].

Definition sampleCondition : Condition :=
  {| condition_id := "c1"; indicatorType := "SMA"; dataSource := None; dataKey := None;
     symbol := Some "AAPL"; interval := Some "daily"; parameters := smaParameters;
     operator := GREATER_THAN; targetValue := Some 150%float; targetIndicatorId := None |}.

Definition sampleAction : Action :=
  {| action_id := "a1"; actionType := NOTIFY;
     action_parameters := VObj [ ("message", VStr "SMA above 150") ]; action_order := 0 |}.

Definition sampleDb : Database :=
  {| strategies := [ {| strategy_id := "s1"; isActive := true |} ];
     strategyBlocks :=
       [ {| block_id := "b1"; strategyId := "s1"; conditionId := None; actionId := None;
            order := 0 |};
         {| block_id := "b2"; strategyId := "s1"; conditionId := Some "c1"; actionId := None;
            order := 1 |};
         {| block_id := "b3"; strategyId := "s1"; conditionId := None; actionId := Some "a1";
            order := 2 |} ];
     conditions := [ sampleCondition ];
     actions := [ sampleAction ] |}.

Definition updateWith (params : value) : value :=
  VObj [ ("cacheKey", VStr (keyOf smaFetch)); ("indicatorType", VStr "SMA");
         ("symbol", VStr "AAPL"); ("interval", VStr "daily"); ("parameters", params);
         ("fetchTime", VStr "t0") ].

Definition samplePayload : value := updateWith smaParameters.
Definition reorderedPayload : value := updateWith smaParametersReordered.

Definition conditionWith (op : Operator) (target : float) : Condition :=
  {| condition_id := "c1"; indicatorType := "SMA"; dataSource := None; dataKey := None;
     symbol := Some "AAPL"; interval := Some "daily"; parameters := smaParameters;
     operator := op; targetValue := Some target; targetIndicatorId := None |}.

(** An answer with its metadata and the sample series. *)
Definition smaResponse : value :=
  VObj [ ("Meta Data",
          VObj [ ("1: Symbol", VStr "AAPL"); ("3: Last Refreshed", VStr "2024-01-02") ]);
         ("Technical Analysis: SMA", sampleSeries) ].

(** A world whose store holds a text that is not JSON. *)
Definition brokenWorld : World :=
  {| redis := {| isReady := true; kv := {[ keyOf smaFetch := ("oops", 100%Z) ]};
                 streams := ∅ |};
     clock := 0; console := []; requests := [] |}.

(** A world whose Redis client is not ready. *)
Definition notReadyWorld : World :=
  {| redis := {| isReady := false; kv := ∅; streams := ∅ |};
     clock := 0; console := []; requests := [] |}.

(** A series with a single point. *)
Definition singlePointSeries : value :=
  VObj [ ("2024-01-02", VObj [ ("SMA", VStr "155") ]) ].

Definition singlePointEntry : value :=
  VObj [ ("data", singlePointSeries); ("metadata", sampleMetadata); ("fetchedAt", VStr "t0") ].

Definition singlePointRt : JSRuntime := sampleRuntime [ singlePointEntry ].

(** The world whose cache holds the single point under the key of the
    sample condition. *)
Definition singlePointWorld : World :=
  @setCachedIndicatorData singlePointRt
    (@generateCacheKey singlePointRt (conditionCacheKeyParams sampleCondition))
    singlePointSeries sampleMetadata 90000 emptyWorld.

(** The sample store with its strategy switched off. *)
Definition inactiveDb : Database :=
  {| strategies := [ {| strategy_id := "s1"; isActive := false |} ];
     strategyBlocks := strategyBlocks sampleDb;
     conditions := conditions sampleDb;
     actions := actions sampleDb |}.

(** A condition that compares with an indicator the store does not have. *)
Definition danglingCondition : Condition :=
  {| condition_id := "c2"; indicatorType := "SMA"; dataSource := None; dataKey := None;
     symbol := Some "AAPL"; interval := Some "daily"; parameters := smaParameters;
     operator := GREATER_THAN; targetValue := Some 150%float;
     targetIndicatorId := Some "c9" |}.

(** The runtime that reads back the text of the sample condition's
    indicator record and of the entry cached for it. *)
Definition pipelineRt : JSRuntime :=
  sampleRuntime [ indicatorOf sampleCondition; sampleEntry ].

(** The world after the scheduled fetch of the sample condition's
    indicator: the series is cached and the update event is on the stream. *)
Definition fetchedWorld : World :=
  snd (@getTechnicalIndicator pipelineRt (constantProvider smaResponse)
         (indicatorOf sampleCondition) true emptyWorld).

Definition newGroup : Group := {| delivered := 0; pending := [] |}.

(** A runtime that reads the text 20 back as the number. *)
Definition numberRt : JSRuntime := sampleRuntime [ VNum 20%float ].

(** A condition of the sample indicator with its own id. *)
Definition conditionNamed (id : string) (op : Operator) (target : float) : Condition :=
  {| condition_id := id; indicatorType := "SMA"; dataSource := None; dataKey := None;
     symbol := Some "AAPL"; interval := Some "daily"; parameters := smaParameters;
     operator := op; targetValue := Some target; targetIndicatorId := None |}.

Definition actionNamed (id : string) (type0 : ActionType) : Action :=
  {| action_id := id; actionType := type0;
     action_parameters := VObj [ ("message", VStr id) ]; action_order := 0 |}.

Definition blockOf (id strategy0 : string) (condition0 action0 : option string) (order0 : Z)
    : StrategyBlock :=
  {| block_id := id; strategyId := strategy0; conditionId := condition0; actionId := action0;
     order := order0 |}.

(** Three strategies on the sample indicator, whose latest value is 155.
    Strategy s1 needs SMA > 150 and SMA < 100: one of its conditions is not
    met. Strategy s2 needs SMA > 150 and SMA > 100 and links the action a2
    twice and the action a3 once. Strategy s3 needs SMA > 150 but is not
    active. *)
Definition richDb : Database :=
  {| strategies := [ {| strategy_id := "s1"; isActive := true |};
                     {| strategy_id := "s2"; isActive := true |};
                     {| strategy_id := "s3"; isActive := false |} ];
     strategyBlocks :=
       [ blockOf "b1" "s1" (Some "c1") None 0;
         blockOf "b2" "s1" (Some "c2") None 1;
         blockOf "b3" "s1" None (Some "a1") 2;
         blockOf "b4" "s2" (Some "c1") None 0;
         blockOf "b5" "s2" (Some "c3") None 1;
         blockOf "b6" "s2" None (Some "a3") 4;
         blockOf "b7" "s2" None (Some "a2") 2;
         blockOf "b8" "s2" None (Some "a2") 3;
         blockOf "b9" "s3" (Some "c1") None 0;
         blockOf "b10" "s3" None (Some "a1") 1 ];
     conditions := [ conditionNamed "c1" GREATER_THAN 150%float;
                     conditionNamed "c2" LESS_THAN 100%float;
                     conditionNamed "c3" GREATER_THAN 100%float ];
     actions := [ actionNamed "a1" NOTIFY; actionNamed "a2" BUY; actionNamed "a3" NOTIFY ] |}.


(** The sample condition read from another data source, and a store where
    both conditions belong to the active strategy. *)
Definition otherSourceCondition : Condition :=
  {| condition_id := "c2"; indicatorType := "SMA"; dataSource := Some "other";
     dataKey := None; symbol := Some "AAPL"; interval := Some "daily";
     parameters := smaParameters; operator := GREATER_THAN; targetValue := Some 150%float;
     targetIndicatorId := None |}.

Definition twoSourcesDb : Database :=
  {| strategies := [ {| strategy_id := "s1"; isActive := true |} ];
     strategyBlocks :=
       [ blockOf "b1" "s1" (Some "c1") None 0; blockOf "b2" "s1" (Some "c2") None 1 ];
     conditions := [ sampleCondition; otherSourceCondition ];
     actions := [] |}.

(** * Properties *)

(** ** Fingerprints *)

Section FingerprintFacts.
Context {rt : JSRuntime}.

Lemma assoc_Some_In k v (o : object) : assoc k o = Some v -> In (k, v) o.
Proof.
  induction o as [|[k' v'] o IH]; simpl; [discriminate|].
  destruct (String.eqb k k') eqn:E.
  - apply String.eqb_eq in E. intros [= ->]. left. congruence.
  - intros H. right. auto.
Qed.

Lemma assoc_None_notin k (o : object) : assoc k o = None -> ~ In k (map fst o).
Proof.
  induction o as [|[k' v'] o IH]; simpl; [tauto|].
  destruct (String.eqb k k') eqn:E; [discriminate|].
  apply String.eqb_neq in E. intros H [Heq|Hin]; [congruence|]. now apply IH.
Qed.

Lemma In_assoc k v (o : object) : NoDup (map fst o) -> In (k, v) o -> assoc k o = Some v.
Proof.
  induction o as [|[k' v'] o IH]; simpl; [tauto|].
  intros Hnd [Heq|Hin].
  - injection Heq as -> ->. now rewrite String.eqb_refl.
  - apply NoDup_cons in Hnd as [Hnotin Hnd].
    destruct (String.eqb k k') eqn:E.
    + apply String.eqb_eq in E. subst k'. exfalso. apply Hnotin.
      apply list_elem_of_In. change k with (fst (k, v)). now apply in_map.
    + auto.
Qed.

(** Reading a property does not depend on the order of the properties. *)
Lemma assoc_Permutation k (o1 o2 : object) :
  NoDup (map fst o1) -> Permutation o1 o2 -> assoc k o1 = assoc k o2.
Proof.
  intros Hnd Hperm.
  assert (Hnd2 : NoDup (map fst o2)).
  { rewrite <- (Permutation_map fst Hperm). exact Hnd. }
  destruct (assoc k o1) as [v|] eqn:E1.
  - symmetry. apply In_assoc; [exact Hnd2|].
    eapply Permutation_in; [exact Hperm|]. now apply assoc_Some_In.
  - destruct (assoc k o2) as [v|] eqn:E2; [|reflexivity].
    exfalso. apply assoc_None_notin in E1. apply E1.
    apply assoc_Some_In in E2.
    change k with (fst (k, v)). apply in_map.
    eapply Permutation_in; [symmetry; exact Hperm|exact E2].
Qed.

(** The fingerprint reads its input through the five components only. *)
Lemma generateCacheKey_ext (p q : value) :
  (forall k, In k sortedFieldNames -> getProp p k = getProp q k) ->
  generateCacheKey p = generateCacheKey q.
Proof.
  intros H. unfold generateCacheKey, keyParams_of.
  rewrite !H; [reflexivity| | | | |]; unfold sortedFieldNames; simpl; tauto.
Qed.

Lemma getProp_keyParams (p : value) (k : string) :
  In k sortedFieldNames -> getProp (keyParams_of p) k = getProp p k.
Proof.
  unfold sortedFieldNames. simpl.
  intros [<-|[<-|[<-|[<-|[<-|[]]]]]]; reflexivity.
Qed.

Lemma keyPart_present (p : value) (k : string) :
  In k sortedFieldNames ->
  keyPart (keyParams_of p) k = if present p k then Some (partText p k) else None.
Proof.
  intros Hk. unfold keyPart, present, partText.
  rewrite (getProp_keyParams p k Hk).
  destruct (nullish (getProp p k)); reflexivity.
Qed.

Lemma sorted_keys_of_keyParams (p : value) :
  sort_strings (Object_keys (keyParams_of p)) = sortedFieldNames.
Proof. reflexivity. Qed.

Lemma omap_keyPart (p : value) (l : list string) :
  (forall k, In k l -> In k sortedFieldNames) ->
  omap (fun part => part) (map (keyPart (keyParams_of p)) l)
  = map (partText p) (List.filter (present p) l).
Proof.
  induction l as [|k l IH]; intros Hl; [reflexivity|].
  simpl. rewrite keyPart_present by (apply Hl; now left).
  destruct (present p k); simpl; f_equal; apply IH; intros k' Hk'; apply Hl; now right.
Qed.

(** The key is made of the components that are neither null nor undefined,
    in the sorted order of their names. *)
Lemma generateCacheKey_parts (p : value) :
  generateCacheKey p =
  "indicator:" +:+ String.concat "|" (map (partText p) (List.filter (present p) sortedFieldNames)).
Proof.
  unfold generateCacheKey. cbv zeta.
  rewrite sorted_keys_of_keyParams, omap_keyPart; auto.
Qed.

End FingerprintFacts.

Lemma parts_agree {rt : JSRuntime} (p q : value) (l : list string) :
  (forall k, In k l ->
     getProp p k = getProp q k \/ (nullish (getProp p k) = true /\ nullish (getProp q k) = true)) ->
  map (partText p) (List.filter (present p) l) = map (partText q) (List.filter (present q) l).
Proof.
  induction l as [|k l IH]; intros H; [reflexivity|].
  assert (IH' := IH (fun k' Hk' => H k' (or_intror Hk'))).
  simpl.
  destruct (H k (or_introl eq_refl)) as [Heq|[Hp Hq]].
  - assert (Hpq : present q k = present p k) by (unfold present; now rewrite Heq).
    rewrite Hpq. destruct (present p k); simpl; [|exact IH'].
    f_equal; [|exact IH']. unfold partText. now rewrite Heq.
  - assert (Hp' : present p k = false) by (unfold present; now rewrite Hp).
    assert (Hq' : present q k = false) by (unfold present; now rewrite Hq).
    rewrite Hp', Hq'. exact IH'.
Qed.


(** C1, as the code has it. The fingerprint does not depend on the order of
    the top-level keys of the parameter record, nor on which object carries
    them; the nested parameters object is written in its own key order. *)
Theorem generateCacheKey_top_level_key_order (rt : JSRuntime) (ps qs : object) :
  NoDup (map fst ps) -> Permutation ps qs ->
  generateCacheKey (VObj ps) = generateCacheKey (VObj qs).
Proof.
  intros Hnd Hperm. apply generateCacheKey_ext. intros k _.
  unfold getProp. simpl. now rewrite (assoc_Permutation k ps qs Hnd Hperm).
Qed.

Lemma generateCacheKey_top_level_key_order_witness :
  @generateCacheKey sample_base smaRequest = @generateCacheKey sample_base smaRequestTopReordered.
Proof.
  apply generateCacheKey_top_level_key_order.
  - apply (bool_decide_unpack _). vm_compute. exact I.
  - apply Permutation_rev.
Defined.

(** C1, as stated, fails: two well-formed records that are equal up to key
    order, the nested parameters object included, get different
    fingerprints. *)
Lemma generateCacheKey_nested_key_order_counterexample :
  ~ (forall (rt : JSRuntime) (p q : value),
       wfValue p = true -> wfValue q = true -> structEqb p q = true ->
       generateCacheKey p = generateCacheKey q).
Proof.
  intros H.
  specialize (H sample_base smaRequest smaRequestReordered eq_refl eq_refl eq_refl).
  vm_compute in H. discriminate H.
Qed.

(** C10. A component that is null or undefined leaves no trace in the key:
    the key lists the other components only, and two inputs that differ only
    in such components get the same fingerprint. *)
Theorem generateCacheKey_omits_nullish (rt : JSRuntime) (p q : value) :
  agreeUpToNullish p q ->
  generateCacheKey p =
    "indicator:" +:+ String.concat "|" (map (partText p) (List.filter (present p) sortedFieldNames))
  /\ generateCacheKey p = generateCacheKey q.
Proof.
  intros H. split; [apply generateCacheKey_parts|].
  rewrite !generateCacheKey_parts. f_equal. f_equal. apply parts_agree. exact H.
Qed.

Lemma generateCacheKey_omits_nullish_witness :
  @generateCacheKey sample_base smaRequestNullSource = @generateCacheKey sample_base smaRequest.
Proof.
  apply (generateCacheKey_omits_nullish sample_base smaRequestNullSource smaRequest).
  intros k Hk. unfold sortedFieldNames in Hk. simpl in Hk.
  destruct Hk as [<-|[<-|[<-|[<-|[<-|[]]]]]]; vm_compute; auto.
Defined.

(** ** The freshness cache and the fetcher *)

Section FetcherFacts.
Context {rt : JSRuntime}.

Lemma console_log_frame l m w :
  redis (console_log l m w) = redis w /\ clock (console_log l m w) = clock w
  /\ requests (console_log l m w) = requests w.
Proof. now unfold console_log. Qed.

Lemma redis_get_console l m w key : redis_get (console_log l m w) key = redis_get w key.
Proof. reflexivity. Qed.

(** Reading the cache changes the console only. *)
Lemma getCachedIndicatorEntry_frame key w :
  redis (snd (getCachedIndicatorEntry key w)) = redis w
  /\ clock (snd (getCachedIndicatorEntry key w)) = clock w
  /\ requests (snd (getCachedIndicatorEntry key w)) = requests w.
Proof.
  unfold getCachedIndicatorEntry. rewrite redis_get_console.
  destruct (redis_get w key) as [cached|]; [|now simpl].
  destruct (String.eqb cached ""); [now simpl|].
  destruct (JSON_parse cached); now simpl.
Qed.


Lemma getCachedIndicatorEntry_fresh key w entry :
  freshEntry w key entry -> fst (getCachedIndicatorEntry key w) = entry.
Proof.
  intros (text & expires & Hkv & Hclock & Htext & Hparse & _).
  unfold getCachedIndicatorEntry. rewrite redis_get_console.
  unfold redis_get. rewrite Hkv.
  apply Z.ltb_lt in Hclock. rewrite Hclock.
  apply String.eqb_neq in Htext. rewrite Htext, Hparse. reflexivity.
Qed.

Variable provider : Provider.

(** C7. With the forced-refresh flag unset and an unexpired entry cached
    under the fingerprint of the request, the fetcher returns the data of
    that entry, sends nothing to the provider and leaves the store and the
    streams of Redis as they were. *)
Theorem cache_hit_returns_entry_without_fetch (params entry : value) (w : World) :
  freshEntry w (generateCacheKey params) entry ->
  fst (getTechnicalIndicator provider params false w) = getProp entry "data"
  /\ requests (snd (getTechnicalIndicator provider params false w)) = requests w
  /\ kv (redis (snd (getTechnicalIndicator provider params false w))) = kv (redis w)
  /\ streams (redis (snd (getTechnicalIndicator provider params false w))) = streams (redis w).
Proof.
  intros Hfresh.
  pose proof (getCachedIndicatorEntry_fresh _ _ _ Hfresh) as Hentry.
  destruct Hfresh as (_ & _ & _ & _ & _ & _ & Htruthy).
  pose proof (getCachedIndicatorEntry_frame (generateCacheKey params) w) as (Hr & _ & Hq).
  unfold getTechnicalIndicator. simpl negb. cbv iota.
  destruct (getCachedIndicatorEntry (generateCacheKey params) w) as [cachedEntry w1].
  simpl in *. subst cachedEntry. rewrite Htruthy. simpl.
  now rewrite Hr, Hq.
Qed.

End FetcherFacts.

Lemma cache_hit_returns_entry_without_fetch_witness :
  fst (@getTechnicalIndicator sampleRt (constantProvider VNull) smaFetch false cachedWorld)
  = sampleSeries.
Proof.
  refine (proj1 (@cache_hit_returns_entry_without_fetch sampleRt (constantProvider VNull)
                   smaFetch sampleEntry cachedWorld _)).
  exists (text_of (@JSON_stringify sampleRt sampleEntry)), 90000%Z.
  repeat split; try (vm_compute; reflexivity).
  vm_compute. discriminate.
Defined.

Section SoftFailure.
Context {rt : JSRuntime}.
Variable provider : Provider.

Lemma missing_metadata_is_invalid (data : value) :
  truthy (getProp data "Meta Data") = false -> invalidResponse data = true.
Proof.
  intros H. unfold invalidResponse. rewrite H. simpl. now rewrite !orb_true_r.
Qed.

(** A rejected answer makes the try block throw before the cache write. *)
Lemma fetchFresh_rejected (params data : value) (cacheKey : string) (w : World) :
  http_get provider (apiQuery provider params) = Normal data ->
  invalidResponse data = true \/ findIndicatorData data = Normal None
    \/ (exists m, findIndicatorData data = Throw m) ->
  exists m w', fetchFresh provider params cacheKey w = (Throw m, w')
               /\ redis w' = redis w.
Proof.
  intros Hhttp Hrej. unfold fetchFresh. cbv zeta. rewrite Hhttp.
  destruct (invalidResponse data) eqn:Hinv.
  - destruct (String.eqb (typeof data) "object" && negb (nullish data))%bool.
    + destruct (optional_includes _ _) as [hit|m].
      * destruct (truthy hit); eexists _, _; split; reflexivity.
      * eexists _, _; split; reflexivity.
    + eexists _, _; split; reflexivity.
  - destruct Hrej as [Hrej|[Hrej|[m Hrej]]]; [discriminate| |]; rewrite Hrej;
      eexists _, _; split; reflexivity.
Qed.

(** C8, as the code has it. An answer without its metadata block, or
    rejected by the validation of line 66, or without an extractable data
    block (none found, or the search of line 77 throws), ends the fetch as a
    soft failure: the caller gets null, nothing is
    written to the store or to the streams, and the last console line is the
    error of the catch block. *)
Theorem rejected_response_is_soft_failure (params data : value) (forceRefresh : bool)
    (w : World) :
  forceRefresh = true
    \/ truthy (fst (getCachedIndicatorEntry (generateCacheKey params) w)) = false ->
  http_get provider (apiQuery provider params) = Normal data ->
  truthy (getProp data "Meta Data") = false \/ invalidResponse data = true
    \/ findIndicatorData data = Normal None
    \/ (exists m, findIndicatorData data = Throw m) ->
  fst (getTechnicalIndicator provider params forceRefresh w) = VNull
  /\ kv (redis (snd (getTechnicalIndicator provider params forceRefresh w))) = kv (redis w)
  /\ streams (redis (snd (getTechnicalIndicator provider params forceRefresh w)))
     = streams (redis w)
  /\ last (console (snd (getTechnicalIndicator provider params forceRefresh w)))
     = Some {| lvl := Error;
               msg := "Error fetching Technical Indicator data for key "
                      +:+ generateCacheKey params +:+ ":" |}.
Proof.
  intros Hpath Hhttp Hrej.
  assert (Hrej' : invalidResponse data = true \/ findIndicatorData data = Normal None
                  \/ (exists m, findIndicatorData data = Throw m)).
  { destruct Hrej as [H|[H|H]]; auto using missing_metadata_is_invalid. }
  assert (Hfetch : forall w0, redis w0 = redis w ->
            exists w', (let (r, w1) := fetchFresh provider params (generateCacheKey params) w0 in
                        match r with
                        | Normal d => (d, w1)
                        | Throw _ =>
                            (VNull, console_log Error
                                      ("Error fetching Technical Indicator data for key "
                                       +:+ generateCacheKey params +:+ ":") w1)
                        end)
                       = (VNull, console_log Error
                                   ("Error fetching Technical Indicator data for key "
                                    +:+ generateCacheKey params +:+ ":") w')
                       /\ redis w' = redis w).
  { intros w0 Hw0.
    destruct (fetchFresh_rejected params data (generateCacheKey params) w0 Hhttp Hrej')
      as (m & w' & -> & Hw'). exists w'. split; [reflexivity|congruence]. }
  unfold getTechnicalIndicator. cbv zeta.
  destruct forceRefresh; simpl negb; cbv iota.
  - destruct (Hfetch w eq_refl) as (w' & -> & Hw'). simpl.
    rewrite Hw'. repeat split; try reflexivity. apply last_snoc.
  - destruct Hpath as [Hpath|Hpath]; [discriminate|].
    pose proof (getCachedIndicatorEntry_frame (generateCacheKey params) w) as (Hr & _ & _).
    destruct (getCachedIndicatorEntry (generateCacheKey params) w) as [cachedEntry w1].
    simpl in Hpath, Hr. rewrite Hpath.
    destruct (Hfetch w1 Hr) as (w' & -> & Hw'). simpl.
    rewrite Hw'. repeat split; try reflexivity. apply last_snoc.
Qed.

(** A request that fails on the network is a soft failure as well. *)
Lemma network_error_is_soft_failure (params : value) (m : string) (w : World) :
  http_get provider (apiQuery provider params) = Throw m ->
  fst (getTechnicalIndicator provider params true w) = VNull
  /\ redis (snd (getTechnicalIndicator provider params true w)) = redis w.
Proof.
  intros Hhttp. unfold getTechnicalIndicator, fetchFresh. cbv zeta. simpl negb. cbv iota.
  rewrite Hhttp. split; reflexivity.
Qed.

End SoftFailure.

Lemma rejected_response_is_soft_failure_witness :
  fst (@getTechnicalIndicator sampleRt (constantProvider rateLimitedResponse) smaFetch true
         emptyWorld) = VNull.
Proof.
  refine (proj1 (@rejected_response_is_soft_failure sampleRt
                   (constantProvider rateLimitedResponse) smaFetch rateLimitedResponse true
                   emptyWorld _ _ _)).
  - left. reflexivity.
  - reflexivity.
  - left. vm_compute. reflexivity.
Defined.

(** C8, as stated, fails: an answer that has its metadata and its series and
    also carries the rate-limit note is cached and published. *)
Lemma rate_limit_note_counterexample :
  ~ (forall (rt : JSRuntime) (provider : Provider) (params data : value) (w : World),
       http_get provider (apiQuery provider params) = Normal data ->
       rateLimitSignal data = true ->
       kv (redis (snd (getTechnicalIndicator provider params true w))) = kv (redis w)
       /\ streams (redis (snd (getTechnicalIndicator provider params true w)))
          = streams (redis w)).
Proof.
  intros H.
  destruct (H sampleRt (constantProvider notedResponse) smaFetch notedResponse emptyWorld
              eq_refl eq_refl) as [Hkv _].
  apply (f_equal (fun m => m !! @generateCacheKey sampleRt smaFetch)) in Hkv.
  vm_compute in Hkv. discriminate Hkv.
Qed.

(** ** The discovery scheduler *)

Section DiscoveryFacts.
Context {rt : JSRuntime}.
Variable cronPatternFor : value -> option string.

Lemma initialScheduler_wf : schedulerWf initialScheduler.
Proof.
  split; simpl.
  - intros k t H. now rewrite lookup_empty in H.
  - intros k1 k2 t H. now rewrite lookup_empty in H.
  - intros t [x H]. now rewrite lookup_empty in H.
Qed.

Lemma stopTask_idemp (t : Task) : stopTask (stopTask t) = stopTask t.
Proof. reflexivity. Qed.

Lemma scheduled_nil K s : schedulerWf s -> scheduled K s [] K s.
Proof.
  intros Hwf. split; auto.
  - intros k. split; [auto|]. intros [H|H]; [exact H|]. now apply elem_of_nil in H.
  - intros k H. now apply elem_of_nil in H.
Qed.

Lemma scheduleOne_scheduled K s ind :
  schedulerWf s -> is_Some (cronPatternFor ind) ->
  scheduled K s [generateCacheKey ind]
    (fst (scheduleOne cronPatternFor (K, s) ind)) (snd (scheduleOne cronPatternFor (K, s) ind)).
Proof.
  intros Hwf [p Hp]. unfold scheduleOne.
  destruct (scheduledJobs s !! generateCacheKey ind) as [t0|] eqn:Hjob; simpl.
  - split; auto.
    + intros k. rewrite elem_of_union, elem_of_singleton, list_elem_of_singleton. tauto.
    + intros k Hk. apply list_elem_of_singleton in Hk. subst k. eauto.
  - unfold scheduleIndicatorFetch. rewrite Hp. simpl.
    destruct Hwf as [Hjt Hinj Hbound].
    assert (Hfresh : tasks s !! nextTask s = None).
    { destruct (tasks s !! nextTask s) eqn:E; [|reflexivity].
      assert (nextTask s < nextTask s) by (apply Hbound; eauto). lia. }
    split; simpl.
    + intros k. rewrite elem_of_union, elem_of_singleton, list_elem_of_singleton. tauto.
    + split; simpl.
      * intros k t. rewrite lookup_insert. case_decide as Hk.
        -- intros [= <-]. rewrite lookup_insert_eq. eauto.
        -- intros Hkt. destruct (Hjt k t Hkt) as [x Hx].
           rewrite lookup_insert_ne; [eauto|]. intros <-. congruence.
      * intros k1 k2 t. rewrite !lookup_insert.
        repeat case_decide; subst; try congruence.
        -- intros [= <-] H2. apply Hjt in H2 as [x Hx]. congruence.
        -- intros H1 [= <-]. apply Hjt in H1 as [x Hx]. congruence.
        -- apply Hinj.
      * intros t. rewrite lookup_insert. case_decide; [subst; lia|].
        intros Ht. apply Hbound in Ht. lia.
    + lia.
    + intros k t Hkt. rewrite lookup_insert_ne; [exact Hkt|]. intros <-. congruence.
    + intros k Hk. apply list_elem_of_singleton in Hk. subst k.
      rewrite lookup_insert_eq. eauto.
    + intros k t. rewrite lookup_insert. case_decide as Hk.
      * intros [= <-]. subst k. right. repeat split; auto.
        -- apply list_elem_of_singleton. reflexivity.
        -- rewrite lookup_insert_eq. eauto.
      * auto.
    + intros t Ht. rewrite lookup_insert_ne; [reflexivity|lia].
Qed.

Lemma scheduled_trans K s keys1 K1 s1 keys2 K2 s2 :
  scheduled K s keys1 K1 s1 -> scheduled K1 s1 keys2 K2 s2 ->
  scheduled K s (keys1 ++ keys2) K2 s2.
Proof.
  intros H1 H2. split.
  - intros k. rewrite (sch_keys _ _ _ _ _ H2), (sch_keys _ _ _ _ _ H1), elem_of_app. tauto.
  - exact (sch_wf _ _ _ _ _ H2).
  - pose proof (sch_next _ _ _ _ _ H1). pose proof (sch_next _ _ _ _ _ H2). lia.
  - intros k t Hk. apply (sch_old _ _ _ _ _ H2), (sch_old _ _ _ _ _ H1), Hk.
  - intros k Hk. apply elem_of_app in Hk as [Hk|Hk].
    + destruct (sch_all _ _ _ _ _ H1 k Hk) as [t Ht].
      exists t. apply (sch_old _ _ _ _ _ H2), Ht.
    + apply (sch_all _ _ _ _ _ H2 k Hk).
  - intros k t Hk. pose proof (sch_next _ _ _ _ _ H1) as Hn1.
    destruct (sch_new _ _ _ _ _ H2 k t Hk) as [Hmid|(Hnone & Hin & Hge & task & Htask & Hrun)].
    + destruct (sch_new _ _ _ _ _ H1 k t Hmid) as [Hold|(Hnone & Hin & Hge & task & Htask & Hrun)].
      * now left.
      * right. repeat split; auto.
        -- apply elem_of_app. now left.
        -- exists task. split; [|exact Hrun].
           rewrite (sch_tasks _ _ _ _ _ H2); [exact Htask|].
           apply (wf_task_bound _ (sch_wf _ _ _ _ _ H1)). eauto.
    + right. repeat split.
      * destruct (scheduledJobs s !! k) as [t0|] eqn:E; [|reflexivity].
        apply (sch_old _ _ _ _ _ H1) in E. congruence.
      * apply elem_of_app. now right.
      * lia.
      * eauto.
  - intros t Ht. pose proof (sch_next _ _ _ _ _ H1) as Hn1.
    rewrite (sch_tasks _ _ _ _ _ H2) by lia. apply (sch_tasks _ _ _ _ _ H1), Ht.
Qed.

Lemma scheduleAll_scheduled inds : forall K s,
  schedulerWf s -> (forall ind, ind ∈ inds -> is_Some (cronPatternFor ind)) ->
  scheduled K s (map generateCacheKey inds)
    (fst (fold_left (scheduleOne cronPatternFor) inds (K, s)))
    (snd (fold_left (scheduleOne cronPatternFor) inds (K, s))).
Proof.
  induction inds as [|ind inds IH]; intros K s Hwf Hsch.
  - simpl. now apply scheduled_nil.
  - pose proof (scheduleOne_scheduled K s ind Hwf (Hsch ind (list_elem_of_here _ _))) as H1.
    change (fold_left (scheduleOne cronPatternFor) (ind :: inds) (K, s))
      with (fold_left (scheduleOne cronPatternFor) inds (scheduleOne cronPatternFor (K, s) ind)).
    destruct (scheduleOne cronPatternFor (K, s) ind) as [K1 s1]. simpl in H1.
    change (map generateCacheKey (ind :: inds))
      with ([generateCacheKey ind] ++ map generateCacheKey inds).
    eapply scheduled_trans; [exact H1|].
    apply IH; [exact (sch_wf _ _ _ _ _ H1)|].
    intros i Hi. apply Hsch. now apply list_elem_of_further.
Qed.

End DiscoveryFacts.

Section PruneFacts.
Context {rt : JSRuntime}.
Variable cronPatternFor : value -> option string.

Lemma prune_pruned K s1 (m : gmap string nat) :
  pruned K s1 (map_fold (pruneOne K) s1 m) m.
Proof.
  apply (map_fold_weak_ind (pruned K s1)).
  - split; auto.
    + intros k _ [x Hx]. now rewrite lookup_empty in Hx.
    + intros k t _ Hx. now rewrite lookup_empty in Hx.
  - intros i x m0 r Hi [Hgone Hkept Hstopped Huntouched Honly Hnext].
    unfold pruneOne. case_decide as HiK.
    + split; auto.
      * intros k Hk. rewrite lookup_insert. case_decide; [subst; contradiction|]. now apply Hgone.
      * intros k Hk. apply Hkept. destruct Hk as [Hk|Hk]; [now left|].
        rewrite lookup_insert in Hk. case_decide; [discriminate|now right].
      * intros k t Hk. rewrite lookup_insert. case_decide; [subst; contradiction|].
        now apply Hstopped.
      * intros t Ht. apply Huntouched. intros k Hk. apply Ht.
        rewrite lookup_insert_ne; [exact Hk|]. intros <-. congruence.
    + split; simpl; auto.
      * intros k Hk. rewrite lookup_insert. case_decide.
        -- subst. intros _. apply lookup_delete_eq.
        -- intros Hm. rewrite lookup_delete_ne by assumption. now apply Hgone.
      * intros k Hk.
        assert (i <> k).
        { intros <-. destruct Hk as [Hk|Hk]; [contradiction|].
          now rewrite lookup_insert_eq in Hk. }
        rewrite lookup_delete_ne by assumption. apply Hkept.
        destruct Hk as [Hk|Hk]; [now left|]. right. now rewrite lookup_insert_ne in Hk.
      * intros k t Hk. rewrite lookup_insert. case_decide.
        -- intros [= <-]. rewrite lookup_alter_eq. apply Honly.
        -- intros Hm. destruct (decide (x = t)) as [<-|Hxt].
           ++ rewrite lookup_alter_eq. apply Honly.
           ++ rewrite lookup_alter_ne by assumption. now apply (Hstopped k).
      * intros t Ht.
        assert (x <> t).
        { intros <-. apply HiK, Ht. apply lookup_insert_eq. }
        rewrite lookup_alter_ne by assumption. apply Huntouched.
        intros k Hk. apply Ht. rewrite lookup_insert_ne; [exact Hk|]. intros <-. congruence.
      * intros t. destruct (decide (x = t)) as [<-|Hxt].
        -- rewrite lookup_alter_eq, <- Honly.
           destruct (tasks r !! x); reflexivity.
        -- rewrite lookup_alter_ne by assumption. apply Honly.
Qed.

Lemma fmap_stop_is_Some (a b : option Task) :
  stopTask <$> a = stopTask <$> b -> is_Some a -> is_Some b.
Proof. destruct a, b; simpl; intros H [x Hx]; try discriminate; eauto. Qed.

(** Pruning keeps the invariant of the scheduler. *)
Lemma prune_wf (K : gset string) (st1 : Scheduler) :
  schedulerWf st1 -> schedulerWf (map_fold (pruneOne K) st1 (scheduledJobs st1)).
Proof.
  intros [Hjt Hinj Hbound].
  pose proof (prune_pruned K st1 (scheduledJobs st1)) as H2.
  set (st2 := map_fold (pruneOne K) st1 (scheduledJobs st1)) in *.
  assert (Hsub : forall k t, scheduledJobs st2 !! k = Some t -> scheduledJobs st1 !! k = Some t).
  { intros k t Hk. destruct (decide (k ∈ K)) as [HK|HK].
    - now rewrite <- (pr_kept _ _ _ _ H2 k (or_introl HK)).
    - destruct (scheduledJobs st1 !! k) as [t1|] eqn:E.
      + rewrite (pr_gone _ _ _ _ H2 k HK) in Hk; [discriminate|]. rewrite E. eauto.
      + rewrite (pr_kept _ _ _ _ H2 k (or_intror E)) in Hk. congruence. }
  split.
  - intros k t Hk. apply Hsub, Hjt in Hk.
    eapply fmap_stop_is_Some; [|exact Hk]. symmetry. apply (pr_only_stops _ _ _ _ H2).
  - intros k1 k2 t Hk1 Hk2. eapply Hinj; eauto.
  - intros t Ht. rewrite (pr_next _ _ _ _ H2). apply Hbound.
    eapply fmap_stop_is_Some; [|exact Ht]. apply (pr_only_stops _ _ _ _ H2).
Qed.

Lemma scheduleOne_wf (K : gset string) (s : Scheduler) (ind : value) :
  schedulerWf s -> schedulerWf (snd (scheduleOne cronPatternFor (K, s) ind)).
Proof.
  intros Hwf. destruct (cronPatternFor ind) as [p|] eqn:Hp.
  - refine (sch_wf _ _ _ _ _ (scheduleOne_scheduled cronPatternFor K s ind Hwf _)).
    rewrite Hp. eauto.
  - unfold scheduleOne, scheduleIndicatorFetch. rewrite Hp.
    destruct (scheduledJobs s !! generateCacheKey ind); exact Hwf.
Qed.

Lemma scheduleAll_wf (inds : list value) : forall K s,
  schedulerWf s -> schedulerWf (snd (fold_left (scheduleOne cronPatternFor) inds (K, s))).
Proof.
  induction inds as [|ind inds IH]; intros K s Hwf; [exact Hwf|].
  change (fold_left (scheduleOne cronPatternFor) (ind :: inds) (K, s))
    with (fold_left (scheduleOne cronPatternFor) inds (scheduleOne cronPatternFor (K, s) ind)).
  pose proof (scheduleOne_wf K s ind Hwf) as H1.
  destruct (scheduleOne cronPatternFor (K, s) ind) as [K1 s1]. now apply IH.
Qed.

(** The invariant of the scheduler is kept by a discovery tick. *)
Lemma discoveryTick_wf (scan : outcome (list value)) (st : Scheduler) :
  schedulerWf st -> schedulerWf (discoveryTick cronPatternFor scan st).
Proof.
  intros Hwf. destruct scan as [inds|m]; [|exact Hwf]. unfold discoveryTick.
  pose proof (scheduleAll_wf inds ∅ st Hwf) as H1.
  destruct (fold_left (scheduleOne cronPatternFor) inds (∅, st)) as [K1 st1].
  now apply prune_wf.
Qed.

(** C9. A discovery tick updates the map of jobs by difference with the
    scan: a fingerprint of the scan that had no job gets a new, running task;
    a job whose fingerprint is not in the scan is removed and its task
    stopped; a job whose fingerprint is in the scan keeps the very same task
    object, in the state it was in. *)
Theorem discoveryTick_updates_by_diff (inds : list value) (st : Scheduler) (k : string) :
  schedulerWf st -> (forall ind, ind ∈ inds -> is_Some (cronPatternFor ind)) ->
  let st' := discoveryTick cronPatternFor (Normal inds) st in
  (k ∈ map generateCacheKey inds -> scheduledJobs st !! k = None ->
     exists t task, scheduledJobs st' !! k = Some t /\ tasks st !! t = None
                    /\ tasks st' !! t = Some task /\ running task = true)
  /\ (forall t, scheduledJobs st !! k = Some t -> k ∉ map generateCacheKey inds ->
        scheduledJobs st' !! k = None
        /\ exists task, tasks st !! t = Some task /\ tasks st' !! t = Some (stopTask task))
  /\ (forall t, scheduledJobs st !! k = Some t -> k ∈ map generateCacheKey inds ->
        scheduledJobs st' !! k = Some t /\ tasks st' !! t = tasks st !! t)
  /\ (k ∉ map generateCacheKey inds -> scheduledJobs st !! k = None ->
        scheduledJobs st' !! k = None).
Proof.
  intros Hwf Hsch st'. subst st'. unfold discoveryTick.
  pose proof (scheduleAll_scheduled cronPatternFor inds ∅ st Hwf Hsch) as H1.
  destruct (fold_left (scheduleOne cronPatternFor) inds (∅, st)) as [K1 st1]. simpl in H1.
  pose proof (prune_pruned K1 st1 (scheduledJobs st1)) as H2.
  set (st2 := map_fold (pruneOne K1) st1 (scheduledJobs st1)) in *.
  assert (HK : forall k, k ∈ K1 <-> k ∈ map generateCacheKey inds).
  { intros k0. rewrite (sch_keys _ _ _ _ _ H1). split; [|now right].
    intros [H|H]; [|exact H]. now apply not_elem_of_empty in H. }
  pose proof (sch_wf _ _ _ _ _ H1) as Hwf1.
  assert (Hown : forall t, scheduledJobs st1 !! k = Some t ->
                   forall k', scheduledJobs st1 !! k' = Some t -> k' = k).
  { intros t Ht k' Hk'. exact (wf_job_inj _ Hwf1 _ _ _ Hk' Ht). }
  assert (Hlow : forall t, scheduledJobs st !! k = Some t -> tasks st1 !! t = tasks st !! t).
  { intros t Ht. apply (sch_tasks _ _ _ _ _ H1), (wf_task_bound _ Hwf), (wf_job_task _ Hwf k t Ht). }
  split; [|split; [|split]].
  - intros Hin Hnone.
    destruct (sch_all _ _ _ _ _ H1 k Hin) as [t Ht].
    destruct (sch_new _ _ _ _ _ H1 k t Ht) as [Hold|(_ & _ & Hge & task & Htask & Hrun)];
      [congruence|].
    exists t, task. split; [|split; [|split]].
    + rewrite (pr_kept _ _ _ _ H2); [exact Ht|]. left. now apply HK.
    + destruct (tasks st !! t) eqn:E; [|reflexivity].
      assert (t < nextTask st) by (apply (wf_task_bound _ Hwf); eauto). lia.
    + rewrite (pr_untouched _ _ _ _ H2); [exact Htask|].
      intros k' Hk'. rewrite (Hown t Ht k' Hk'). now apply HK.
    + exact Hrun.
  - intros t Ht Hout.
    assert (HnK : k ∉ K1) by (now rewrite HK).
    pose proof (sch_old _ _ _ _ _ H1 k t Ht) as Ht1.
    split.
    + apply (pr_gone _ _ _ _ H2); [exact HnK|]. rewrite Ht1. eauto.
    + destruct (wf_job_task _ Hwf k t Ht) as [task Htask]. exists task. split; [exact Htask|].
      rewrite (pr_stopped _ _ _ _ H2 k t HnK Ht1).
      now rewrite (Hlow t Ht), Htask.
  - intros t Ht Hin.
    pose proof (sch_old _ _ _ _ _ H1 k t Ht) as Ht1.
    split.
    + rewrite (pr_kept _ _ _ _ H2); [exact Ht1|]. left. now apply HK.
    + rewrite (pr_untouched _ _ _ _ H2); [now apply Hlow|].
      intros k' Hk'. rewrite (Hown t Ht1 k' Hk'). now apply HK.
  - intros Hout Hnone.
    destruct (scheduledJobs st1 !! k) as [t|] eqn:E.
    + destruct (sch_new _ _ _ _ _ H1 k t E) as [Hold|(_ & Hin & _)]; [congruence|contradiction].
    + rewrite (pr_kept _ _ _ _ H2); [exact E|]. now right.
Qed.

End PruneFacts.

Lemma dailyPattern_total (inds : list value) :
  forall ind, ind ∈ inds -> is_Some (dailyPattern ind).
Proof. intros ind _. unfold dailyPattern. eauto. Qed.

(** Every state the scheduler reaches satisfies its invariant. *)
Lemma reachable_wf {rt : JSRuntime} (st : Scheduler) : reachable st -> schedulerWf st.
Proof.
  induction 1 as [|cronPatternFor scan st _ IH|st _ IH].
  - apply initialScheduler_wf.
  - now apply discoveryTick_wf.
  - now apply prune_wf.
Qed.

Lemma afterTick1_wf : schedulerWf afterTick1.
Proof. apply (@reachable_wf sample_base). apply reachable_tick, reachable_start. Qed.

Lemma discoveryTick_updates_by_diff_witness :
  (scheduledJobs afterTick2 !! keyOf indicatorA = None
   /\ exists task, tasks afterTick1 !! 0 = Some task
                   /\ tasks afterTick2 !! 0 = Some (stopTask task))
  /\ (scheduledJobs afterTick2 !! keyOf indicatorB = Some 1
      /\ tasks afterTick2 !! 1 = tasks afterTick1 !! 1)
  /\ (exists t task, scheduledJobs afterTick2 !! keyOf indicatorC = Some t
                     /\ tasks afterTick1 !! t = None
                     /\ tasks afterTick2 !! t = Some task /\ running task = true).
Proof.
  pose proof (fun k => @discoveryTick_updates_by_diff sample_base dailyPattern
                         [indicatorB; indicatorC] afterTick1 k afterTick1_wf
                         (dailyPattern_total _)) as H.
  split; [|split].
  - apply (proj1 (proj2 (H (keyOf indicatorA))) 0).
    + vm_compute. reflexivity.
    + apply (bool_decide_unpack _). vm_compute. exact I.
  - apply (proj1 (proj2 (proj2 (H (keyOf indicatorB)))) 1).
    + vm_compute. reflexivity.
    + apply (bool_decide_unpack _). vm_compute. exact I.
  - apply (proj1 (H (keyOf indicatorC))).
    + apply (bool_decide_unpack _). vm_compute. exact I.
    + vm_compute. reflexivity.
Defined.

(** ** The evaluation engine *)

Section UniqueFacts.
Context {A : Type} (id : A -> string).









End UniqueFacts.

Section EvaluatorFacts.
Context {rt : JSRuntime}.
Variable db : Database.
















End EvaluatorFacts.

Section MatchingFacts.
Context {rt : JSRuntime}.
Variable db : Database.

Lemma fold_left_guard {B C : Type} (p : C -> bool) (f : B -> C -> B) (l : list C) : forall acc,
  fold_left (fun acc x => if p x then f acc x else acc) l acc
  = fold_left f (List.filter p l) acc.
Proof.
  induction l as [|x l IH]; intros acc; simpl; [reflexivity|].
  destruct (p x); simpl; apply IH.
Qed.

(** The loop of step 2 visits the kept conditions, and only those. *)
Lemma collectStrategies_kept (payload : value) :
  collectStrategies db payload
  = fold_left (fun acc condition =>
                 fold_left (recordBlock db condition) (blocksOfCondition db condition) acc)
              (keptConditions db payload) ([], ∅).
Proof. unfold collectStrategies, keptConditions. apply fold_left_guard. Qed.

Lemma set_add_elem (x y : string) (s : list string) : y ∈ set_add x s <-> y ∈ s \/ y = x.
Proof.
  unfold set_add. case_bool_decide as Hx.
  - split; [auto|]. intros [H| ->]; assumption.
  - rewrite elem_of_app, list_elem_of_singleton. tauto.
Qed.

Lemma recordBlock_ids (c : Condition) (bs : list StrategyBlock) : forall acc sid,
  sid ∈ fst (fold_left (recordBlock db c) bs acc)
  <-> sid ∈ fst acc \/ exists b, b ∈ bs /\ blockActive db b = true /\ strategyId b = sid.
Proof.
  induction bs as [|b bs IH]; intros [ids m] sid; simpl.
  - split; [auto|]. intros [H|(b & Hb & _)]; [exact H|]. now apply elem_of_nil in Hb.
  - rewrite IH. clear IH. destruct (blockActive db b) eqn:Hact.
    + assert (Hids : forall x, x ∈ fst (if existsb
                 (fun c0 => String.eqb (condition_id c0) (condition_id c))
                 (default [] (m !! strategyId b))
               then (set_add (strategyId b) ids, <[strategyId b := default [] (m !! strategyId b)]> m)
               else (set_add (strategyId b) ids,
                     <[strategyId b := default [] (m !! strategyId b) ++ [c]]> m))
             <-> x ∈ set_add (strategyId b) ids).
      { intros x. destruct (existsb _ _); reflexivity. }
      rewrite Hids, set_add_elem. split.
      * intros [[H| ->]|(b' & Hb' & Ha & Hs)]; [now left| |].
        -- right. exists b. split; [apply list_elem_of_here|auto].
        -- right. exists b'. split; [now apply list_elem_of_further|auto].
      * intros [H|(b' & Hb' & Ha & Hs)]; [now left; left|].
        apply elem_of_cons in Hb' as [->|Hb']; [left; right; now symmetry|].
        right. eauto.
    + split.
      * intros [H|(b' & Hb' & Ha & Hs)]; [now left|].
        right. exists b'. split; [now apply list_elem_of_further|auto].
      * intros [H|(b' & Hb' & Ha & Hs)]; [now left|].
        apply elem_of_cons in Hb' as [->|Hb']; [congruence|]. right. eauto.
Qed.

(** The strategies step 3 evaluates are those with an active block linked to
    a kept condition. *)
Lemma relevantStrategyIds_spec (payload : value) (sid : string) :
  sid ∈ fst (collectStrategies db payload)
  <-> exists c b, In c (keptConditions db payload) /\ b ∈ blocksOfCondition db c
                  /\ blockActive db b = true /\ strategyId b = sid.
Proof.
  rewrite collectStrategies_kept.
  generalize (keptConditions db payload). intros l.
  assert (H : forall acc,
    sid ∈ fst (fold_left (fun acc condition =>
                 fold_left (recordBlock db condition) (blocksOfCondition db condition) acc) l acc)
    <-> sid ∈ fst acc \/ exists c b, In c l /\ b ∈ blocksOfCondition db c
                                     /\ blockActive db b = true /\ strategyId b = sid).
  { induction l as [|c l IH]; intros acc; simpl.
    - split; [auto|]. intros [H|(c & b & [] & _)]. exact H.
    - rewrite IH, recordBlock_ids. split.
      + intros [[H|(b & Hb)]|(c' & b & Hc' & Hb)]; [now left| |].
        * right. exists c, b. tauto.
        * right. exists c', b. tauto.
      + intros [H|(c' & b & [<-|Hc'] & Hb)]; [now left; left| |].
        * left. right. eauto.
        * right. exists c', b. tauto. }
  rewrite H. simpl. split; [|auto]. intros [Hnil|Hex]; [|exact Hex].
  now apply elem_of_nil in Hnil.
Qed.

Lemma columnIs_true (column : option string) (v : value) :
  columnIs column v = true <-> exists s, column = Some s /\ v = VStr s.
Proof.
  destruct column as [t|], v; simpl;
    try (split; [discriminate|intros (s0 & H1 & H2); discriminate]).
  rewrite String.eqb_eq. split.
  - intros ->. eauto.
  - intros (s0 & [= ->] & [= ->]). reflexivity.
Qed.

(** The conditions kept at line 221, for any payload. *)
Lemma keptConditions_spec (payload : value) (c : Condition) :
  In c (keptConditions db payload)
  <-> In c (conditions db)
      /\ getProp payload "indicatorType" = VStr (indicatorType c)
      /\ (exists s, symbol c = Some s /\ getProp payload "symbol" = VStr s)
      /\ (exists i, interval c = Some i /\ getProp payload "interval" = VStr i)
      /\ JSON_stringify (parameters c) = JSON_stringify (getProp payload "parameters").
Proof.
  unfold keptConditions, matchingConditions, parametersMatch.
  rewrite !filter_In, !andb_true_iff, !columnIs_true, bool_decide_eq_true.
  split.
  - intros [(Hin & ((t & [= <-] & Ht) & Hs) & Hi) Hp]. tauto.
  - intros (Hin & Ht & Hs & Hi & Hp). split; [|exact Hp]. split; [exact Hin|].
    split; [|exact Hi]. split; [|exact Hs]. eauto.
Qed.

(** A run is the loop of step 3 over the strategies it evaluates. *)
Lemma evaluateStrategies_run (payload : value) (w : World) :
  evaluateStrategiesForIndicator db payload w
  = fold_left (evaluateStrategy db payload) (strategiesEvaluated db payload) w.
Proof.
  unfold evaluateStrategiesForIndicator, strategiesEvaluated.
  destruct (invalidPayload payload); [reflexivity|].
  now destruct (collectStrategies db payload).
Qed.

Lemma strategiesEvaluated_spec (payload : value) (sid : string) :
  sid ∈ strategiesEvaluated db payload
  <-> exists c b, In c (conditionsKept db payload) /\ b ∈ blocksOfCondition db c
                  /\ blockActive db b = true /\ strategyId b = sid.
Proof.
  unfold strategiesEvaluated, conditionsKept.
  destruct (invalidPayload payload); [|apply relevantStrategyIds_spec].
  split; [intros H; now apply elem_of_nil in H|intros (c & b & [] & _)].
Qed.

(** The validation of line 187 passes when the indicator type, the symbol
    and the interval are truthy and the parameters have type object. *)
Lemma invalidPayload_false (payload : value) :
  invalidPayload payload = false
  <-> truthy (getProp payload "indicatorType") = true
      /\ truthy (getProp payload "symbol") = true
      /\ truthy (getProp payload "interval") = true
      /\ is_object (getProp payload "parameters") = true.
Proof.
  unfold invalidPayload.
  destruct (truthy (getProp payload "indicatorType")), (truthy (getProp payload "symbol")),
    (truthy (getProp payload "interval")), (is_object (getProp payload "parameters"));
    simpl; intuition discriminate.
Qed.

Lemma truthy_VStr (t : string) : truthy (VStr t) = true <-> t <> "".
Proof.
  simpl. rewrite negb_true_iff. apply String.eqb_neq.
Qed.

(** C2, as the code has it. For an event whose indicator type, symbol and
    interval are strings: a run on an event that passes the validation of
    line 187 (the three strings not empty, parameters of type object) keeps,
    of the conditions of the store, exactly those whose indicator type,
    symbol and interval are the event's and whose parameters have the same
    JSON text as the event's parameters, a text that follows the key order
    of the objects; a condition whose parameters are the event's parameters,
    key order included, is never filtered out. A run on an event that fails
    the validation keeps nothing. The run is the loop of step 3 over the
    strategies with an active block linked to a kept condition. *)
Theorem kept_conditions_have_same_parameter_text
    (payload : value) (type0 symbol0 interval0 : string) (c : Condition) :
  getProp payload "indicatorType" = VStr type0 ->
  getProp payload "symbol" = VStr symbol0 ->
  getProp payload "interval" = VStr interval0 ->
  (In c (conditionsKept db payload)
   <-> (type0 <> "" /\ symbol0 <> "" /\ interval0 <> ""
        /\ is_object (getProp payload "parameters") = true)
       /\ In c (conditions db) /\ indicatorType c = type0 /\ symbol c = Some symbol0
       /\ interval c = Some interval0
       /\ JSON_stringify (parameters c) = JSON_stringify (getProp payload "parameters"))
  /\ (type0 <> "" -> symbol0 <> "" -> interval0 <> "" ->
      is_object (getProp payload "parameters") = true ->
      In c (conditions db) -> indicatorType c = type0 -> symbol c = Some symbol0 ->
      interval c = Some interval0 -> parameters c = getProp payload "parameters" ->
      In c (conditionsKept db payload))
  /\ (type0 = "" \/ symbol0 = "" \/ interval0 = ""
      \/ is_object (getProp payload "parameters") = false ->
      conditionsKept db payload = [])
  /\ (forall w, evaluateStrategiesForIndicator db payload w
                = fold_left (evaluateStrategy db payload) (strategiesEvaluated db payload) w)
  /\ (forall sid, sid ∈ strategiesEvaluated db payload
         <-> exists c' b, In c' (conditionsKept db payload) /\ b ∈ blocksOfCondition db c'
                          /\ blockActive db b = true /\ strategyId b = sid).
Proof.
  intros Htype Hsymbol Hinterval.
  assert (Hvalid : invalidPayload payload = false
                   <-> type0 <> "" /\ symbol0 <> "" /\ interval0 <> ""
                       /\ is_object (getProp payload "parameters") = true).
  { rewrite invalidPayload_false, Htype, Hsymbol, Hinterval, !truthy_VStr. tauto. }
  assert (Hiff : In c (conditionsKept db payload)
   <-> (type0 <> "" /\ symbol0 <> "" /\ interval0 <> ""
        /\ is_object (getProp payload "parameters") = true)
       /\ In c (conditions db) /\ indicatorType c = type0 /\ symbol c = Some symbol0
       /\ interval c = Some interval0
       /\ JSON_stringify (parameters c) = JSON_stringify (getProp payload "parameters")).
  { rewrite <- Hvalid. unfold conditionsKept. destruct (invalidPayload payload).
    - split; [intros []|intros [H _]; discriminate].
    - rewrite keptConditions_spec, Htype, Hsymbol, Hinterval. split.
      + intros (Hin & [= Ht] & (s0 & Hs & [= <-]) & (i0 & Hi & [= <-]) & Hp). auto 10.
      + intros (_ & Hin & Ht & Hs & Hi & Hp). subst type0. eauto 10. }
  split; [exact Hiff|]. split; [|split; [|split]].
  - intros Hv1 Hv2 Hv3 Hv4 Hin Ht Hs Hi Hp. apply Hiff. rewrite Hp. tauto.
  - intros Hinvalid. unfold conditionsKept.
    destruct (invalidPayload payload); [reflexivity|].
    destruct (proj1 Hvalid eq_refl) as (H1 & H2 & H3 & H4).
    destruct Hinvalid as [H|[H|[H|H]]]; congruence.
  - apply evaluateStrategies_run.
  - apply strategiesEvaluated_spec.
Qed.

End MatchingFacts.

Lemma kept_conditions_have_same_parameter_text_witness :
  In sampleCondition (@conditionsKept sampleRt sampleDb samplePayload).
Proof.
  refine (proj1 (proj2 (@kept_conditions_have_same_parameter_text sampleRt sampleDb
                          samplePayload "SMA" "AAPL" "daily" sampleCondition _ _ _))
                _ _ _ _ _ _ _ _ _);
    try reflexivity; try discriminate.
  left. reflexivity.
Defined.

(** C2, as stated, fails: for an event that passes the validation, a
    condition that matches the event and whose parameters are the event's
    parameters up to key order is filtered out. *)
Lemma structurally_equal_parameters_counterexample :
  ~ (forall (rt : JSRuntime) (db : Database) (payload : value) (c : Condition),
       invalidPayload payload = false ->
       In c (matchingConditions db payload) ->
       structEqb (parameters c) (getProp payload "parameters") = true ->
       In c (conditionsKept db payload)).
Proof.
  intros H.
  specialize (H sampleRt sampleDb reorderedPayload sampleCondition).
  assert (Hkept : @conditionsKept sampleRt sampleDb reorderedPayload = [])
    by (vm_compute; reflexivity).
  rewrite Hkept in H. apply H.
  - reflexivity.
  - left. reflexivity.
  - vm_compute. reflexivity.
Qed.

(** ** Comparisons of binary64 numbers *)

Lemma SFcompare_antisym (x y : spec_float) :
  SFcompare y x = option_map CompOpp (SFcompare x y).
Proof.
  destruct x as [sx|sx| |sx mx ex], y as [sy|sy| |sy my ey]; simpl;
    try reflexivity; try (destruct sx; reflexivity); try (destruct sy; reflexivity);
    try (destruct sx, sy; reflexivity).
  destruct sx, sy; simpl; try reflexivity.
  - rewrite (Z.compare_antisym ex ey). destruct (ex ?= ey)%Z; simpl; try reflexivity.
    now rewrite (Pos.compare_cont_antisym mx my Eq).
  - rewrite (Z.compare_antisym ex ey). destruct (ex ?= ey)%Z; simpl; try reflexivity.
    now rewrite (Pos.compare_cont_antisym mx my Eq).
Qed.

Lemma SFcompare_None (x y : spec_float) :
  SFcompare x y = None -> x = S754_nan \/ y = S754_nan.
Proof.
  destruct x as [sx|sx| |sx mx ex], y as [sy|sy| |sy my ey]; simpl; auto; discriminate.
Qed.

Lemma is_nan_Prim2SF (x : float) : PrimFloat.is_nan x = false -> Prim2SF x <> S754_nan.
Proof.
  unfold PrimFloat.is_nan. rewrite FloatAxioms.eqb_spec. intros H Hnan.
  rewrite Hnan in H. discriminate.
Qed.

Lemma is_nan_abs (x : float) :
  PrimFloat.is_nan x = false -> PrimFloat.is_nan (PrimFloat.abs x) = false.
Proof.
  intros H. apply is_nan_Prim2SF in H. unfold PrimFloat.is_nan.
  rewrite FloatAxioms.eqb_spec, FloatAxioms.abs_spec.
  destruct (Prim2SF x) as [s|s| |s m e]; simpl; try reflexivity; try congruence.
  unfold SFeqb. simpl. now rewrite Z.compare_refl, Pos.compare_cont_refl.
Qed.

(** Among numbers, [x >= y] is the negation of [x < y]. *)
Lemma geb_negb_ltb (x y : float) :
  PrimFloat.is_nan x = false -> PrimFloat.is_nan y = false ->
  geb x y = negb (PrimFloat.ltb x y).
Proof.
  intros Hx Hy. apply is_nan_Prim2SF in Hx, Hy. unfold geb.
  rewrite FloatAxioms.leb_spec, FloatAxioms.ltb_spec. unfold SFleb, SFltb.
  rewrite (SFcompare_antisym (Prim2SF x) (Prim2SF y)).
  destruct (SFcompare (Prim2SF x) (Prim2SF y)) as [[| |]|] eqn:E; try reflexivity.
  apply SFcompare_None in E. tauto.
Qed.

Section OperatorFacts.
Context {rt : JSRuntime}.
Variable db : Database.

Lemma evaluateSingleCondition_resolved (c : Condition) (cur : float) (prev : option float)
    (target : float) (w w1 : World) :
  resolveTarget db c w = (Some target, w1) ->
  fst (evaluateSingleCondition db c cur prev w) = applyOperator (operator c) cur prev target.
Proof. intros H. unfold evaluateSingleCondition. now rewrite H. Qed.

(** C4. With a resolved target, CROSSES_ABOVE holds exactly when there is a
    previous value, previous <= target and current > target; CROSSES_BELOW
    exactly when there is a previous value, previous >= target and
    current < target; without a previous value both are false, and the
    evaluation returns normally. *)
Theorem crossover_operators (c : Condition) (cur : float) (prev : option float)
    (target : float) (w w1 : World) :
  resolveTarget db c w = (Some target, w1) ->
  (operator c = CROSSES_ABOVE ->
     (fst (evaluateSingleCondition db c cur prev w) = true
      <-> exists p, prev = Some p /\ PrimFloat.leb p target = true /\ gtb cur target = true))
  /\ (operator c = CROSSES_BELOW ->
     (fst (evaluateSingleCondition db c cur prev w) = true
      <-> exists p, prev = Some p /\ geb p target = true /\ PrimFloat.ltb cur target = true))
  /\ (operator c = CROSSES_ABOVE \/ operator c = CROSSES_BELOW -> prev = None ->
      fst (evaluateSingleCondition db c cur prev w) = false).
Proof.
  intros Hres. rewrite (evaluateSingleCondition_resolved c cur prev target w w1 Hres).
  split; [|split].
  - intros ->. simpl. destruct prev as [p|].
    + rewrite andb_true_iff. split.
      * intros [H1 H2]. eauto.
      * intros (p' & [= <-] & H1 & H2). auto.
    + split; [discriminate|]. intros (p' & Hp & _). discriminate.
  - intros ->. simpl. destruct prev as [p|].
    + rewrite andb_true_iff. split.
      * intros [H1 H2]. eauto.
      * intros (p' & [= <-] & H1 & H2). auto.
    + split; [discriminate|]. intros (p' & Hp & _). discriminate.
  - intros [-> | ->] ->; reflexivity.
Qed.

(** C5, as the code has it. With a resolved target, EQUALS is the test
    |current - target| < 0.0001 and NOT_EQUALS the test
    |current - target| >= 0.0001; NOT_EQUALS is the negation of EQUALS
    whenever current - target is a number. EQUALS holds of 10.00005 and 10,
    and does not hold of 10.001 and 10. *)
Theorem equality_operators (c : Condition) (cur : float) (prev : option float)
    (target : float) (w w1 : World) :
  resolveTarget db c w = (Some target, w1) ->
  (operator c = EQUALS ->
     fst (evaluateSingleCondition db c cur prev w)
     = PrimFloat.ltb (PrimFloat.abs (cur - target)) epsilon)
  /\ (operator c = NOT_EQUALS ->
      fst (evaluateSingleCondition db c cur prev w)
      = geb (PrimFloat.abs (cur - target)) epsilon
      /\ (PrimFloat.is_nan (cur - target) = false ->
          fst (evaluateSingleCondition db c cur prev w)
          = negb (PrimFloat.ltb (PrimFloat.abs (cur - target)) epsilon)))
  /\ applyOperator EQUALS 10.00005%float prev 10%float = true
  /\ applyOperator EQUALS 10.001%float prev 10%float = false.
Proof.
  intros Hres. rewrite (evaluateSingleCondition_resolved c cur prev target w w1 Hres).
  split; [|split; [|split]].
  - intros ->. reflexivity.
  - intros ->. simpl. split; [reflexivity|]. intros Hnum.
    apply geb_negb_ltb; [now apply is_nan_abs|reflexivity].
  - reflexivity.
  - reflexivity.
Qed.

End OperatorFacts.

Lemma crossover_operators_witness :
  fst (@evaluateSingleCondition sampleRt sampleDb (conditionWith CROSSES_ABOVE 10%float)
         11%float (Some 9%float) emptyWorld) = true
  /\ fst (@evaluateSingleCondition sampleRt sampleDb (conditionWith CROSSES_ABOVE 10%float)
            11%float (Some 10.5%float) emptyWorld) <> true
  /\ fst (@evaluateSingleCondition sampleRt sampleDb (conditionWith CROSSES_BELOW 10%float)
            9%float (Some 11%float) emptyWorld) = true.
Proof.
  pose proof (fun op cur prev =>
                @crossover_operators sampleRt sampleDb (conditionWith op 10%float) cur prev
                  10%float emptyWorld emptyWorld eq_refl) as H.
  split; [|split].
  - apply (proj1 (H CROSSES_ABOVE 11%float (Some 9%float)) eq_refl).
    exists 9%float. repeat split.
  - intros Hmet.
    apply (proj1 (H CROSSES_ABOVE 11%float (Some 10.5%float)) eq_refl) in Hmet.
    destruct Hmet as (p & [= <-] & Hle & _). vm_compute in Hle. discriminate Hle.
  - apply (proj1 (proj2 (H CROSSES_BELOW 9%float (Some 11%float))) eq_refl).
    exists 11%float. repeat split.
Defined.

Lemma equality_operators_witness :
  fst (@evaluateSingleCondition sampleRt sampleDb (conditionWith NOT_EQUALS 10%float)
         10.001%float None emptyWorld)
  = negb (PrimFloat.ltb (PrimFloat.abs (10.001 - 10)%float) epsilon).
Proof.
  apply (proj2 (proj1 (proj2 (@equality_operators sampleRt sampleDb
                                (conditionWith NOT_EQUALS 10%float) 10.001%float None 10%float
                                emptyWorld emptyWorld eq_refl)) eq_refl)).
  reflexivity.
Defined.

(** C5, as stated, fails for NOT_EQUALS: with current and target both
    infinite their difference is not a number, so it is not below the
    epsilon, and yet NOT_EQUALS is false. *)
Lemma not_equals_counterexample :
  ~ (forall (rt : JSRuntime) (db : Database) (c : Condition) (cur : float)
            (prev : option float) (target : float) (w w1 : World),
       resolveTarget db c w = (Some target, w1) ->
       operator c = NOT_EQUALS ->
       (fst (evaluateSingleCondition db c cur prev w) = true
        <-> PrimFloat.ltb (PrimFloat.abs (cur - target)) epsilon <> true)).
Proof.
  intros H.
  specialize (H sampleRt sampleDb (conditionWith NOT_EQUALS PrimFloat.infinity)
                PrimFloat.infinity None PrimFloat.infinity emptyWorld emptyWorld
                eq_refl eq_refl).
  destruct H as [_ H].
  assert (Hmet : fst (@evaluateSingleCondition sampleRt sampleDb
                        (conditionWith NOT_EQUALS PrimFloat.infinity)
                        PrimFloat.infinity None emptyWorld) = true).
  { apply H. vm_compute. discriminate. }
  vm_compute in Hmet. discriminate Hmet.
Qed.

(** * Further properties *)

(** ** The freshness cache: writing, reading back, expiry *)

Section CacheRoundTrip.
Context {rt : JSRuntime}.

Lemma setCachedIndicatorData_redis key data metadata ttl w :
  redis (setCachedIndicatorData key data metadata ttl w)
  = {| isReady := isReady (redis w);
       kv := <[ key := (cacheEntryText data metadata (clock w), (clock w + ttl)%Z) ]>
               (kv (redis w));
       streams := streams (redis w) |}
  /\ clock (setCachedIndicatorData key data metadata ttl w) = clock w
  /\ requests (setCachedIndicatorData key data metadata ttl w) = requests w.
Proof. repeat split. Qed.

Lemma cacheEntryText_not_empty data metadata t :
  String.eqb (cacheEntryText data metadata t) "" = false.
Proof. reflexivity. Qed.

Lemma redis_get_after_write key data metadata ttl dt w :
  redis_get (afterSeconds dt (setCachedIndicatorData key data metadata ttl w)) key
  = if (dt <? ttl)%Z then Some (cacheEntryText data metadata (clock w)) else None.
Proof.
  unfold redis_get. simpl. rewrite lookup_insert_eq.
  destruct (dt <? ttl)%Z eqn:E.
  - apply Z.ltb_lt in E. assert (H : (clock w + dt <? clock w + ttl)%Z = true)
      by (apply Z.ltb_lt; lia). now rewrite H.
  - apply Z.ltb_ge in E. assert (H : (clock w + dt <? clock w + ttl)%Z = false)
      by (apply Z.ltb_ge; lia). now rewrite H.
Qed.

(** X1. What is written is read back until it expires: within the TTL,
    [getCachedIndicatorEntry] returns what the stored text parses to, and
    [getCachedData] its data. *)
Theorem cache_write_then_read (key : string) (data metadata entry : value) (ttl dt : Z)
    (w : World) :
  (0 <= dt < ttl)%Z ->
  JSON_parse (cacheEntryText data metadata (clock w)) = Some entry ->
  truthy entry = true ->
  fst (getCachedIndicatorEntry key
         (afterSeconds dt (setCachedIndicatorData key data metadata ttl w))) = entry
  /\ fst (getCachedData key
            (afterSeconds dt (setCachedIndicatorData key data metadata ttl w)))
     = getProp entry "data".
Proof.
  intros [_ Hdt] Hparse Htruthy.
  assert (Hread : fst (getCachedIndicatorEntry key
            (afterSeconds dt (setCachedIndicatorData key data metadata ttl w))) = entry).
  { unfold getCachedIndicatorEntry. rewrite redis_get_console, redis_get_after_write.
    apply Z.ltb_lt in Hdt. rewrite Hdt, cacheEntryText_not_empty, Hparse. reflexivity. }
  split; [exact Hread|].
  unfold getCachedData.
  destruct (getCachedIndicatorEntry key _) as [e w1]. simpl in Hread. subst e.
  simpl. now rewrite Htruthy.
Qed.

(** X2. Once the TTL has elapsed the entry is gone: the read is a miss and
    returns null, whatever was written. *)
Theorem cache_entry_expires (key : string) (data metadata : value) (ttl dt : Z) (w : World) :
  (ttl <= dt)%Z ->
  fst (getCachedIndicatorEntry key
         (afterSeconds dt (setCachedIndicatorData key data metadata ttl w))) = VNull
  /\ fst (getCachedData key
            (afterSeconds dt (setCachedIndicatorData key data metadata ttl w))) = VNull.
Proof.
  intros Hdt.
  assert (Hread : fst (getCachedIndicatorEntry key
            (afterSeconds dt (setCachedIndicatorData key data metadata ttl w))) = VNull).
  { unfold getCachedIndicatorEntry. rewrite redis_get_console, redis_get_after_write.
    apply Z.ltb_ge in Hdt. now rewrite Hdt. }
  split; [exact Hread|].
  unfold getCachedData.
  destruct (getCachedIndicatorEntry key _) as [e w1]. simpl in Hread. now subst e.
Qed.

(** X3. A write touches one key: the new text replaces whatever was stored
    under the key, every other key reads as before, and the streams and the
    readiness of the client are untouched. *)
Theorem cache_write_is_local (key other : string) (data metadata : value) (ttl : Z)
    (w : World) :
  other <> key ->
  kv (redis (setCachedIndicatorData key data metadata ttl w)) !! key
    = Some (cacheEntryText data metadata (clock w), (clock w + ttl)%Z)
  /\ redis_get (setCachedIndicatorData key data metadata ttl w) other = redis_get w other
  /\ streams (redis (setCachedIndicatorData key data metadata ttl w)) = streams (redis w)
  /\ isReady (redis (setCachedIndicatorData key data metadata ttl w)) = isReady (redis w).
Proof.
  intros Hne. repeat split.
  - simpl. apply lookup_insert_eq.
  - unfold redis_get. simpl. now rewrite lookup_insert_ne by congruence.
Qed.

(** X4. A stored text that does not parse is treated as absent: the read
    returns null, adds an error line to the console and leaves the text in
    the store. *)
Theorem malformed_entry_reads_as_absent (key text : string) (w : World) :
  redis_get w key = Some text ->
  JSON_parse text = None ->
  fst (getCachedIndicatorEntry key w) = VNull
  /\ fst (getCachedData key w) = VNull
  /\ redis (snd (getCachedIndicatorEntry key w)) = redis w
  /\ (text <> "" ->
      last (console (snd (getCachedIndicatorEntry key w)))
      = Some {| lvl := Error; msg := "Error parsing cached indicator entry:" |}).
Proof.
  intros Hget Hparse.
  assert (Hread : fst (getCachedIndicatorEntry key w) = VNull).
  { unfold getCachedIndicatorEntry. rewrite redis_get_console, Hget.
    destruct (String.eqb text ""); [reflexivity|]. now rewrite Hparse. }
  split; [exact Hread|]. split; [|split].
  - unfold getCachedData. destruct (getCachedIndicatorEntry key w) as [e w1].
    simpl in Hread. now subst e.
  - apply getCachedIndicatorEntry_frame.
  - intros Htext. unfold getCachedIndicatorEntry. rewrite redis_get_console, Hget.
    apply String.eqb_neq in Htext. rewrite Htext, Hparse. simpl. apply last_snoc.
Qed.

End CacheRoundTrip.

(** ** The fetcher: requests, successful fetches, publishing *)

Section FetchFacts.
Context {rt : JSRuntime}.
Variable provider : Provider.

Lemma sameButConsole_log l m w : sameButConsole w (console_log l m w).
Proof. now repeat split. Qed.

(** On a forced refresh or a miss the fetcher runs the try block, from a
    world that differs from the given one by console lines only. *)
Lemma getTechnicalIndicator_fetches (params : value) (forceRefresh : bool) (w : World) :
  forceRefresh = true
    \/ truthy (fst (getCachedIndicatorEntry (generateCacheKey params) w)) = false ->
  exists w0, sameButConsole w w0
    /\ getTechnicalIndicator provider params forceRefresh w
       = match fetchFresh provider params (generateCacheKey params) w0 with
         | (Normal data, w') => (data, w')
         | (Throw _, w') =>
             (VNull,
              console_log Error ("Error fetching Technical Indicator data for key "
                                 +:+ generateCacheKey params +:+ ":") w')
         end.
Proof.
  intros Hpath. unfold getTechnicalIndicator. cbv zeta.
  destruct forceRefresh; simpl negb; cbv iota.
  - exists w. split; [now repeat split|reflexivity].
  - destruct Hpath as [Hpath|Hpath]; [discriminate|].
    pose proof (getCachedIndicatorEntry_frame (generateCacheKey params) w) as (Hr & Hc & Hq).
    destruct (getCachedIndicatorEntry (generateCacheKey params) w) as [cachedEntry w1].
    simpl in *. rewrite Hpath. exists w1. split; [now repeat split|reflexivity].
Qed.

Lemma publishIndicatorUpdate_frame (payload : value) (w : World) :
  kv (redis (publishIndicatorUpdate payload w)) = kv (redis w)
  /\ isReady (redis (publishIndicatorUpdate payload w)) = isReady (redis w)
  /\ clock (publishIndicatorUpdate payload w) = clock w
  /\ requests (publishIndicatorUpdate payload w) = requests w.
Proof.
  unfold publishIndicatorUpdate. destruct (negb (isReady (redis w))); now repeat split.
Qed.

(** The try block sends exactly one query, whatever comes back. *)
Lemma fetchFresh_requests (params : value) (cacheKey : string) (w : World) :
  requests (snd (fetchFresh provider params cacheKey w))
  = requests w ++ [apiQuery provider params].
Proof.
  unfold fetchFresh. cbv zeta.
  destruct (http_get provider (apiQuery provider params)) as [data|m]; [|reflexivity].
  destruct (invalidResponse data).
  - destruct (String.eqb (typeof data) "object" && negb (nullish data))%bool; [|reflexivity].
    destruct (optional_includes _ _) as [hit|m]; [|reflexivity].
    destruct (truthy hit); reflexivity.
  - destruct (findIndicatorData data) as [[d|]|m]; [|reflexivity|reflexivity].
    simpl. now rewrite (proj2 (proj2 (proj2 (publishIndicatorUpdate_frame _ _)))).
Qed.

(** X5. A call that does not hit the cache sends exactly one query to the
    provider, the one built from the request, whatever the provider answers:
    there is no retry and no second query. *)
Theorem one_query_per_fetch (params : value) (forceRefresh : bool) (w : World) :
  forceRefresh = true
    \/ truthy (fst (getCachedIndicatorEntry (generateCacheKey params) w)) = false ->
  requests (snd (getTechnicalIndicator provider params forceRefresh w))
  = requests w ++ [apiQuery provider params].
Proof.
  intros Hpath.
  destruct (getTechnicalIndicator_fetches params forceRefresh w Hpath)
    as (w0 & (_ & _ & Hq) & ->).
  pose proof (fetchFresh_requests params (generateCacheKey params) w0) as H.
  destruct (fetchFresh provider params (generateCacheKey params) w0) as [[d|m] w'];
    simpl in *; now rewrite H, Hq.
Qed.

(** The try block on an answer that passes the validation and holds a data
    block. *)
Lemma fetchFresh_accepted (params data d : value) (cacheKey : string) (w : World) :
  http_get provider (apiQuery provider params) = Normal data ->
  invalidResponse data = false ->
  findIndicatorData data = Normal (Some d) ->
  exists w3, sameButConsole w
               {| redis := redis w3; clock := clock w3; console := console w3;
                  requests := requests w |}
    /\ fetchFresh provider params cacheKey w
       = (Normal d,
          publishIndicatorUpdate
            (VObj [ ("cacheKey", VStr cacheKey);
                    ("indicatorType", getProp params "function");
                    ("symbol", getProp params "symbol");
                    ("interval", getProp params "interval");
                    ("parameters", params);
                    ("lastRefreshed",
                     getProp (js_or (getProp data "Meta Data") (VObj [])) "3: Last Refreshed");
                    ("fetchTime", VStr (toISOString (clock w))) ])
            (setCachedIndicatorData cacheKey d (storedMetadata data)
               (ttlSecondsFor (getProp params "interval")) w3)).
Proof.
  intros Hhttp Hvalid Hfind. unfold fetchFresh. cbv zeta. rewrite Hhttp, Hvalid, Hfind.
  eexists. split; [|reflexivity]. now repeat split.
Qed.

(** X6. A successful fetch with a ready client, for a request whose
    function, symbol and interval are not objects and an answer whose
    last-refreshed stamp is not one, and whose data block is found by the
    search of line 77 without a throw: the data block of the answer is
    returned, it is stored under the fingerprint of the request with the TTL
    of the request's interval, one update event is appended to the indicator
    stream, and the action stream is left alone. *)
Theorem successful_fetch_caches_and_publishes (params data d : value) (forceRefresh : bool)
    (w : World) :
  forceRefresh = true
    \/ truthy (fst (getCachedIndicatorEntry (generateCacheKey params) w)) = false ->
  http_get provider (apiQuery provider params) = Normal data ->
  invalidResponse data = false ->
  findIndicatorData data = Normal (Some d) ->
  isReady (redis w) = true ->
  isPrimitive (getProp params "function") = true ->
  isPrimitive (getProp params "symbol") = true ->
  isPrimitive (getProp params "interval") = true ->
  isPrimitive (getProp (getProp data "Meta Data") "3: Last Refreshed") = true ->
  fst (getTechnicalIndicator provider params forceRefresh w) = d
  /\ kv (redis (snd (getTechnicalIndicator provider params forceRefresh w)))
     = <[ generateCacheKey params :=
            (cacheEntryText d (storedMetadata data) (clock w),
             (clock w + ttlSecondsFor (getProp params "interval"))%Z) ]> (kv (redis w))
  /\ stream_of (snd (getTechnicalIndicator provider params forceRefresh w)) STREAM_KEY
     = stream_of w STREAM_KEY
       ++ [indicatorStreamData (ownEntries (updateEvent params data (clock w)))]
  /\ stream_of (snd (getTechnicalIndicator provider params forceRefresh w)) ACTION_STREAM_KEY
     = stream_of w ACTION_STREAM_KEY.
Proof.
  intros Hpath Hhttp Hvalid Hfind Hready _ _ _ _.
  destruct (getTechnicalIndicator_fetches params forceRefresh w Hpath)
    as (w0 & (Hr & Hc & _) & ->).
  destruct (fetchFresh_accepted params data d (generateCacheKey params) w0 Hhttp Hvalid Hfind)
    as (w3 & (Hr3 & Hc3 & _) & ->).
  simpl in Hr3, Hc3. unfold publishIndicatorUpdate.
  assert (Hready3 : isReady (redis (setCachedIndicatorData (generateCacheKey params) d
                      (storedMetadata data) (ttlSecondsFor (getProp params "interval")) w3))
                    = true) by (simpl; congruence).
  rewrite Hready3. simpl. unfold stream_of, updateEvent. simpl.
  rewrite lookup_insert_eq, lookup_insert_ne by discriminate.
  rewrite <- Hr3, <- Hc3, <- Hr, <- Hc. repeat split.
Qed.

(** X7. Publishing is not tied to the cache write: when the data block is
    found by the search of line 77 without a throw and the Redis client is
    not ready to publish, the fetched series is still stored and returned,
    no stream changes, and the failure is an error line on the console. *)
Theorem unpublished_fetch_keeps_cache_write (params data d : value) (forceRefresh : bool)
    (w : World) :
  forceRefresh = true
    \/ truthy (fst (getCachedIndicatorEntry (generateCacheKey params) w)) = false ->
  http_get provider (apiQuery provider params) = Normal data ->
  invalidResponse data = false ->
  findIndicatorData data = Normal (Some d) ->
  isReady (redis w) = false ->
  fst (getTechnicalIndicator provider params forceRefresh w) = d
  /\ kv (redis (snd (getTechnicalIndicator provider params forceRefresh w)))
     = <[ generateCacheKey params :=
            (cacheEntryText d (storedMetadata data) (clock w),
             (clock w + ttlSecondsFor (getProp params "interval"))%Z) ]> (kv (redis w))
  /\ streams (redis (snd (getTechnicalIndicator provider params forceRefresh w)))
     = streams (redis w)
  /\ last (console (snd (getTechnicalIndicator provider params forceRefresh w)))
     = Some {| lvl := Error;
               msg := "Redis client not ready. Cannot publish indicator update." |}.
Proof.
  intros Hpath Hhttp Hvalid Hfind Hready.
  destruct (getTechnicalIndicator_fetches params forceRefresh w Hpath)
    as (w0 & (Hr & Hc & _) & ->).
  destruct (fetchFresh_accepted params data d (generateCacheKey params) w0 Hhttp Hvalid Hfind)
    as (w3 & (Hr3 & Hc3 & _) & ->).
  simpl in Hr3, Hc3. unfold publishIndicatorUpdate.
  assert (Hready3 : isReady (redis (setCachedIndicatorData (generateCacheKey params) d
                      (storedMetadata data) (ttlSecondsFor (getProp params "interval")) w3))
                    = false) by (simpl; congruence).
  rewrite Hready3. simpl.
  rewrite <- Hr3, <- Hc3, <- Hr, <- Hc. repeat split. apply last_snoc.
Qed.

End FetchFacts.

(** ** The provider query and the helpers *)

Section QueryFacts.
Context {rt : JSRuntime}.
Variable provider : Provider.

Lemma assoc_replaceProp_eq (o : object) (k : string) (v : value) :
  is_Some (assoc k o) -> assoc k (replaceProp o k v) = Some v.
Proof.
  induction o as [|[k' v'] o IH]; simpl; intros Hk; [now destruct Hk|].
  destruct (String.eqb k k') eqn:E; simpl.
  - now rewrite String.eqb_refl.
  - rewrite E. auto.
Qed.

Lemma assoc_insertProp_eq (o : object) (k : string) (v : value) :
  assoc k o = None -> assoc k (insertProp o k v) = Some v.
Proof.
  induction o as [|[k' v'] o IH]; simpl; intros Hk.
  - now rewrite String.eqb_refl.
  - destruct (String.eqb k k') eqn:E; [discriminate|].
    destruct (arrayIndex k) as [n|], (arrayIndex k') as [n'|];
      try destruct (n <? n')%N; simpl; rewrite ?String.eqb_refl, ?E; auto.
Qed.

Lemma assoc_setProp_eq (o : object) (k : string) (v : value) :
  assoc k (setProp o k v) = Some v.
Proof.
  unfold setProp. destruct (assoc k o) as [x|] eqn:E.
  - apply assoc_replaceProp_eq. rewrite E. eauto.
  - now apply assoc_insertProp_eq.
Qed.

Lemma assoc_replaceProp_ne (o : object) (k k' : string) (v : value) :
  k <> k' -> assoc k (replaceProp o k' v) = assoc k o.
Proof.
  intros Hne. induction o as [|[k0 v0] o IH]; simpl; [reflexivity|].
  destruct (String.eqb k' k0) eqn:E; simpl.
  - apply String.eqb_eq in E. subst k0. apply String.eqb_neq in Hne. now rewrite Hne.
  - now rewrite IH.
Qed.

Lemma assoc_insertProp_ne (o : object) (k k' : string) (v : value) :
  k <> k' -> assoc k (insertProp o k' v) = assoc k o.
Proof.
  intros Hne. pose proof (proj2 (String.eqb_neq k k') Hne) as Hneb.
  induction o as [|[k0 v0] o IH]; simpl; [now rewrite Hneb|].
  destruct (arrayIndex k') as [n|], (arrayIndex k0) as [n0|];
    try destruct (n <? n0)%N; simpl; rewrite ?Hneb, ?IH; reflexivity.
Qed.

Lemma assoc_setProp_ne (o : object) (k k' : string) (v : value) :
  k <> k' -> assoc k (setProp o k' v) = assoc k o.
Proof.
  intros Hne. unfold setProp. destruct (assoc k' o).
  - now apply assoc_replaceProp_ne.
  - now apply assoc_insertProp_ne.
Qed.

Lemma assoc_app (k : string) (o1 o2 : object) :
  assoc k (o1 ++ o2) = match assoc k o1 with Some v => Some v | None => assoc k o2 end.
Proof.
  induction o1 as [|[k' v'] o1 IH]; simpl; [reflexivity|].
  destruct (String.eqb k k'); [reflexivity|exact IH].
Qed.

(** In [{...o, ...src}] the last property of [src] with a given name wins,
    and the properties of [o] show through where [src] has none. *)
Lemma assoc_spread (k : string) (src : object) : forall o,
  assoc k (fold_left (fun acc kv => setProp acc (fst kv) (snd kv)) src o)
  = match assoc k (rev src) with Some v => Some v | None => assoc k o end.
Proof.
  induction src as [|[k' v'] src IH]; intros o; simpl; [reflexivity|].
  rewrite IH, assoc_app. destruct (assoc k (rev src)) as [v|]; [reflexivity|]. simpl.
  destruct (String.eqb k k') eqn:E.
  - apply String.eqb_eq in E. subst k'. apply assoc_setProp_eq.
  - apply String.eqb_neq in E. now apply assoc_setProp_ne.
Qed.

Lemma assoc_rev (k : string) (o : object) :
  NoDup (map fst o) -> assoc k (rev o) = assoc k o.
Proof.
  intros Hnd. symmetry. apply assoc_Permutation; [exact Hnd|apply Permutation_rev].
Qed.

(** X8. The query sent to the provider always carries the API key of the
    environment, whatever the request holds; every parameter of the request
    is passed through and wins over the function, symbol and interval of the
    request, which are sent as they are when no parameter has their name. *)
Theorem query_fields (params : value) (k : string) :
  NoDup (Object_keys (getProp params "parameters")) ->
  getProp (apiQuery provider params) "apikey" = apikey provider
  /\ (k <> "apikey" -> hasOwnProperty (getProp params "parameters") k = true ->
      getProp (apiQuery provider params) k = getProp (getProp params "parameters") k)
  /\ (k = "function" \/ k = "symbol" \/ k = "interval" ->
      hasOwnProperty (getProp params "parameters") k = false ->
      getProp (apiQuery provider params) k = getProp params k).
Proof.
  intros Hnd.
  set (base := [ ("function", getProp params "function"); ("symbol", getProp params "symbol");
                 ("interval", getProp params "interval") ]).
  assert (Hq : forall k0, getProp (apiQuery provider params) k0
            = match assoc k0 (setProp (spread base (getProp params "parameters")) "apikey"
                                (apikey provider)) with
              | Some x => x
              | None => VUndefined
              end) by reflexivity.
  assert (Hother : forall k0, k0 <> "apikey" ->
            getProp (apiQuery provider params) k0
            = match assoc k0 (ownEntries (getProp params "parameters")) with
              | Some x => x
              | None => match assoc k0 base with Some x => x | None => VUndefined end
              end).
  { intros k0 Hk0. rewrite Hq, assoc_setProp_ne by exact Hk0. unfold spread.
    rewrite assoc_spread, assoc_rev by exact Hnd.
    destruct (assoc k0 (ownEntries (getProp params "parameters"))); reflexivity. }
  split; [now rewrite Hq, assoc_setProp_eq|]. split.
  - intros Hk Hown. rewrite (Hother k Hk). unfold hasOwnProperty in Hown.
    generalize dependent (getProp params "parameters"). intros P _ _ _ Hown.
    unfold getProp. destruct (assoc k (ownEntries P)); [reflexivity|discriminate].
  - intros Hk Hown.
    assert (Hne : k <> "apikey") by (destruct Hk as [->|[->| ->]]; discriminate).
    rewrite (Hother k Hne). unfold hasOwnProperty in Hown.
    destruct (assoc k (ownEntries (getProp params "parameters"))); [discriminate|].
    destruct Hk as [->|[->| ->]]; reflexivity.
Qed.

(** X9. The fingerprint of a helper's request is made of its symbol and
    interval only, so the eleven helpers share one cache entry per symbol and
    interval: a series cached by one of them is what any other returns, with
    no query to the provider. *)
Theorem helpers_share_cache_entry (symbol0 interval0 time_period series_type : string)
    (p q entry : value) (w : World) :
  In p (helperRequests symbol0 interval0 time_period series_type) ->
  In q (helperRequests symbol0 interval0 time_period series_type) ->
  generateCacheKey p = "indicator:interval:" +:+ interval0 +:+ "|symbol:" +:+ symbol0
  /\ generateCacheKey q = generateCacheKey p
  /\ (freshEntry w (generateCacheKey p) entry ->
      fst (getTechnicalIndicator provider q false w) = getProp entry "data"
      /\ requests (snd (getTechnicalIndicator provider q false w)) = requests w).
Proof.
  intros Hp Hq.
  assert (Hkey : forall r, In r (helperRequests symbol0 interval0 time_period series_type) ->
            generateCacheKey r
            = "indicator:interval:" +:+ interval0 +:+ "|symbol:" +:+ symbol0).
  { intros r Hr. unfold helperRequests in Hr. simpl in Hr.
    repeat (destruct Hr as [<-|Hr]; [reflexivity|]). destruct Hr. }
  split; [now apply Hkey|]. split; [now rewrite !Hkey|].
  intros Hfresh. rewrite (Hkey p Hp), <- (Hkey q Hq) in Hfresh.
  pose proof (getCachedIndicatorEntry_fresh _ _ _ Hfresh) as Hentry.
  destruct Hfresh as (_ & _ & _ & _ & _ & _ & Htruthy).
  pose proof (getCachedIndicatorEntry_frame (generateCacheKey q) w) as (_ & _ & Hreq).
  unfold getTechnicalIndicator. simpl negb. cbv iota.
  destruct (getCachedIndicatorEntry (generateCacheKey q) w) as [cachedEntry w1].
  simpl in *. subst cachedEntry. rewrite Htruthy. simpl. auto.
Qed.

(** X10. The query a helper sends holds the function, the symbol, the
    interval and the API key only: the time period and the series type given
    to the helper are not part of it. *)
Theorem helper_query_has_four_fields (symbol0 interval0 time_period series_type : string)
    (p : value) :
  In p (helperRequests symbol0 interval0 time_period series_type) ->
  apiQuery provider p
  = VObj [ ("function", getProp p "function"); ("symbol", VStr symbol0);
           ("interval", VStr interval0); ("apikey", apikey provider) ].
Proof.
  intros Hp. unfold helperRequests in Hp. simpl in Hp.
  repeat (destruct Hp as [<-|Hp]; [reflexivity|]). destruct Hp.
Qed.

End QueryFacts.

Section FetchThenHit.
Context {rt : JSRuntime}.
Variable provider : Provider.

(** The TTL of the table is at least five minutes and at most thirty days
    and an hour. *)
Lemma ttlSecondsFor_bounds (interval0 : value) :
  (300 <= ttlSecondsFor interval0 <= 2595600)%Z.
Proof.
  unfold ttlSecondsFor.
  repeat match goal with |- context [if ?b then _ else _] => destruct b end; lia.
Qed.

(** After a fetch that succeeded, ready client or not, the series is in the
    store and the clock has not moved. *)
Lemma successful_fetch_store (params data d : value) (forceRefresh : bool) (w : World) :
  forceRefresh = true
    \/ truthy (fst (getCachedIndicatorEntry (generateCacheKey params) w)) = false ->
  http_get provider (apiQuery provider params) = Normal data ->
  invalidResponse data = false ->
  findIndicatorData data = Normal (Some d) ->
  kv (redis (snd (getTechnicalIndicator provider params forceRefresh w)))
    !! generateCacheKey params
  = Some (cacheEntryText d (storedMetadata data) (clock w),
          (clock w + ttlSecondsFor (getProp params "interval"))%Z)
  /\ clock (snd (getTechnicalIndicator provider params forceRefresh w)) = clock w.
Proof.
  intros Hpath Hhttp Hvalid Hfind.
  destruct (getTechnicalIndicator_fetches provider params forceRefresh w Hpath)
    as (w0 & (Hr & Hc & _) & ->).
  destruct (fetchFresh_accepted provider params data d (generateCacheKey params) w0
              Hhttp Hvalid Hfind) as (w3 & (Hr3 & Hc3 & _) & ->).
  simpl in Hr3, Hc3. simpl snd.
  destruct (publishIndicatorUpdate_frame
              (VObj [ ("cacheKey", VStr (generateCacheKey params));
                      ("indicatorType", getProp params "function");
                      ("symbol", getProp params "symbol");
                      ("interval", getProp params "interval");
                      ("parameters", params);
                      ("lastRefreshed",
                       getProp (js_or (getProp data "Meta Data") (VObj []))
                         "3: Last Refreshed");
                      ("fetchTime", VStr (toISOString (clock w0))) ])
              (setCachedIndicatorData (generateCacheKey params) d (storedMetadata data)
                 (ttlSecondsFor (getProp params "interval")) w3)) as (Hkv & _ & Hclock & _).
  rewrite Hkv, Hclock. simpl. rewrite lookup_insert_eq, <- Hc3, <- Hc. split; reflexivity.
Qed.

(** X11. After a fetch that succeeded (the answer passed the validation and
    its data block was found by the search of line 77 without a throw), a
    second call for the same request within the TTL is served from the cache: it returns the data the stored
    text reads back to and sends no query, whether or not the update could
    be published. *)
Theorem second_call_is_served_from_cache (params data d entry : value)
    (forceRefresh : bool) (dt : Z) (w : World) :
  forceRefresh = true
    \/ truthy (fst (getCachedIndicatorEntry (generateCacheKey params) w)) = false ->
  http_get provider (apiQuery provider params) = Normal data ->
  invalidResponse data = false ->
  findIndicatorData data = Normal (Some d) ->
  JSON_parse (cacheEntryText d (storedMetadata data) (clock w)) = Some entry ->
  truthy entry = true ->
  (0 <= dt < ttlSecondsFor (getProp params "interval"))%Z ->
  let w1 := afterSeconds dt (snd (getTechnicalIndicator provider params forceRefresh w)) in
  fst (getTechnicalIndicator provider params false w1) = getProp entry "data"
  /\ requests (snd (getTechnicalIndicator provider params false w1)) = requests w1.
Proof.
  intros Hpath Hhttp Hvalid Hfind Hparse Htruthy [_ Hdt] w1.
  destruct (successful_fetch_store params data d forceRefresh w Hpath Hhttp Hvalid Hfind)
    as [Hkv Hclock].
  assert (Hentry : fst (getCachedIndicatorEntry (generateCacheKey params) w1) = entry).
  { unfold getCachedIndicatorEntry. rewrite redis_get_console. unfold redis_get, w1. simpl.
    rewrite Hkv, Hclock.
    assert (H : (clock w + dt <? clock w + ttlSecondsFor (getProp params "interval"))%Z = true)
      by (apply Z.ltb_lt; lia).
    rewrite H, cacheEntryText_not_empty, Hparse. reflexivity. }
  pose proof (getCachedIndicatorEntry_frame (generateCacheKey params) w1) as (_ & _ & Hreq).
  unfold getTechnicalIndicator. simpl negb. cbv iota.
  destruct (getCachedIndicatorEntry (generateCacheKey params) w1) as [cachedEntry w2].
  simpl in *. subst cachedEntry. rewrite Htruthy. simpl. auto.
Qed.

End FetchThenHit.

(** ** Witnesses of the cache and fetcher properties *)

Lemma cache_write_then_read_witness :
  fst (@getCachedData sampleRt (keyOf smaFetch)
         (afterSeconds 10
            (@setCachedIndicatorData sampleRt (keyOf smaFetch) sampleSeries sampleMetadata
               90000 emptyWorld)))
  = sampleSeries.
Proof.
  refine (proj2 (@cache_write_then_read sampleRt (keyOf smaFetch) sampleSeries sampleMetadata
                   sampleEntry 90000 10 emptyWorld _ _ _)).
  - lia.
  - vm_compute. reflexivity.
  - reflexivity.
Defined.

Lemma cache_entry_expires_witness :
  fst (@getCachedData sampleRt (keyOf smaFetch)
         (afterSeconds 90000
            (@setCachedIndicatorData sampleRt (keyOf smaFetch) sampleSeries sampleMetadata
               90000 emptyWorld)))
  = VNull.
Proof.
  refine (proj2 (@cache_entry_expires sampleRt (keyOf smaFetch) sampleSeries sampleMetadata
                   90000 90000 emptyWorld _)).
  lia.
Defined.

Lemma cache_write_is_local_witness :
  redis_get (@setCachedIndicatorData sampleRt (keyOf smaFetch) sampleSeries sampleMetadata
               90000 brokenWorld) (keyOf indicatorB)
  = redis_get brokenWorld (keyOf indicatorB).
Proof.
  refine (proj1 (proj2 (@cache_write_is_local sampleRt (keyOf smaFetch) (keyOf indicatorB)
                          sampleSeries sampleMetadata 90000 brokenWorld _))).
  vm_compute. discriminate.
Defined.

Lemma malformed_entry_reads_as_absent_witness :
  fst (@getCachedIndicatorEntry sampleRt (keyOf smaFetch) brokenWorld) = VNull.
Proof.
  refine (proj1 (@malformed_entry_reads_as_absent sampleRt (keyOf smaFetch) "oops"
                   brokenWorld _ _)).
  - vm_compute. reflexivity.
  - reflexivity.
Defined.

Lemma one_query_per_fetch_witness :
  requests (snd (@getTechnicalIndicator sampleRt (constantProvider rateLimitedResponse)
                   smaFetch false brokenWorld))
  = [ @apiQuery (constantProvider rateLimitedResponse) smaFetch ].
Proof.
  refine (@one_query_per_fetch sampleRt (constantProvider rateLimitedResponse) smaFetch false
            brokenWorld _).
  right. vm_compute. reflexivity.
Defined.

Lemma successful_fetch_caches_and_publishes_witness :
  fst (@getTechnicalIndicator sampleRt (constantProvider smaResponse) smaFetch true emptyWorld)
  = sampleSeries.
Proof.
  refine (proj1 (@successful_fetch_caches_and_publishes sampleRt (constantProvider smaResponse)
                   smaFetch smaResponse sampleSeries true emptyWorld _ _ _ _ _ _ _ _ _));
    try reflexivity.
  left. reflexivity.
Defined.

Lemma unpublished_fetch_keeps_cache_write_witness :
  fst (@getTechnicalIndicator sampleRt (constantProvider smaResponse) smaFetch true
         notReadyWorld)
  = sampleSeries.
Proof.
  refine (proj1 (@unpublished_fetch_keeps_cache_write sampleRt (constantProvider smaResponse)
                   smaFetch smaResponse sampleSeries true notReadyWorld _ _ _ _ _));
    try reflexivity.
  left. reflexivity.
Defined.

Lemma query_fields_witness :
  getProp (@apiQuery (constantProvider smaResponse) smaFetch) "apikey" = VStr "demo".
Proof.
  refine (proj1 (@query_fields (constantProvider smaResponse) smaFetch "time_period" _)).
  apply (bool_decide_unpack _). vm_compute. exact I.
Defined.

Lemma helpers_share_cache_entry_witness :
  @generateCacheKey sampleRt (requestEMA "AAPL" "daily" "20" "close")
  = @generateCacheKey sampleRt (requestSMA "AAPL" "daily" "20" "close").
Proof.
  refine (proj1 (proj2 (@helpers_share_cache_entry sampleRt (constantProvider smaResponse)
                          "AAPL" "daily" "20" "close"
                          (requestSMA "AAPL" "daily" "20" "close")
                          (requestEMA "AAPL" "daily" "20" "close") VNull emptyWorld _ _))).
  - left. reflexivity.
  - right. left. reflexivity.
Defined.

Lemma helper_query_has_four_fields_witness :
  @apiQuery (constantProvider smaResponse) (requestSMA "AAPL" "daily" "20" "close")
  = VObj [ ("function", VStr "SMA"); ("symbol", VStr "AAPL"); ("interval", VStr "daily");
           ("apikey", VStr "demo") ].
Proof.
  refine (@helper_query_has_four_fields (constantProvider smaResponse) "AAPL" "daily" "20"
            "close" (requestSMA "AAPL" "daily" "20" "close") _).
  left. reflexivity.
Defined.

Lemma second_call_is_served_from_cache_witness :
  fst (@getTechnicalIndicator sampleRt (constantProvider smaResponse) smaFetch false
         (afterSeconds 60
            (snd (@getTechnicalIndicator sampleRt (constantProvider smaResponse) smaFetch true
                    emptyWorld))))
  = sampleSeries.
Proof.
  refine (proj1 (@second_call_is_served_from_cache sampleRt (constantProvider smaResponse)
                   smaFetch smaResponse sampleSeries sampleEntry true 60 emptyWorld
                   _ _ _ _ _ _ _)); try reflexivity.
  - left. reflexivity.
  - change (ttlSecondsFor (getProp smaFetch "interval")) with 90000%Z. lia.
Defined.

(** ** The indicator stream *)

Section StreamFacts.
Context {rt : JSRuntime}.



End StreamFacts.


(** ** The scheduler: stopping, stability, running jobs *)

Section SchedulerFacts.
Context {rt : JSRuntime}.
Variable cronPatternFor : value -> option string.

(** X13. Stopping the scheduler empties the map of jobs and stops the task
    of every job it held; a task that no job referred to is left as it was. *)
Theorem stopScheduler_stops_every_job (st : Scheduler) (k : string) (t : nat) :
  schedulerWf st ->
  scheduledJobs (stopScheduler st) = ∅
  /\ (scheduledJobs st !! k = Some t ->
      exists task, tasks st !! t = Some task
                   /\ tasks (stopScheduler st) !! t = Some (stopTask task))
  /\ ((forall k', scheduledJobs st !! k' <> Some t) ->
      tasks (stopScheduler st) !! t = tasks st !! t).
Proof.
  intros Hwf. unfold stopScheduler.
  pose proof (prune_pruned ∅ st (scheduledJobs st)) as H.
  split; [|split].
  - apply map_eq. intros k0. rewrite lookup_empty.
    destruct (scheduledJobs st !! k0) as [t0|] eqn:E.
    + apply (pr_gone _ _ _ _ H); [apply not_elem_of_empty|]. rewrite E. eauto.
    + rewrite (pr_kept _ _ _ _ H); [exact E|]. now right.
  - intros Hk. destruct (wf_job_task _ Hwf k t Hk) as [task Htask].
    exists task. split; [exact Htask|].
    rewrite (pr_stopped _ _ _ _ H k t (not_elem_of_empty k) Hk). now rewrite Htask.
  - intros Hfree. apply (pr_untouched _ _ _ _ H). intros k' Hk'. now apply Hfree in Hk'.
Qed.

Lemma scheduleAll_keys (inds : list value) : forall K s k,
  k ∈ fst (fold_left (scheduleOne cronPatternFor) inds (K, s))
  <-> k ∈ K \/ k ∈ map generateCacheKey inds.
Proof.
  induction inds as [|ind inds IH]; intros K s k.
  - simpl. split; [auto|]. intros [H|H]; [exact H|]. now apply elem_of_nil in H.
  - change (fold_left (scheduleOne cronPatternFor) (ind :: inds) (K, s))
      with (fold_left (scheduleOne cronPatternFor) inds (scheduleOne cronPatternFor (K, s) ind)).
    assert (Hfst : fst (scheduleOne cronPatternFor (K, s) ind) = {[generateCacheKey ind]} ∪ K).
    { unfold scheduleOne. destruct (scheduledJobs s !! generateCacheKey ind); [reflexivity|].
      destruct (scheduleIndicatorFetch cronPatternFor ind s) as [[task|] st1]; reflexivity. }
    destruct (scheduleOne cronPatternFor (K, s) ind) as [K1 s1]. simpl in Hfst. subst K1.
    rewrite IH, elem_of_union, elem_of_singleton. simpl. rewrite elem_of_cons. tauto.
Qed.

(** The jobs of the pruned map are the jobs with a key of [K]. *)
Lemma prune_lookup (K : gset string) (st1 : Scheduler) (k : string) :
  scheduledJobs (map_fold (pruneOne K) st1 (scheduledJobs st1)) !! k
  = if decide (k ∈ K) then scheduledJobs st1 !! k else None.
Proof.
  pose proof (prune_pruned K st1 (scheduledJobs st1)) as H.
  case_decide as HK.
  - apply (pr_kept _ _ _ _ H). now left.
  - destruct (scheduledJobs st1 !! k) as [t|] eqn:E.
    + apply (pr_gone _ _ _ _ H); [exact HK|]. rewrite E. eauto.
    + rewrite (pr_kept _ _ _ _ H); [exact E|]. now right.
Qed.

Lemma tick_job_keys (inds : list value) (st : Scheduler) (k : string) :
  schedulerWf st ->
  (is_Some (scheduledJobs (discoveryTick cronPatternFor (Normal inds) st) !! k) ->
   k ∈ map generateCacheKey inds)
  /\ ((forall ind, ind ∈ inds -> is_Some (cronPatternFor ind)) ->
      k ∈ map generateCacheKey inds ->
      is_Some (scheduledJobs (discoveryTick cronPatternFor (Normal inds) st) !! k)).
Proof.
  intros Hwf. unfold discoveryTick.
  pose proof (scheduleAll_keys inds ∅ st k) as HK.
  split.
  - destruct (fold_left (scheduleOne cronPatternFor) inds (∅, st)) as [K1 st1].
    simpl in HK. rewrite prune_lookup. case_decide as Hin.
    + intros _. apply HK in Hin as [Hin|Hin]; [now apply not_elem_of_empty in Hin|exact Hin].
    + intros [x Hx]. discriminate.
  - intros Hsch Hin.
    pose proof (scheduleAll_scheduled cronPatternFor inds ∅ st Hwf Hsch) as H1.
    destruct (fold_left (scheduleOne cronPatternFor) inds (∅, st)) as [K1 st1].
    simpl in HK, H1. rewrite prune_lookup. rewrite decide_True by (apply HK; now right).
    apply (sch_all _ _ _ _ _ H1 k Hin).
Qed.

(** X14. After a discovery tick the map of jobs holds no fingerprint outside
    the scan; when a task can be scheduled for each indicator of the scan,
    its keys are exactly the fingerprints of the scan. *)
Theorem jobs_after_tick_are_the_scan (inds : list value) (st : Scheduler) (k : string) :
  schedulerWf st ->
  (is_Some (scheduledJobs (discoveryTick cronPatternFor (Normal inds) st) !! k) ->
   k ∈ map generateCacheKey inds)
  /\ ((forall ind, ind ∈ inds -> is_Some (cronPatternFor ind)) ->
      k ∈ map generateCacheKey inds ->
      is_Some (scheduledJobs (discoveryTick cronPatternFor (Normal inds) st) !! k)).
Proof. apply tick_job_keys. Qed.

Lemma scheduleAll_noop (inds : list value) : forall K s,
  (forall ind, ind ∈ inds -> is_Some (scheduledJobs s !! generateCacheKey ind)) ->
  snd (fold_left (scheduleOne cronPatternFor) inds (K, s)) = s.
Proof.
  induction inds as [|ind inds IH]; intros K s Hall; [reflexivity|].
  change (fold_left (scheduleOne cronPatternFor) (ind :: inds) (K, s))
    with (fold_left (scheduleOne cronPatternFor) inds (scheduleOne cronPatternFor (K, s) ind)).
  destruct (Hall ind (list_elem_of_here _ _)) as [t Ht].
  unfold scheduleOne at 2. rewrite Ht. apply IH.
  intros i Hi. apply Hall. now apply list_elem_of_further.
Qed.

Lemma prune_noop (K : gset string) (s : Scheduler) (m : gmap string nat) :
  (forall k, is_Some (m !! k) -> k ∈ K) -> map_fold (pruneOne K) s m = s.
Proof.
  apply (map_fold_weak_ind
           (fun r m0 => (forall k, is_Some (m0 !! k) -> k ∈ K) -> r = s)).
  - reflexivity.
  - intros i x m0 r Hi IH Hall.
    assert (Hr : r = s).
    { apply IH. intros k Hk. apply Hall. rewrite lookup_insert_ne; [exact Hk|].
      intros <-. rewrite Hi in Hk. now destruct Hk. }
    subst r. unfold pruneOne. rewrite decide_True; [reflexivity|].
    apply Hall. rewrite lookup_insert_eq. eauto.
Qed.

(** X15. A discovery tick is stable: running it again on the same scan
    changes nothing, no task is created, stopped or replaced. *)
Theorem discoveryTick_is_stable (inds : list value) (st : Scheduler) :
  schedulerWf st ->
  (forall ind, ind ∈ inds -> is_Some (cronPatternFor ind)) ->
  discoveryTick cronPatternFor (Normal inds)
    (discoveryTick cronPatternFor (Normal inds) st)
  = discoveryTick cronPatternFor (Normal inds) st.
Proof.
  intros Hwf Hsch.
  set (st' := discoveryTick cronPatternFor (Normal inds) st).
  assert (Hjobs : forall k, is_Some (scheduledJobs st' !! k) <-> k ∈ map generateCacheKey inds).
  { intros k. destruct (tick_job_keys inds st k Hwf) as [H1 H2].
    split; [exact H1|now apply H2]. }
  unfold discoveryTick at 1.
  pose proof (scheduleAll_keys inds ∅ st') as HK.
  pose proof (scheduleAll_noop inds ∅ st') as Hnoop.
  destruct (fold_left (scheduleOne cronPatternFor) inds (∅, st')) as [K1 st1].
  simpl in HK, Hnoop. rewrite Hnoop.
  - apply prune_noop. intros k Hk. apply HK. right. now apply Hjobs.
  - intros ind Hind. apply Hjobs. apply list_elem_of_fmap. eauto.
Qed.

Lemma scheduleOne_running (K : gset string) (s : Scheduler) (ind : value) :
  schedulerWf s -> jobsRunning s ->
  jobsRunning (snd (scheduleOne cronPatternFor (K, s) ind)).
Proof.
  intros Hwf Hrun. unfold scheduleOne.
  destruct (scheduledJobs s !! generateCacheKey ind) as [t0|] eqn:Hjob; [exact Hrun|].
  unfold scheduleIndicatorFetch. destruct (cronPatternFor ind) as [p|]; [|exact Hrun].
  unfold jobsRunning. simpl. intros k t. rewrite lookup_insert. case_decide as Hk.
  - intros [= <-]. rewrite lookup_insert_eq. eauto.
  - intros Hkt. destruct (Hrun k t Hkt) as (task & Htask & Hr).
    exists task. split; [|exact Hr]. rewrite lookup_insert_ne; [exact Htask|].
    intros <-. assert (nextTask s < nextTask s); [|lia].
    apply (wf_task_bound _ Hwf). eauto.
Qed.

Lemma scheduleAll_running (inds : list value) : forall K s,
  schedulerWf s -> jobsRunning s ->
  jobsRunning (snd (fold_left (scheduleOne cronPatternFor) inds (K, s))).
Proof.
  induction inds as [|ind inds IH]; intros K s Hwf Hrun; [exact Hrun|].
  change (fold_left (scheduleOne cronPatternFor) (ind :: inds) (K, s))
    with (fold_left (scheduleOne cronPatternFor) inds (scheduleOne cronPatternFor (K, s) ind)).
  pose proof (scheduleOne_wf cronPatternFor K s ind Hwf) as Hwf1.
  pose proof (scheduleOne_running K s ind Hwf Hrun) as Hrun1.
  destruct (scheduleOne cronPatternFor (K, s) ind) as [K1 s1]. now apply IH.
Qed.

Lemma prune_running (K : gset string) (st1 : Scheduler) :
  schedulerWf st1 -> jobsRunning st1 ->
  jobsRunning (map_fold (pruneOne K) st1 (scheduledJobs st1)).
Proof.
  intros Hwf Hrun k t. rewrite prune_lookup. case_decide as HK; [|discriminate].
  intros Hk. destruct (Hrun k t Hk) as (task & Htask & Hr).
  exists task. split; [|exact Hr].
  rewrite (pr_untouched _ _ _ _ (prune_pruned K st1 (scheduledJobs st1))); [exact Htask|].
  intros k' Hk'. now rewrite (wf_job_inj _ Hwf _ _ _ Hk' Hk).
Qed.

End SchedulerFacts.

(** X16. Whatever the scans were and whatever could be scheduled, every job
    in the map refers to a running task: a task that was stopped is never
    left in the map. *)
Theorem reachable_jobs_are_running {rt : JSRuntime} (st : Scheduler) :
  reachable st -> jobsRunning st.
Proof.
  intros Hreach.
  assert (H : schedulerWf st /\ jobsRunning st); [|exact (proj2 H)].
  induction Hreach as [|cronPatternFor scan st Hreach [Hwf Hrun]|st Hreach [Hwf Hrun]].
  - split; [apply initialScheduler_wf|]. intros k t Hk. simpl in Hk.
    now rewrite lookup_empty in Hk.
  - split; [now apply discoveryTick_wf|].
    destruct scan as [inds|m]; [|exact Hrun]. unfold discoveryTick.
    pose proof (scheduleAll_wf cronPatternFor inds ∅ st Hwf) as Hwf1.
    pose proof (scheduleAll_running cronPatternFor inds ∅ st Hwf Hrun) as Hrun1.
    destruct (fold_left (scheduleOne cronPatternFor) inds (∅, st)) as [K1 st1].
    now apply prune_running.
  - split; [now apply prune_wf|]. now apply prune_running.
Qed.

Lemma stopScheduler_stops_every_job_witness :
  scheduledJobs (stopScheduler afterTick2) = ∅.
Proof.
  refine (proj1 (@stopScheduler_stops_every_job afterTick2 (keyOf indicatorB) 1 _)).
  apply (@reachable_wf sample_base). apply reachable_tick, reachable_tick, reachable_start.
Defined.

Lemma jobs_after_tick_are_the_scan_witness :
  is_Some (scheduledJobs afterTick1 !! keyOf indicatorA).
Proof.
  refine (proj2 (@jobs_after_tick_are_the_scan sample_base dailyPattern
                   [indicatorA; indicatorB] initialScheduler (keyOf indicatorA) _) _ _).
  - apply initialScheduler_wf.
  - apply dailyPattern_total.
  - apply (bool_decide_unpack _). vm_compute. exact I.
Defined.

Lemma discoveryTick_is_stable_witness :
  @discoveryTick sample_base dailyPattern (Normal [indicatorA; indicatorB]) afterTick1
  = afterTick1.
Proof.
  refine (@discoveryTick_is_stable sample_base dailyPattern [indicatorA; indicatorB]
            initialScheduler _ _).
  - apply initialScheduler_wf.
  - apply dailyPattern_total.
Defined.

Lemma reachable_jobs_are_running_witness :
  exists task, tasks afterTick2 !! 1 = Some task /\ running task = true.
Proof.
  refine (@reachable_jobs_are_running sample_base afterTick2 _ (keyOf indicatorB) 1 _).
  - apply reachable_tick, reachable_tick, reachable_start.
  - vm_compute. reflexivity.
Defined.

(** ** The scan of the active indicators *)

Section ScanFacts.
Context {rt : JSRuntime}.

Lemma truthy_string_default (s : option string) :
  String.eqb (default "" s) "" = negb (truthy_string s).
Proof. destruct s as [t|]; simpl; [|reflexivity]. now destruct (String.eqb t ""). Qed.

(** One step of the loop: the map is left alone when the key is taken or the
    condition lacks a symbol or an interval, and gets one entry otherwise. *)
Lemma addIndicator_step (acc : list (string * value)) (cond : Condition) :
  addIndicator acc cond
  = match assoc (indicatorKey cond) acc with
    | Some _ => acc
    | None => if hasSymbolAndInterval cond
              then acc ++ [(indicatorKey cond, indicatorOf cond)] else acc
    end.
Proof.
  unfold addIndicator, hasSymbolAndInterval. cbv zeta.
  destruct (assoc (indicatorKey cond) acc); [reflexivity|].
  rewrite !truthy_string_default.
  destruct (truthy_string (symbol cond)), (truthy_string (interval cond)); reflexivity.
Qed.

Lemma assoc_is_Some_iff (k : string) (o : list (string * value)) :
  is_Some (assoc k o) <-> k ∈ map fst o.
Proof.
  split.
  - intros [v Hv]. apply assoc_Some_In in Hv. apply list_elem_of_In.
    change k with (fst (k, v)). now apply in_map.
  - intros Hin. destruct (assoc k o) eqn:E; [eauto|].
    apply assoc_None_notin in E. exfalso. apply E. now apply list_elem_of_In.
Qed.

Lemma fold_addIndicator_scanned (rows : list Condition) : forall acc,
  NoDup (map fst acc) -> scanned acc rows (fold_left addIndicator rows acc).
Proof.
  induction rows as [|cond rows IH]; intros acc Hnd.
  - split; auto. intros cond Hc. now apply elem_of_nil in Hc.
  - simpl fold_left.
    assert (Hstep : NoDup (map fst (addIndicator acc cond))
                    /\ (forall kv, kv ∈ acc -> kv ∈ addIndicator acc cond)
                    /\ (forall kv, kv ∈ addIndicator acc cond ->
                          kv ∈ acc \/ (hasSymbolAndInterval cond = true
                                       /\ kv = (indicatorKey cond, indicatorOf cond)))
                    /\ (hasSymbolAndInterval cond = true ->
                        indicatorKey cond ∈ map fst (addIndicator acc cond))).
    { rewrite addIndicator_step.
      destruct (assoc (indicatorKey cond) acc) as [v|] eqn:E.
      - repeat split; auto. intros _. apply assoc_is_Some_iff. rewrite E. eauto.
      - destruct (hasSymbolAndInterval cond) eqn:Hs; [|repeat split; auto; discriminate].
        repeat split.
        + rewrite map_app. apply NoDup_app. split; [exact Hnd|]. split.
          * intros k Hk Hk'. simpl in Hk'. apply list_elem_of_singleton in Hk'. subst k.
            apply assoc_is_Some_iff in Hk. rewrite E in Hk. now destruct Hk.
          * simpl. apply NoDup_singleton.
        + intros kv Hkv. apply elem_of_app. now left.
        + intros kv Hkv. apply elem_of_app in Hkv as [Hkv|Hkv]; [now left|].
          apply list_elem_of_singleton in Hkv. now right.
        + intros _. rewrite map_app. apply elem_of_app. right. simpl.
          apply list_elem_of_singleton. reflexivity. }
    destruct Hstep as (Hnd1 & Hkeep1 & Hsound1 & Hcomp1).
    destruct (IH (addIndicator acc cond) Hnd1) as [Hnd2 Hkeep2 Hsound2 Hcomp2].
    split.
    + exact Hnd2.
    + intros kv Hkv. auto.
    + intros kv Hkv. destruct (Hsound2 kv Hkv) as [Hin|(c & Hc & Hs & Heq)].
      * destruct (Hsound1 kv Hin) as [Hacc|[Hs Heq]]; [now left|].
        right. exists cond. split; [apply list_elem_of_here|auto].
      * right. exists c. split; [now apply list_elem_of_further|auto].
    + intros c Hc Hs. apply elem_of_cons in Hc as [->|Hc]; [|now apply Hcomp2].
      pose proof (Hcomp1 Hs) as Hin. apply list_elem_of_fmap in Hin as (kv & Hk & Hkv).
      apply list_elem_of_fmap. exists kv. split; [exact Hk|]. now apply Hkeep2.
Qed.

(** X17. The scan returns one indicator per key: every indicator returned
    is the record of a condition that has a symbol and an interval and is
    linked to a block of an active strategy, and every such condition has an
    indicator with its key in the result. A condition without symbol or
    interval, or linked to inactive strategies only, contributes nothing. *)
Theorem scan_returns_active_indicators (db : Database) :
  (forall ind, ind ∈ getTechnicalActiveIndicators db ->
     exists cond b, cond ∈ conditions db /\ b ∈ blocksOfCondition db cond
                    /\ blockActive db b = true /\ hasSymbolAndInterval cond = true
                    /\ ind = indicatorOf cond)
  /\ (forall cond b, cond ∈ conditions db -> b ∈ blocksOfCondition db cond ->
        blockActive db b = true -> hasSymbolAndInterval cond = true ->
        exists cond', cond' ∈ conditions db /\ indicatorKey cond' = indicatorKey cond
                      /\ indicatorOf cond' ∈ getTechnicalActiveIndicators db)
  /\ NoDup (map fst (fold_left addIndicator (activeConditions db) [])).
Proof.
  unfold getTechnicalActiveIndicators, technicalIndicatorsOf.
  destruct (fold_addIndicator_scanned (activeConditions db) [] (NoDup_nil_2))
    as [Hnd _ Hsound Hcomp].
  assert (Hactive : forall cond, cond ∈ activeConditions db <->
            cond ∈ conditions db
            /\ exists b, b ∈ blocksOfCondition db cond /\ blockActive db b = true).
  { intros cond. unfold activeConditions. rewrite list_elem_of_filter.
    rewrite existsb_exists. split.
    - intros [(b & Hb & Hact) Hc]. split; [exact Hc|]. exists b.
      split; [now apply list_elem_of_In|exact Hact].
    - intros [Hc (b & Hb & Hact)]. split; [|exact Hc]. exists b.
      split; [now apply list_elem_of_In|exact Hact]. }
  split; [|split].
  - intros ind Hind. apply list_elem_of_fmap in Hind as (kv & -> & Hkv).
    destruct (Hsound kv Hkv) as [Hnil|(cond & Hc & Hs & ->)];
      [now apply elem_of_nil in Hnil|].
    apply Hactive in Hc as [Hc (b & Hb & Hact)]. exists cond, b. auto.
  - intros cond b Hc Hb Hact Hs.
    assert (Hin : cond ∈ activeConditions db) by (apply Hactive; eauto).
    pose proof (Hcomp cond Hin Hs) as Hkey.
    apply list_elem_of_fmap in Hkey as ([k v] & Hk & Hkv). simpl in Hk. subst k.
    destruct (Hsound _ Hkv) as [Hnil|(cond' & Hc' & Hs' & [= Hkeq ->])];
      [now apply elem_of_nil in Hnil|].
    exists cond'. split; [now apply Hactive in Hc' as [? _]|]. split; [now symmetry|].
    apply list_elem_of_fmap. exists (indicatorKey cond, indicatorOf cond'). split; auto.
  - exact Hnd.
Qed.

Lemma indicatorOf_key (cond : Condition) :
  hasSymbolAndInterval cond = true ->
  (is_object (parameters cond) && negb (nullish (parameters cond)))%bool = true ->
  generateCacheKey (indicatorOf cond) = generateCacheKey (conditionCacheKeyParams cond).
Proof.
  intros Hs Hobj. apply generateCacheKey_ext. intros k Hk.
  unfold hasSymbolAndInterval in Hs. apply andb_true_iff in Hs as [Hsym Hint].
  unfold indicatorOf, conditionCacheKeyParams. rewrite Hobj.
  destruct (symbol cond) as [s|]; [|discriminate].
  destruct (interval cond) as [i|]; [|discriminate].
  unfold sortedFieldNames in Hk. simpl in Hk.
  destruct Hk as [<-|[<-|[<-|[<-|[<-|[]]]]]]; reflexivity.
Qed.

(** X18. Where the scheduler and the evaluator agree on the cache key. For
    a condition with a symbol, an interval and parameters that are an
    object, the indicator record built from the condition has the key the
    evaluator reads for it; so the evaluator's key of an active condition is
    one of the keys of the scan whenever the active conditions that share
    its de-duplication key all build the same record. It need not be
    otherwise: the scan de-duplicates without the data source, which is part
    of the key, and there is a store with an active condition whose key is
    none of the keys of the scan. *)
Theorem scan_key_is_evaluator_key (db : Database) (cond : Condition) :
  hasSymbolAndInterval cond = true ->
  (is_object (parameters cond) && negb (nullish (parameters cond)))%bool = true ->
  generateCacheKey (indicatorOf cond) = generateCacheKey (conditionCacheKeyParams cond)
  /\ (cond ∈ activeConditions db ->
      (forall c', c' ∈ activeConditions db -> indicatorKey c' = indicatorKey cond ->
                  indicatorOf c' = indicatorOf cond) ->
      generateCacheKey (conditionCacheKeyParams cond)
        ∈ map generateCacheKey (getTechnicalActiveIndicators db))
  /\ (exists db' c',
        c' ∈ activeConditions db' /\ hasSymbolAndInterval c' = true
        /\ (is_object (parameters c') && negb (nullish (parameters c')))%bool = true
        /\ generateCacheKey (conditionCacheKeyParams c')
             ∉ map generateCacheKey (getTechnicalActiveIndicators db')).
Proof.
  intros Hs Hobj. split; [now apply indicatorOf_key|]. split.
  - intros Hactive Hsame.
    destruct (fold_addIndicator_scanned (activeConditions db) [] (NoDup_nil_2))
      as [_ _ Hsound Hcomp].
    pose proof (Hcomp cond Hactive Hs) as Hkey.
    apply list_elem_of_fmap in Hkey as ([k v] & Hk & Hkv). simpl in Hk. subst k.
    destruct (Hsound _ Hkv) as [Hnil|(c' & Hc' & _ & [= Hkeq ->])];
      [now apply elem_of_nil in Hnil|].
    rewrite <- (indicatorOf_key cond Hs Hobj), <- (Hsame c' Hc' (eq_sym Hkeq)).
    apply list_elem_of_fmap. exists (indicatorOf c'). split; [reflexivity|].
    unfold getTechnicalActiveIndicators, technicalIndicatorsOf.
    apply list_elem_of_fmap. exists (indicatorKey cond, indicatorOf c'). split; auto.
  - exists twoSourcesDb, otherSourceCondition. split; [|split; [reflexivity|split; [reflexivity|]]].
    + vm_compute. apply list_elem_of_further, list_elem_of_here.
    + vm_compute. intros H. apply list_elem_of_singleton in H. discriminate H.
Qed.

End ScanFacts.

Lemma scan_key_is_evaluator_key_witness :
  @generateCacheKey sampleRt (conditionCacheKeyParams sampleCondition)
    ∈ map (@generateCacheKey sampleRt) (@getTechnicalActiveIndicators sampleRt sampleDb).
Proof.
  refine (proj1 (proj2 (@scan_key_is_evaluator_key sampleRt sampleDb sampleCondition _ _)) _ _);
    try reflexivity.
  - vm_compute. apply list_elem_of_here.
  - intros c' Hc' _. vm_compute in Hc'. apply list_elem_of_singleton in Hc'. now subst c'.
Defined.

(** ** The evaluator: the dates of a series *)

Lemma string_compare_trans (s1 : string) : forall s2 s3,
  String.compare s1 s2 <> Gt -> String.compare s2 s3 <> Gt -> String.compare s1 s3 <> Gt.
Proof.
  induction s1 as [|a s1 IH]; intros [|b s2] [|c s3]; simpl; try congruence.
  unfold Ascii.compare.
  destruct (N.compare_spec (N_of_ascii a) (N_of_ascii b)),
           (N.compare_spec (N_of_ascii b) (N_of_ascii c)),
           (N.compare_spec (N_of_ascii a) (N_of_ascii c));
    try congruence; try lia.
  apply IH.
Qed.

Lemma string_leb_trans (s1 s2 s3 : string) :
  String.leb s1 s2 = true -> String.leb s2 s3 = true -> String.leb s1 s3 = true.
Proof.
  unfold String.leb. intros H1 H2.
  pose proof (string_compare_trans s1 s2 s3) as H.
  destruct (String.compare s1 s2), (String.compare s2 s3), (String.compare s1 s3);
    try reflexivity; try discriminate; exfalso; apply H; congruence.
Qed.

Lemma string_leb_refl (s : string) : String.leb s s = true.
Proof. now destruct (String.leb_total s s). Qed.

Lemma insert_sorted_Permutation (s : string) (l : list string) :
  Permutation (s :: l) (insert_sorted s l).
Proof.
  induction l as [|x l IH]; simpl; [reflexivity|].
  destruct (String.leb s x); [reflexivity|].
  rewrite <- IH. apply perm_swap.
Qed.

Lemma sort_strings_Permutation (l : list string) : Permutation l (sort_strings l).
Proof.
  induction l as [|x l IH]; simpl; [reflexivity|].
  rewrite <- insert_sorted_Permutation. now constructor.
Qed.

Lemma insert_sorted_sorted (s : string) (l : list string) :
  StronglySorted (fun x y => String.leb x y = true) l ->
  StronglySorted (fun x y => String.leb x y = true) (insert_sorted s l).
Proof.
  induction 1 as [|x l Hs IH Hall]; simpl.
  - constructor; constructor.
  - destruct (String.leb s x) eqn:E.
    + constructor; [now constructor|]. constructor; [exact E|].
      eapply Forall_impl; [exact Hall|]. intros y Hy. simpl in *.
      eapply string_leb_trans; eauto.
    + constructor; [exact IH|].
      apply Forall_forall. intros y Hy.
      rewrite <- insert_sorted_Permutation in Hy.
      apply elem_of_cons in Hy as [->|Hy].
      * destruct (String.leb_total x s) as [H|H]; [exact H|congruence].
      * rewrite Forall_forall in Hall. auto.
Qed.

Lemma sort_strings_sorted (l : list string) :
  StronglySorted (fun x y => String.leb x y = true) (sort_strings l).
Proof.
  induction l as [|x l IH]; simpl; [constructor|]. now apply insert_sorted_sorted.
Qed.

Lemma sorted_app_le {A : Type} (R : A -> A -> Prop) (l1 l2 : list A) :
  StronglySorted R (l1 ++ l2) -> forall x y, x ∈ l1 -> y ∈ l2 -> R x y.
Proof.
  induction l1 as [|a l1 IH]; simpl; intros Hs x y Hx Hy.
  - now apply elem_of_nil in Hx.
  - inversion Hs as [|? ? Hs' Hall]; subst.
    apply elem_of_cons in Hx as [->|Hx]; [|now apply IH].
    rewrite Forall_forall in Hall. apply Hall, elem_of_app. now right.
Qed.

Section DateFacts.
Context {rt : JSRuntime}.

(** The keys of a series, from the greatest down. *)
Lemma sortedDates_elem (data : value) (k : string) :
  k ∈ sortedDates data <-> k ∈ Object_keys data.
Proof.
  unfold sortedDates. rewrite list_elem_of_In, <- in_rev, <- list_elem_of_In.
  now rewrite <- sort_strings_Permutation.
Qed.

Lemma sortedDates_head (data : value) (d : string) (rest : list string) :
  sortedDates data = d :: rest ->
  d ∈ Object_keys data /\ forall k, k ∈ Object_keys data -> String.leb k d = true.
Proof.
  intros Hd. split.
  - apply sortedDates_elem. rewrite Hd. apply list_elem_of_here.
  - intros k Hk. apply sortedDates_elem in Hk. rewrite Hd in Hk.
    unfold sortedDates in Hd. apply (f_equal (@rev string)) in Hd.
    rewrite rev_involutive in Hd. simpl in Hd.
    pose proof (sort_strings_sorted (Object_keys data)) as Hs. rewrite Hd in Hs.
    apply elem_of_cons in Hk as [->|Hk]; [apply string_leb_refl|].
    apply (sorted_app_le _ _ _ Hs); [|apply list_elem_of_here].
    now rewrite list_elem_of_In, <- in_rev, <- list_elem_of_In.
Qed.

Lemma sortedDates_second (data : value) (d p : string) (rest : list string) :
  sortedDates data = d :: p :: rest ->
  p ∈ Object_keys data
  /\ forall k, k ∈ Object_keys data -> k <> d -> String.leb k p = true.
Proof.
  intros Hd. split.
  - apply sortedDates_elem. rewrite Hd. apply list_elem_of_further, list_elem_of_here.
  - intros k Hk Hne. apply sortedDates_elem in Hk. rewrite Hd in Hk.
    unfold sortedDates in Hd. apply (f_equal (@rev string)) in Hd.
    rewrite rev_involutive in Hd. simpl in Hd. rewrite <- app_assoc in Hd.
    pose proof (sort_strings_sorted (Object_keys data)) as Hs. rewrite Hd in Hs.
    apply elem_of_cons in Hk as [->|Hk]; [congruence|].
    apply elem_of_cons in Hk as [->|Hk]; [apply string_leb_refl|].
    apply (sorted_app_le _ _ _ Hs); [|apply list_elem_of_here].
    now rewrite list_elem_of_In, <- in_rev, <- list_elem_of_In.
Qed.

(** X19. The latest value of a series is read at its greatest key, in the
    order of the code units, and the previous value at the greatest of the
    other keys, whatever the order of the keys in the cached object. *)
Theorem latest_and_previous_dates (data : value) :
  (forall v, getLatestIndicatorValue data = Some v ->
     exists d, d ∈ Object_keys data
               /\ (forall k, k ∈ Object_keys data -> String.leb k d = true)
               /\ valueAt data d = Some v)
  /\ (forall v, getPreviousIndicatorValue data = Some v ->
        exists d p, d ∈ Object_keys data /\ p ∈ Object_keys data
                    /\ (forall k, k ∈ Object_keys data -> String.leb k d = true)
                    /\ (forall k, k ∈ Object_keys data -> k <> d -> String.leb k p = true)
                    /\ valueAt data p = Some v).
Proof.
  split; intros v.
  - unfold getLatestIndicatorValue.
    destruct (negb (truthy data) || negb (is_object data))%bool; [discriminate|].
    destruct (sortedDates data) as [|d rest] eqn:Hd; [discriminate|].
    intros Hv. exists d. destruct (sortedDates_head data d rest Hd) as [Hin Hmax]. auto.
  - unfold getPreviousIndicatorValue.
    destruct (negb (truthy data) || negb (is_object data))%bool; [discriminate|].
    destruct (sortedDates data) as [|d [|p rest]] eqn:Hd; try discriminate.
    intros Hv. exists d, p.
    destruct (sortedDates_head data d _ Hd) as [Hin Hmax].
    destruct (sortedDates_second data d p rest Hd) as [Hinp Hsnd]. auto.
Qed.

Lemma sortedDates_length (data : value) :
  length (sortedDates data) = length (Object_keys data).
Proof.
  unfold sortedDates. rewrite length_rev.
  symmetry. apply Permutation_length, sort_strings_Permutation.
Qed.

Lemma getPreviousIndicatorValue_short (data : value) :
  length (Object_keys data) < 2 -> getPreviousIndicatorValue data = None.
Proof.
  intros Hlen. rewrite <- sortedDates_length in Hlen. unfold getPreviousIndicatorValue.
  destruct (negb (truthy data) || negb (is_object data))%bool; [reflexivity|].
  destruct (sortedDates data) as [|d [|p rest]]; try reflexivity. simpl in Hlen. lia.
Qed.

(** X20. A crossing needs two points: a condition whose operator is
    CROSSES_ABOVE or CROSSES_BELOW is not met when the cached series of its
    indicator has fewer than two dates, whatever its target. *)
Theorem crossing_needs_two_points (db : Database) (c : Condition) (w : World) :
  operator c = CROSSES_ABOVE \/ operator c = CROSSES_BELOW ->
  length (Object_keys
            (getProp (fst (getCachedIndicatorEntry
                             (generateCacheKey (conditionCacheKeyParams c)) w)) "data")) < 2 ->
  fst (evaluateCondition db c w) = false.
Proof.
  intros Hop Hlen. unfold evaluateCondition.
  destruct (getCachedIndicatorEntry _ w) as [e w1]. simpl in Hlen.
  destruct (negb (truthy e)); [reflexivity|].
  rewrite (getPreviousIndicatorValue_short _ Hlen).
  destruct (getLatestIndicatorValue _) as [cur|]; [|reflexivity].
  unfold evaluateSingleCondition.
  destruct (resolveTarget db c w1) as [[t|] w2]; [|reflexivity].
  destruct Hop as [-> | ->]; reflexivity.
Qed.

End DateFacts.

Lemma latest_and_previous_dates_witness :
  (exists d, d ∈ Object_keys sampleSeries
             /\ (forall k, k ∈ Object_keys sampleSeries -> String.leb k d = true)
             /\ @valueAt sampleRt sampleSeries d = Some 155%float)
  /\ (exists d p, d ∈ Object_keys sampleSeries /\ p ∈ Object_keys sampleSeries
                  /\ (forall k, k ∈ Object_keys sampleSeries -> String.leb k d = true)
                  /\ (forall k, k ∈ Object_keys sampleSeries -> k <> d ->
                      String.leb k p = true)
                  /\ @valueAt sampleRt sampleSeries p = Some 149%float).
Proof.
  split.
  - apply (proj1 (@latest_and_previous_dates sampleRt sampleSeries)). reflexivity.
  - apply (proj2 (@latest_and_previous_dates sampleRt sampleSeries)). reflexivity.
Defined.

Lemma crossing_needs_two_points_witness :
  fst (@evaluateCondition singlePointRt sampleDb (conditionWith CROSSES_ABOVE 150%float)
         singlePointWorld) = false.
Proof.
  refine (@crossing_needs_two_points singlePointRt sampleDb
            (conditionWith CROSSES_ABOVE 150%float) singlePointWorld _ _).
  - left. reflexivity.
  - vm_compute. lia.
Defined.

(** ** The evaluator: what an evaluation leaves alone *)

Section EvaluationFrame.
Context {rt : JSRuntime}.
Variable db : Database.

Lemma onlyActionsAdded_refl (w : World) : onlyActionsAdded w w.
Proof.
  repeat split; try reflexivity. exists []. now rewrite app_nil_r.
Qed.

Lemma onlyActionsAdded_trans (w1 w2 w3 : World) :
  onlyActionsAdded w1 w2 -> onlyActionsAdded w2 w3 -> onlyActionsAdded w1 w3.
Proof.
  intros (Hr1 & Hk1 & Hc1 & Hq1 & Hs1 & e1 & He1) (Hr2 & Hk2 & Hc2 & Hq2 & Hs2 & e2 & He2).
  unfold onlyActionsAdded. rewrite Hr2, Hk2, Hc2, Hq2.
  split; [exact Hr1|]. split; [exact Hk1|]. split; [exact Hc1|]. split; [exact Hq1|].
  split.
  - intros s Hs. rewrite (Hs2 s Hs). now apply Hs1.
  - exists (e1 ++ e2). now rewrite He2, He1, app_assoc.
Qed.

Lemma sameButConsole_onlyActionsAdded (w w' : World) :
  sameButConsole w w' -> onlyActionsAdded w w'.
Proof.
  intros (Hr & Hc & Hq). unfold onlyActionsAdded, stream_of. rewrite <- Hr, <- Hc, <- Hq.
  repeat split; try reflexivity. exists []. now rewrite app_nil_r.
Qed.

Lemma sameButConsole_trans (w1 w2 w3 : World) :
  sameButConsole w1 w2 -> sameButConsole w2 w3 -> sameButConsole w1 w3.
Proof. intros (? & ? & ?) (? & ? & ?). repeat split; congruence. Qed.

Lemma sameButConsole_refl (w : World) : sameButConsole w w.
Proof. now repeat split. Qed.

Lemma getCachedIndicatorEntry_sameButConsole key w :
  sameButConsole w (snd (getCachedIndicatorEntry key w)).
Proof.
  destruct (getCachedIndicatorEntry_frame key w) as (Hr & Hc & Hq). now repeat split.
Qed.

Lemma resolveTarget_frame c w : sameButConsole w (snd (resolveTarget db c w)).
Proof.
  unfold resolveTarget.
  destruct (truthy_string (targetIndicatorId c)).
  - destruct (findCondition db _) as [tc|]; [|apply sameButConsole_refl].
    pose proof (getCachedIndicatorEntry_sameButConsole
                  (generateCacheKey (conditionCacheKeyParams tc)) w) as H.
    destruct (getCachedIndicatorEntry _ w) as [e w1]. simpl in H.
    destruct (negb (truthy e)); exact H.
  - destruct (targetValue c); apply sameButConsole_refl.
Qed.

Lemma evaluateCondition_frame c w : sameButConsole w (snd (evaluateCondition db c w)).
Proof.
  unfold evaluateCondition.
  pose proof (getCachedIndicatorEntry_sameButConsole
                (generateCacheKey (conditionCacheKeyParams c)) w) as H.
  destruct (getCachedIndicatorEntry _ w) as [e w1]. simpl in H.
  destruct (negb (truthy e)); [exact H|].
  destruct (getLatestIndicatorValue _) as [cur|]; [|exact H].
  eapply sameButConsole_trans; [exact H|]. unfold evaluateSingleCondition.
  pose proof (resolveTarget_frame c w1) as Ht.
  destruct (resolveTarget db c w1) as [[t|] w2]; exact Ht.
Qed.

Lemma allConditionsMet_frame (l : list Condition) : forall w,
  sameButConsole w (snd (allConditionsMet db l w)).
Proof.
  induction l as [|c l IH]; intros w; simpl; [apply sameButConsole_refl|].
  pose proof (evaluateCondition_frame c w) as Hs.
  destruct (evaluateCondition db c w) as [[|] w1]; simpl in *; [|exact Hs].
  eapply sameButConsole_trans; [exact Hs|apply IH].
Qed.

Lemma publishActionRequired_added (p : value) (w : World) :
  onlyActionsAdded w (publishActionRequired p w).
Proof.
  unfold publishActionRequired. destruct (isReady (redis w)) eqn:Hready; simpl.
  - unfold onlyActionsAdded, stream_of. simpl. rewrite Hready.
    repeat split; try reflexivity.
    + intros s Hs. now rewrite lookup_insert_ne.
    + eexists. now rewrite lookup_insert_eq.
  - apply sameButConsole_onlyActionsAdded. now repeat split.
Qed.

Lemma publishAll_added (f : Action -> value) (acts : list Action) : forall w,
  onlyActionsAdded w (fold_left (fun w0 a => publishActionRequired (f a) w0) acts w).
Proof.
  induction acts as [|a acts IH]; intros w; simpl; [apply onlyActionsAdded_refl|].
  eapply onlyActionsAdded_trans; [apply publishActionRequired_added|apply IH].
Qed.

Lemma evaluateStrategy_added (payload : value) (w : World) (sid : string) :
  onlyActionsAdded w (evaluateStrategy db payload w sid).
Proof.
  unfold evaluateStrategy.
  destruct (allStrategyConditions db sid) as [|c conds]; [apply onlyActionsAdded_refl|].
  pose proof (allConditionsMet_frame (c :: conds) w) as Hs.
  destruct (allConditionsMet db (c :: conds) w) as [[|] w1]; simpl in Hs.
  - eapply onlyActionsAdded_trans; [apply sameButConsole_onlyActionsAdded, Hs|].
    apply publishAll_added.
  - now apply sameButConsole_onlyActionsAdded.
Qed.

Lemma evaluateStrategies_added (payload : value) (w : World) :
  onlyActionsAdded w (evaluateStrategiesForIndicator db payload w).
Proof.
  unfold evaluateStrategiesForIndicator.
  destruct (invalidPayload payload); [apply onlyActionsAdded_refl|].
  destruct (collectStrategies db payload) as [ids m]. clear m.
  revert w. induction ids as [|sid ids IH]; intros w; simpl; [apply onlyActionsAdded_refl|].
  eapply onlyActionsAdded_trans; [apply evaluateStrategy_added|apply IH].
Qed.

(** X21. An evaluation only appends to the action stream: whatever the
    event and the store, it leaves the cached series, the indicator stream
    and every other stream, the clock and the readiness of the client as
    they were, sends nothing to the provider, and keeps the events already
    on the action stream, in place. *)
Theorem evaluation_only_appends_actions (payload : value) (w : World) :
  onlyActionsAdded w (evaluateStrategiesForIndicator db payload w).
Proof. apply evaluateStrategies_added. Qed.

(** X22. An event none of whose kept conditions is linked to a block of an
    active strategy is dropped before step 3: the evaluation returns without
    reading the cache or publishing, and the world (Redis, the requests, the
    lines of the cache and stream functions) is unchanged. This covers the
    event that matches no condition. *)
Theorem event_without_active_strategy_is_dropped (payload : value) (w : World) :
  (forall c b, In c (keptConditions db payload) -> b ∈ blocksOfCondition db c ->
               blockActive db b = false) ->
  evaluateStrategiesForIndicator db payload w = w.
Proof.
  intros Hnone. unfold evaluateStrategiesForIndicator.
  destruct (invalidPayload payload); [reflexivity|].
  pose proof (relevantStrategyIds_spec db payload) as Hspec.
  destruct (collectStrategies db payload) as [[|sid ids] m]; [reflexivity|].
  exfalso. destruct (proj1 (Hspec sid) (list_elem_of_here _ _)) as (c & b & Hc & Hb & Hact & _).
  rewrite (Hnone c b Hc Hb) in Hact. discriminate.
Qed.

Lemma set_add_NoDup (x : string) (s : list string) : NoDup s -> NoDup (set_add x s).
Proof.
  intros Hnd. unfold set_add. case_bool_decide as Hx; [exact Hnd|].
  apply NoDup_app. split; [exact Hnd|]. split; [|apply NoDup_singleton].
  intros y Hy Hy'. apply list_elem_of_singleton in Hy'. now subst y.
Qed.

Lemma recordBlock_NoDup (c : Condition) (bs : list StrategyBlock) : forall acc,
  NoDup (fst acc) -> NoDup (fst (fold_left (recordBlock db c) bs acc)).
Proof.
  induction bs as [|b bs IH]; intros [ids m] Hnd; simpl; [exact Hnd|].
  apply IH. destruct (blockActive db b); [|exact Hnd].
  destruct (existsb _ _); simpl; now apply set_add_NoDup.
Qed.

Lemma strategiesEvaluated_NoDup (payload : value) :
  NoDup (strategiesEvaluated db payload).
Proof.
  unfold strategiesEvaluated. destruct (invalidPayload payload); [apply NoDup_nil_2|].
  rewrite collectStrategies_kept. generalize (keptConditions db payload). intros l.
  assert (H : forall acc, NoDup (fst acc) ->
    NoDup (fst (fold_left (fun acc condition =>
                  fold_left (recordBlock db condition) (blocksOfCondition db condition) acc)
                l acc))).
  { induction l as [|c l IH]; intros acc Hnd; simpl; [exact Hnd|].
    apply IH. now apply recordBlock_NoDup. }
  apply H. simpl. apply NoDup_nil_2.
Qed.

(** X23. The strategies a run of the evaluator goes through, for an event
    whose indicator type, symbol and interval are strings: the run is the
    loop of step 3 over them, each of them is evaluated once, however many
    of its conditions the event matches, and they are those with an active
    block linked to a condition the run kept; none when the event fails the
    validation of line 187. *)
Theorem relevant_strategies_are_evaluated_once
    (payload : value) (type0 symbol0 interval0 : string) :
  getProp payload "indicatorType" = VStr type0 ->
  getProp payload "symbol" = VStr symbol0 ->
  getProp payload "interval" = VStr interval0 ->
  NoDup (strategiesEvaluated db payload)
  /\ (forall sid, sid ∈ strategiesEvaluated db payload
         <-> exists c b, In c (conditionsKept db payload) /\ b ∈ blocksOfCondition db c
                         /\ blockActive db b = true /\ strategyId b = sid)
  /\ (forall w, evaluateStrategiesForIndicator db payload w
                = fold_left (evaluateStrategy db payload) (strategiesEvaluated db payload) w)
  /\ (type0 = "" \/ symbol0 = "" \/ interval0 = ""
      \/ is_object (getProp payload "parameters") = false ->
      strategiesEvaluated db payload = []).
Proof.
  intros Htype Hsymbol Hinterval.
  split; [apply strategiesEvaluated_NoDup|]. split; [apply strategiesEvaluated_spec|].
  split; [intros w; apply evaluateStrategies_run|].
  intros Hinvalid. unfold strategiesEvaluated.
  destruct (invalidPayload payload) eqn:E; [reflexivity|].
  apply invalidPayload_false in E as (H1 & H2 & H3 & H4).
  rewrite Htype in H1. rewrite Hsymbol in H2. rewrite Hinterval in H3.
  apply truthy_VStr in H1, H2, H3.
  destruct Hinvalid as [H|[H|[H|H]]]; congruence.
Qed.

(** X24. The target of a comparison: a condition with a target indicator
    id ignores its target value, and is not met when that id names no
    condition; a condition with neither a target indicator id nor a target
    value is not met, whatever its operator and the values compared. *)
Theorem comparison_target (c : Condition) (cur : float) (prev : option float) (w : World) :
  (truthy_string (targetIndicatorId c) = true ->
     (forall target,
        fst (evaluateSingleCondition db (withTargetValue target c) cur prev w)
        = fst (evaluateSingleCondition db c cur prev w))
     /\ (findCondition db (default "" (targetIndicatorId c)) = None ->
         fst (evaluateSingleCondition db c cur prev w) = false))
  /\ (truthy_string (targetIndicatorId c) = false -> targetValue c = None ->
      fst (evaluateSingleCondition db c cur prev w) = false).
Proof.
  split.
  - intros Hid. split.
    + intros target. unfold evaluateSingleCondition, resolveTarget. simpl. rewrite Hid.
      reflexivity.
    + intros Hnone. unfold evaluateSingleCondition, resolveTarget. now rewrite Hid, Hnone.
  - intros Hid Hnone. unfold evaluateSingleCondition, resolveTarget. now rewrite Hid, Hnone.
Qed.

End EvaluationFrame.

Lemma event_without_active_strategy_is_dropped_witness :
  @evaluateStrategiesForIndicator sampleRt inactiveDb samplePayload cachedWorld = cachedWorld.
Proof.
  refine (@event_without_active_strategy_is_dropped sampleRt inactiveDb samplePayload
            cachedWorld _).
  intros c b Hc Hb. vm_compute in Hc. destruct Hc as [<-|[]].
  apply list_elem_of_In in Hb. vm_compute in Hb. destruct Hb as [<-|[]]. reflexivity.
Defined.

Lemma comparison_target_witness :
  fst (@evaluateSingleCondition sampleRt sampleDb danglingCondition 155%float None emptyWorld)
  = false.
Proof.
  refine (proj2 (proj1 (@comparison_target sampleRt sampleDb danglingCondition 155%float None
                          emptyWorld) _) _); reflexivity.
Defined.

(** ** The evaluator: crossings and the direction of the series *)

Lemma SFcompare_le_lt (x y z : spec_float) :
  SFcompare x y = Some Lt \/ SFcompare x y = Some Eq ->
  SFcompare y z = Some Lt -> SFcompare x z = Some Lt.
Proof.
  destruct x as [sx|sx| |sx mx ex], y as [sy|sy| |sy my ey], z as [sz|sz| |sz mz ez];
    simpl; try (intros [?|?]; discriminate); try discriminate;
    try (destruct sx; simpl; intros [?|?] ?; congruence);
    try (destruct sy; simpl; intros [?|?] ?; congruence);
    try (destruct sz; simpl; intros [?|?] ?; congruence);
    try (destruct sx, sy; simpl; intros [?|?] ?; congruence);
    try (destruct sx, sz; simpl; intros [?|?] ?; congruence);
    try (destruct sy, sz; simpl; intros [?|?] ?; congruence);
    try (destruct sx, sy, sz; simpl; intros [?|?] ?; congruence).
  change (Pos.compare_cont Eq mx my) with (Pos.compare mx my).
  change (Pos.compare_cont Eq my mz) with (Pos.compare my mz).
  change (Pos.compare_cont Eq mx mz) with (Pos.compare mx mz).
  destruct sx, sy, sz; simpl; try (intros [?|?] ?; congruence);
    destruct (Z.compare_spec ex ey), (Z.compare_spec ey ez), (Z.compare_spec ex ez);
    try lia; simpl;
    destruct (Pos.compare_spec mx my), (Pos.compare_spec my mz), (Pos.compare_spec mx mz);
    simpl; try lia; intros [?|?] ?; congruence.
Qed.

Lemma SFcompare_lt_le (x y z : spec_float) :
  SFcompare x y = Some Lt ->
  SFcompare y z = Some Lt \/ SFcompare y z = Some Eq -> SFcompare x z = Some Lt.
Proof.
  intros Hxy Hyz.
  assert (Hzx : SFcompare z x = Some Gt).
  { assert (H1 : SFcompare z y = Some Gt \/ SFcompare z y = Some Eq).
    { rewrite (SFcompare_antisym y z). destruct Hyz as [-> | ->]; simpl; auto. }
    assert (H2 : SFcompare y x = Some Gt) by (rewrite (SFcompare_antisym x y), Hxy; reflexivity).
    clear Hxy Hyz.
    destruct (SFcompare x z) as [[| |]|] eqn:E.
    - exfalso. assert (Hzx : SFcompare z x = Some Eq)
        by (rewrite (SFcompare_antisym x z), E; reflexivity).
      assert (Hxy : SFcompare x y = Some Lt)
        by (rewrite (SFcompare_antisym y x), H2; reflexivity).
      pose proof (SFcompare_le_lt z x y (or_intror Hzx) Hxy) as H.
      destruct H1 as [H1|H1]; congruence.
    - rewrite (SFcompare_antisym x z), E. reflexivity.
    - exfalso. assert (Hzx : SFcompare z x = Some Lt)
        by (rewrite (SFcompare_antisym x z), E; reflexivity).
      assert (Hxy : SFcompare x y = Some Lt)
        by (rewrite (SFcompare_antisym y x), H2; reflexivity).
      pose proof (SFcompare_le_lt z x y (or_introl Hzx) Hxy) as H.
      destruct H1 as [H1|H1]; congruence.
    - exfalso. apply SFcompare_None in E. destruct E as [-> | ->].
      + destruct y; discriminate.
      + destruct H1 as [H1|H1]; discriminate. }
  rewrite (SFcompare_antisym z x), Hzx. reflexivity.
Qed.

Lemma float_leb_ltb_trans (x y z : float) :
  PrimFloat.leb x y = true -> PrimFloat.ltb y z = true -> PrimFloat.ltb x z = true.
Proof.
  rewrite FloatAxioms.leb_spec, !FloatAxioms.ltb_spec. unfold SFleb, SFltb.
  intros H1 H2.
  rewrite (SFcompare_le_lt (Prim2SF x) (Prim2SF y) (Prim2SF z)); [reflexivity| |].
  - destruct (SFcompare (Prim2SF x) (Prim2SF y)) as [[| |]|]; auto; discriminate.
  - destruct (SFcompare (Prim2SF y) (Prim2SF z)) as [[| |]|]; auto; discriminate.
Qed.

Lemma float_ltb_leb_trans (x y z : float) :
  PrimFloat.ltb x y = true -> PrimFloat.leb y z = true -> PrimFloat.ltb x z = true.
Proof.
  rewrite FloatAxioms.leb_spec, !FloatAxioms.ltb_spec. unfold SFleb, SFltb.
  intros H1 H2.
  rewrite (SFcompare_lt_le (Prim2SF x) (Prim2SF y) (Prim2SF z)); [reflexivity| |].
  - destruct (SFcompare (Prim2SF x) (Prim2SF y)) as [[| |]|]; auto; discriminate.
  - destruct (SFcompare (Prim2SF y) (Prim2SF z)) as [[| |]|]; auto; discriminate.
Qed.

Lemma float_ltb_asym (x y : float) :
  PrimFloat.ltb x y = true -> PrimFloat.ltb y x = false.
Proof.
  rewrite !FloatAxioms.ltb_spec. unfold SFltb.
  rewrite (SFcompare_antisym (Prim2SF x) (Prim2SF y)).
  destruct (SFcompare (Prim2SF x) (Prim2SF y)) as [[| |]|]; simpl; congruence.
Qed.

(** X25. A crossing follows the series: when CROSSES_ABOVE is met the
    previous value is strictly below the current one, when CROSSES_BELOW is
    met it is strictly above, and the two operators are never met on the
    same values. *)
Theorem crossing_follows_the_series (cur prev target : float) :
  (applyOperator CROSSES_ABOVE cur (Some prev) target = true ->
     PrimFloat.ltb prev cur = true
     /\ applyOperator CROSSES_BELOW cur (Some prev) target = false)
  /\ (applyOperator CROSSES_BELOW cur (Some prev) target = true ->
        PrimFloat.ltb cur prev = true
        /\ applyOperator CROSSES_ABOVE cur (Some prev) target = false).
Proof.
  simpl. unfold gtb, geb. split; intros H; apply andb_true_iff in H as [H1 H2].
  - split; [eapply float_leb_ltb_trans; eauto|].
    rewrite (float_ltb_asym _ _ H2). apply andb_false_r.
  - split; [eapply float_ltb_leb_trans; eauto|].
    rewrite (float_ltb_asym _ _ H2). apply andb_false_r.
Qed.

Lemma crossing_follows_the_series_witness :
  PrimFloat.ltb 9%float 11%float = true
  /\ applyOperator CROSSES_BELOW 11%float (Some 9%float) 10%float = false.
Proof.
  apply (proj1 (crossing_follows_the_series 11%float 9%float 10%float)). reflexivity.
Defined.

(** ** The consumer of the indicator stream *)

Lemma message_ids (entries : list (list (string * string))) (count d : nat) :
  map fst (take count (drop d (imap pair entries)))
  = seq d (Nat.min count (length entries - d)).
Proof.
  assert (Hids : map fst (imap pair entries) = seq 0 (length entries)).
  { apply list_eq. intros i.
    change (map fst (imap pair entries)) with (fst <$> imap pair entries).
    rewrite list_lookup_fmap, list_lookup_imap.
    destruct (entries !! i) as [x|] eqn:E; simpl.
    - symmetry. apply lookup_seq. split; [reflexivity|].
      now apply lookup_lt_Some in E.
    - symmetry. apply lookup_seq_ge. now apply lookup_ge_None in E. }
  change (map fst (take count (drop d (imap pair entries))))
    with (fst <$> take count (drop d (imap pair entries))).
  rewrite fmap_take, fmap_drop.
  change (fst <$> imap pair entries) with (map fst (imap pair entries)).
  rewrite Hids, drop_seq, take_seq. reflexivity.
Qed.

Lemma filter_others (a : nat) (l : list nat) :
  a ∉ l -> List.filter (fun i => negb (Nat.eqb i a)) l = l.
Proof.
  induction l as [|x l IH]; intros Hnot; simpl; [reflexivity|].
  apply not_elem_of_cons in Hnot as [Hne Hnot].
  destruct (Nat.eqb_spec x a) as [->|_]; [congruence|]. simpl. now rewrite IH.
Qed.

(** Acknowledging the messages of a batch removes them from the pending
    list and nothing else. *)
Lemma acknowledged_batch (ids : list nat) : forall (P : list nat) (d : nat),
  NoDup ids -> (forall i, i ∈ ids -> i ∉ P) ->
  fold_left (fun g i => xAck i g) ids {| delivered := d; pending := P ++ ids |}
  = {| delivered := d; pending := P |}.
Proof.
  induction ids as [|a ids IH]; intros P d Hnd Hnew; simpl.
  - now rewrite app_nil_r.
  - apply NoDup_cons in Hnd as [Ha Hnd]. unfold xAck at 2. simpl.
    rewrite List.filter_app. simpl. rewrite Nat.eqb_refl. simpl.
    rewrite (filter_others a P) by (apply Hnew, list_elem_of_here).
    rewrite (filter_others a ids Ha).
    apply IH; [exact Hnd|]. intros i Hi. apply Hnew. now apply list_elem_of_further.
Qed.

Section ConsumerFacts.
Context {rt : JSRuntime}.
Variable db : Database.

Lemma handleUpdateMessage_ack (w : World) (g : Group) (message : Message) :
  snd (handleUpdateMessage db (w, g) message) = xAck (fst message) g.
Proof.
  destruct message as [messageId fields]. simpl.
  destruct (updatePayloadOf fields); reflexivity.
Qed.

Lemma handleUpdateMessage_added (w : World) (g : Group) (message : Message) :
  onlyActionsAdded w (fst (handleUpdateMessage db (w, g) message)).
Proof.
  destruct message as [messageId fields]. simpl.
  destruct (updatePayloadOf fields) as [payload|]; simpl.
  - apply evaluateStrategies_added.
  - apply onlyActionsAdded_refl.
Qed.

Lemma handle_batch (messages : list Message) : forall w g,
  snd (fold_left (handleUpdateMessage db) messages (w, g))
  = fold_left (fun g i => xAck i g) (map fst messages) g
  /\ onlyActionsAdded w (fst (fold_left (handleUpdateMessage db) messages (w, g))).
Proof.
  induction messages as [|m messages IH]; intros w g.
  - split; [reflexivity|apply onlyActionsAdded_refl].
  - change (fold_left (handleUpdateMessage db) (m :: messages) (w, g))
      with (fold_left (handleUpdateMessage db) messages (handleUpdateMessage db (w, g) m)).
    change (fold_left (fun g i => xAck i g) (map fst (m :: messages)) g)
      with (fold_left (fun g i => xAck i g) (map fst messages) (xAck (fst m) g)).
    pose proof (handleUpdateMessage_ack w g m) as Hack.
    pose proof (handleUpdateMessage_added w g m) as Hadd.
    destruct (handleUpdateMessage db (w, g) m) as [w1 g1]. simpl in Hack, Hadd. subst g1.
    destruct (IH w1 (xAck (fst m) g)) as [Hg Hw]. split; [exact Hg|].
    eapply onlyActionsAdded_trans; eauto.
Qed.

Lemma STREAM_KEY_not_actions : STREAM_KEY <> ACTION_STREAM_KEY.
Proof. discriminate. Qed.

(** One turn of the loop: up to ten messages are delivered, each of them is
    acknowledged, and the world only gains action events. *)
Lemma consumerIteration_step (w : World) (g : Group) :
  Forall (fun i => i < delivered g) (pending g) ->
  pending (snd (consumerIteration db (w, g))) = pending g
  /\ delivered (snd (consumerIteration db (w, g)))
     = delivered g + Nat.min 10 (length (stream_of w STREAM_KEY) - delivered g)
  /\ onlyActionsAdded w (fst (consumerIteration db (w, g))).
Proof.
  intros Hpending. unfold consumerIteration, xReadGroup.
  set (messages := take 10 (drop (delivered g) (imap pair (stream_of w STREAM_KEY)))).
  destruct (handle_batch messages w
              {| delivered := delivered g + length messages;
                 pending := pending g ++ map fst messages |}) as [Hg Hw].
  assert (Hids : map fst messages
                 = seq (delivered g)
                       (Nat.min 10 (length (stream_of w STREAM_KEY) - delivered g)))
    by apply message_ids.
  rewrite Hg, acknowledged_batch.
  - simpl. split; [reflexivity|]. split; [|exact Hw].
    rewrite <- (length_map fst messages), Hids, length_seq. reflexivity.
  - rewrite Hids. apply NoDup_seq.
  - intros i Hi Hin. rewrite Hids in Hi. apply elem_of_seq in Hi.
    rewrite Forall_forall in Hpending. apply Hpending in Hin. lia.
Qed.

(** X26. The consumer loop: after any number of turns every message
    delivered so far has been acknowledged, whatever it held, so the pending
    list is as it was; the messages are taken ten at a time in the order of
    the stream until the stream is exhausted; and all that the turns did to
    the world is append events to the action stream. *)
Theorem consumer_catches_up (n : nat) (w : World) (g : Group) :
  Forall (fun i => i < delivered g) (pending g) ->
  delivered g <= length (stream_of w STREAM_KEY) ->
  pending (snd (Nat.iter n (consumerIteration db) (w, g))) = pending g
  /\ delivered (snd (Nat.iter n (consumerIteration db) (w, g)))
     = Nat.min (delivered g + 10 * n) (length (stream_of w STREAM_KEY))
  /\ onlyActionsAdded w (fst (Nat.iter n (consumerIteration db) (w, g))).
Proof.
  intros Hpending Hlen. induction n as [|n IH].
  - simpl. split; [reflexivity|]. split; [lia|apply onlyActionsAdded_refl].
  - simpl. destruct IH as (Hp & Hd & Hw).
    destruct (Nat.iter n (consumerIteration db) (w, g)) as [w1 g1]. simpl in Hp, Hd, Hw.
    assert (Hpending1 : Forall (fun i => i < delivered g1) (pending g1)).
    { rewrite Hp. eapply Forall_impl; [exact Hpending|]. intros i Hi. simpl in Hi. lia. }
    destruct (consumerIteration_step w1 g1 Hpending1) as (Hp' & Hd' & Hw').
    assert (Hstream : stream_of w1 STREAM_KEY = stream_of w STREAM_KEY).
    { destruct Hw as (_ & _ & _ & _ & Hs & _). apply Hs, STREAM_KEY_not_actions. }
    rewrite Hstream in Hd'. split; [congruence|]. split; [lia|].
    eapply onlyActionsAdded_trans; eauto.
Qed.

End ConsumerFacts.

Lemma consumer_catches_up_witness :
  pending (snd (Nat.iter 1 (@consumerIteration pipelineRt sampleDb) (fetchedWorld, newGroup)))
  = pending newGroup
  /\ delivered (snd (Nat.iter 1 (@consumerIteration pipelineRt sampleDb)
                       (fetchedWorld, newGroup)))
     = Nat.min (delivered newGroup + 10 * 1) (length (stream_of fetchedWorld STREAM_KEY))
  /\ onlyActionsAdded fetchedWorld
       (fst (Nat.iter 1 (@consumerIteration pipelineRt sampleDb) (fetchedWorld, newGroup))).
Proof.
  refine (@consumer_catches_up pipelineRt sampleDb 1 fetchedWorld newGroup _ _).
  - constructor.
  - vm_compute. lia.
Defined.

(** ** Messages that are not evaluated *)

Section MessageFacts.
Context {rt : JSRuntime}.
Variable db : Database.

Lemma setProp_strings (o : object) (k s : string) :
  Forall (fun kv => exists t, snd kv = VStr t) o ->
  Forall (fun kv => exists t, snd kv = VStr t) (setProp o k (VStr s)).
Proof.
  intros Ho. unfold setProp. destruct (assoc k o).
  - induction Ho as [|[k' v'] o Hv Ho IH]; simpl; [constructor|].
    destruct (String.eqb k k'); constructor; simpl; eauto.
  - induction Ho as [|[k' v'] o Hv Ho IH]; simpl.
    + constructor; [simpl; eauto|constructor].
    + destruct (arrayIndex k) as [n|], (arrayIndex k') as [n'|];
        try destruct (n <? n')%N; repeat (constructor; simpl; eauto).
Qed.

(** Every property of a message is a string. *)
Lemma messageObject_strings (fields : list (string * string)) (k : string) :
  getProp (messageObject fields) k = VUndefined
  \/ exists s, getProp (messageObject fields) k = VStr s.
Proof.
  unfold messageObject, getProp. simpl.
  assert (H : forall o, Forall (fun kv => exists t, snd kv = VStr t) o ->
            Forall (fun kv => exists t, snd kv = VStr t)
              (fold_left (fun o kv => setProp o (fst kv) (VStr (snd kv))) fields o)).
  { induction fields as [|[k0 s0] fields IH]; intros o Ho; simpl; [exact Ho|].
    apply IH. now apply setProp_strings. }
  specialize (H [] (Forall_nil_2 _)).
  destruct (assoc k _) as [v|] eqn:E; [|now left].
  right. apply assoc_Some_In, list_elem_of_In in E. rewrite Forall_forall in H.
  destruct (H _ E) as [t Ht]. simpl in Ht. eauto.
Qed.

Lemma getProp_setProp (o : object) (k : string) (v : value) :
  getProp (VObj (setProp o k v)) k = v.
Proof. unfold getProp. simpl. now rewrite assoc_setProp_eq. Qed.

Lemma invalid_parameters_not_evaluated (payload : value) (w : World) :
  is_object (getProp payload "parameters") = false ->
  evaluateStrategiesForIndicator db payload w = w.
Proof.
  intros H. unfold evaluateStrategiesForIndicator, invalidPayload. rewrite H. simpl.
  now rewrite !orb_true_r.
Qed.

(** X27. An update whose parameters do not read back as an object is
    dropped: a message with no field, without a parameters field, with an
    empty one, with a text that is not JSON, or with the text of a number,
    a string or a boolean is acknowledged and leaves the world as it was; no
    condition is looked up and nothing is published. *)
Theorem update_without_object_parameters_is_dropped (w : World) (g : Group)
    (messageId : nat) (fields : list (string * string)) :
  (forall s parsed, getProp (messageObject fields) "parameters" = VStr s ->
                    JSON_parse s = Some parsed -> is_object parsed = false) ->
  handleUpdateMessage db (w, g) (messageId, fields) = (w, xAck messageId g).
Proof.
  intros Hparams. unfold handleUpdateMessage, updatePayloadOf.
  destruct (Nat.eqb _ 0); [reflexivity|].
  destruct (messageObject_strings fields "parameters") as [Hp|[s Hp]].
  - rewrite Hp. simpl. f_equal.
    apply invalid_parameters_not_evaluated. now rewrite Hp.
  - rewrite Hp. simpl. destruct (String.eqb s "") eqn:Hs; simpl.
    + f_equal. apply invalid_parameters_not_evaluated. now rewrite Hp.
    + destruct (JSON_parse s) as [parsed|] eqn:Hparse; [|reflexivity].
      f_equal. apply invalid_parameters_not_evaluated.
      rewrite getProp_setProp. eauto.
Qed.

End MessageFacts.

Lemma update_without_object_parameters_is_dropped_witness :
  @handleUpdateMessage numberRt sampleDb (cachedWorld, newGroup)
    (0, [ ("indicatorType", "SMA"); ("symbol", "AAPL"); ("interval", "daily");
          ("parameters", "20") ])
  = (cachedWorld, xAck 0 newGroup).
Proof.
  refine (@update_without_object_parameters_is_dropped numberRt sampleDb cachedWorld newGroup
            0 _ _).
  intros s parsed Hs Hparse. vm_compute in Hs. injection Hs as <-.
  vm_compute in Hparse. injection Hparse as <-. reflexivity.
Defined.

(** ** From a fetch to the evaluation of its update *)

Lemma string_length_app (s t : string) :
  String.length (s +:+ t) = String.length s + String.length t.
Proof. induction s as [|c s IH]; simpl; [reflexivity|]. now rewrite IH. Qed.

Lemma concat_length_elem (sep x : string) (l : list string) :
  In x l -> String.length x <= String.length (String.concat sep l).
Proof.
  induction l as [|y l IH]; [intros []|].
  intros [->|Hin].
  - destruct l as [|z l]; simpl; [lia|]. rewrite string_length_app. lia.
  - destruct l as [|z l]; [destruct Hin|].
    change (String.concat sep (y :: z :: l))
      with (y +:+ sep +:+ String.concat sep (z :: l)).
    rewrite !string_length_app. specialize (IH Hin). lia.
Qed.

Section PipelineFacts.
Context {rt : JSRuntime}.
Variable db : Database.

Lemma JSON_stringify_object (props : object) :
  exists members, JSON_stringify (VObj props) = Some ("{" +:+ String.concat "," members +:+ "}")
    /\ forall k x t, In (k, x) props -> JSON_stringify x = Some t ->
                     In (quoteJSON k +:+ ":" +:+ t) members.
Proof.
  simpl. eexists. split; [reflexivity|].
  induction props as [|[k0 x0] props IH]; intros k x t Hin Ht; [destruct Hin|].
  destruct Hin as [[= -> ->]|Hin].
  - rewrite Ht. now left.
  - destruct (JSON_stringify x0); [right|]; eapply IH; eauto.
Qed.

(** The text of an object is longer than the text of any of its
    properties. *)
Lemma property_text_differs (props : object) (k : string) :
  JSON_stringify (getProp (VObj props) k) <> JSON_stringify (VObj props).
Proof.
  destruct (JSON_stringify_object props) as (members & Htext & Hmembers).
  unfold getProp. simpl ownEntries.
  destruct (assoc k props) as [x|] eqn:E; [|rewrite Htext; discriminate].
  destruct (JSON_stringify x) as [t|] eqn:Ht; [|rewrite Htext; discriminate].
  rewrite Htext. intros [= Heq].
  pose proof (concat_length_elem "," _ _ (Hmembers k x t (assoc_Some_In _ _ _ E) Ht)) as Hlen.
  apply (f_equal String.length) in Heq.
  rewrite !string_length_app in Heq. rewrite !string_length_app in Hlen. simpl in Heq. lia.
Qed.

(** The message a fetch publishes carries the text of the whole request
    in its parameters field. *)
Lemma update_message_parameters (props : object) (data : value) (t : Z) :
  let fields := indicatorStreamData (ownEntries (updateEvent (VObj props) data t)) in
  Nat.eqb (length (Object_keys (messageObject fields))) 0 = false
  /\ getProp (messageObject fields) "parameters"
     = VStr (text_of (JSON_stringify (VObj props)))
  /\ forall parsed,
       getProp (VObj (setProp (ownEntries (messageObject fields)) "parameters" parsed))
               "parameters" = parsed.
Proof.
  unfold updateEvent.
  set (ck := generateCacheKey (VObj props)).
  set (v1 := getProp (VObj props) "function").
  set (v2 := getProp (VObj props) "symbol").
  set (v3 := getProp (VObj props) "interval").
  set (v4 := getProp _ "3: Last Refreshed").
  set (ft := toISOString t).
  set (txt := JSON_stringify (VObj props)).
  cbn [ownEntries indicatorStreamData nullish is_object String.eqb Ascii.eqb Bool.eqb andb].
  fold txt.
  unfold messageObject, getProp.
  destruct (nullish v1), (nullish v2), (nullish v3), (nullish v4);
    cbn [ownEntries indicatorStreamData nullish is_object String.eqb Ascii.eqb Bool.eqb andb
         fold_left setProp fst snd assoc Object_keys map length Nat.eqb];
    (split; [reflexivity|split; [reflexivity|intros parsed; reflexivity]]).
Qed.

(** X28. The update a fetch publishes does not select the condition it
    was fetched for. The event carries the whole request as its parameters,
    so a condition whose parameters are the parameters of the request is
    never among the conditions the evaluator keeps for that event, whatever
    the rest of the request and the store hold: the text of the request is
    longer than the text of its parameters. The consumer is assumed to read
    back a value with the text it was given. *)
Theorem fetch_update_does_not_select_its_condition (c : Condition) (props : object)
    (data payload : value) (t : Z) :
  getProp (VObj props) "parameters" = parameters c ->
  (forall parsed, JSON_parse (text_of (JSON_stringify (VObj props))) = Some parsed ->
                  JSON_stringify parsed = JSON_stringify (VObj props)) ->
  updatePayloadOf (indicatorStreamData (ownEntries (updateEvent (VObj props) data t)))
  = Some payload ->
  ~ In c (keptConditions db payload).
Proof.
  intros Hparams Hback Hpayload Hkept.
  destruct (update_message_parameters props data t) as (Hlen & Hfield & Hset).
  unfold updatePayloadOf in Hpayload. rewrite Hlen, Hfield in Hpayload.
  destruct (JSON_stringify_object props) as (members & Htext & _).
  assert (Htruthy : truthy (VStr (text_of (JSON_stringify (VObj props)))) = true)
    by (rewrite Htext; reflexivity).
  rewrite Htruthy in Hpayload.
  remember (text_of (JSON_stringify (VObj props))) as text eqn:Htxt.
  cbn [typeof ToString String.eqb Ascii.eqb Bool.eqb andb] in Hpayload.
  destruct (JSON_parse text) as [parsed|] eqn:Hparse; [|discriminate].
  injection Hpayload as <-.
  unfold keptConditions in Hkept. apply filter_In in Hkept as [_ Hmatch].
  rewrite Hset in Hmatch. unfold parametersMatch in Hmatch.
  apply bool_decide_eq_true in Hmatch. rewrite (Hback parsed eq_refl), <- Hparams in Hmatch.
  exact (property_text_differs props "parameters" Hmatch).
Qed.

End PipelineFacts.

Lemma fetch_update_does_not_select_its_condition_witness :
  ~ In sampleCondition
       (@keptConditions pipelineRt sampleDb
          (VObj [ ("cacheKey", VStr (keyOf smaFetch)); ("indicatorType", VStr "SMA");
                  ("symbol", VStr "AAPL"); ("interval", VStr "daily");
                  ("parameters", indicatorOf sampleCondition);
                  ("lastRefreshed", VStr "2024-01-02"); ("fetchTime", VStr "t0") ])).
Proof.
  refine (@fetch_update_does_not_select_its_condition pipelineRt sampleDb sampleCondition
            (ownEntries (indicatorOf sampleCondition)) smaResponse _ 0%Z _ _ _).
  - reflexivity.
  - intros parsed Hparse. vm_compute in Hparse. injection Hparse as <-. reflexivity.
  - vm_compute. reflexivity.
Defined.

(** ** The blocks, conditions and actions of a strategy *)

Lemma insertBlock_Permutation (b : StrategyBlock) (l : list StrategyBlock) :
  Permutation (b :: l) (insertBlock b l).
Proof.
  induction l as [|x l IH]; simpl; [reflexivity|].
  destruct (order b <=? order x)%Z; [reflexivity|].
  rewrite <- IH. apply perm_swap.
Qed.

Lemma sortByOrder_Permutation (l : list StrategyBlock) : Permutation l (sortByOrder l).
Proof.
  induction l as [|x l IH]; simpl; [reflexivity|].
  rewrite <- insertBlock_Permutation. now constructor.
Qed.

Lemma insertBlock_sorted (b : StrategyBlock) (l : list StrategyBlock) :
  StronglySorted (fun x y => (order x <= order y)%Z) l ->
  StronglySorted (fun x y => (order x <= order y)%Z) (insertBlock b l).
Proof.
  induction 1 as [|x l Hs IH Hall]; simpl.
  - constructor; constructor.
  - destruct (Z.leb_spec (order b) (order x)) as [Hle|Hgt].
    + constructor; [now constructor|]. constructor; [exact Hle|].
      eapply Forall_impl; [exact Hall|]. intros y Hy. simpl in *. lia.
    + constructor; [exact IH|].
      apply Forall_forall. intros y Hy.
      rewrite <- insertBlock_Permutation in Hy.
      apply elem_of_cons in Hy as [->|Hy]; [lia|].
      rewrite Forall_forall in Hall. auto.
Qed.

Lemma sortByOrder_sorted (l : list StrategyBlock) :
  StronglySorted (fun x y => (order x <= order y)%Z) (sortByOrder l).
Proof.
  induction l as [|x l IH]; simpl; [constructor|]. now apply insertBlock_sorted.
Qed.

Section FirstOccurrences.
Context {A : Type} (id : A -> string).

Lemma findIndex_first (p : A -> bool) (l : list A) : forall (i : nat) (x : A),
  l !! i = Some x -> p x = true ->
  (forall j y, j < i -> l !! j = Some y -> p y = false) ->
  findIndex p l = Some i.
Proof.
  induction l as [|a l IH]; intros i x Hx Hp Hbefore; [discriminate|].
  destruct i as [|i]; simpl in *.
  - injection Hx as ->. now rewrite Hp.
  - rewrite (Hbefore 0 a) by (reflexivity || lia).
    rewrite (IH i x Hx Hp); [reflexivity|].
    intros j y Hj Hy. apply (Hbefore (S j) y); [lia|exact Hy].
Qed.

Lemma filter_all (P : nat * A -> Prop) `{forall x, Decision (P x)} (l : list (nat * A)) :
  (forall x, x ∈ l -> P x) -> filter P l = l.
Proof.
  induction l as [|x l IH]; intros Hall; [reflexivity|].
  rewrite filter_cons_True by (apply Hall, list_elem_of_here).
  f_equal. apply IH. intros y Hy. apply Hall. now apply list_elem_of_further.
Qed.

(** A list with pairwise different ids is left as it is. *)
Lemma uniqueById_distinct (l : list A) : NoDup (map id l) -> uniqueById id l = l.
Proof.
  intros Hnd. unfold uniqueById. rewrite filter_all.
  - apply list_eq. intros i.
    change (map snd (imap pair l)) with (snd <$> imap pair l).
    rewrite list_lookup_fmap, list_lookup_imap. now destruct (l !! i).
  - intros [i x] Hix. simpl.
    apply elem_of_lookup_imap in Hix as (i' & x' & [= <- <-] & Hx).
    apply (findIndex_first _ l i x Hx); [apply String.eqb_refl|].
    intros j y Hj Hy. apply String.eqb_neq. intros Heq.
    assert (Hi : map id l !! i = Some (id x)).
    { change (map id l) with (id <$> l). now rewrite list_lookup_fmap, Hx. }
    assert (Hj' : map id l !! j = Some (id x)).
    { change (map id l) with (id <$> l). rewrite list_lookup_fmap, Hy. simpl. congruence. }
    pose proof (proj1 (NoDup_alt (map id l)) Hnd i j (id x) Hi Hj'). lia.
Qed.

End FirstOccurrences.

Section StrategyParts.
Context {rt : JSRuntime}.
Variable db : Database.

(** X29. The blocks of a strategy are read in ascending order: step 3
    sees every block of the strategy and no other, sorted by their order
    field; and when the blocks link pairwise different actions, the actions
    it collects are those of the blocks, in the order of the blocks. *)
Theorem strategy_blocks_in_order (strategyId0 : string) :
  (forall b, b ∈ blocksOfStrategy db strategyId0
             <-> b ∈ strategyBlocks db /\ strategyId b = strategyId0)
  /\ StronglySorted (fun x y => (order x <= order y)%Z) (blocksOfStrategy db strategyId0)
  /\ (NoDup (map action_id
               (omap (fun b => a ← actionId b; findAction db a)
                     (blocksOfStrategy db strategyId0))) ->
      allStrategyActions db strategyId0
      = omap (fun b => a ← actionId b; findAction db a) (blocksOfStrategy db strategyId0)).
Proof.
  split; [|split].
  - intros b. unfold blocksOfStrategy. rewrite <- sortByOrder_Permutation.
    rewrite list_elem_of_In, filter_In, <- list_elem_of_In, String.eqb_eq. tauto.
  - apply sortByOrder_sorted.
  - intros Hnd. unfold allStrategyActions. now apply uniqueById_distinct.
Qed.

(** X30. The event of an action: whatever the action and the update that
    triggered it, the entry written to the action stream has the five
    fields action id, action type, parameters, strategy id and triggering
    indicator, none is skipped, and the parameters field is the text of an
    object, the empty object when the action's parameters are not one. *)
Theorem action_event_fields (payload : value) (strategyId0 : string) (action : Action) :
  nullish payload = false ->
  exists parametersText,
    actionStreamData (ownEntries (actionRequiredPayload payload strategyId0 action))
    = [ ("actionId", action_id action);
        ("actionType", actionTypeName (actionType action));
        ("parameters", parametersText);
        ("strategyId", strategyId0);
        ("triggeringIndicator", text_of (JSON_stringify payload)) ]
    /\ (is_object (action_parameters action) && negb (nullish (action_parameters action))
        = true -> parametersText = text_of (JSON_stringify (action_parameters action)))
    /\ (is_object (action_parameters action) && negb (nullish (action_parameters action))
        = false -> parametersText = "{}").
Proof.
  intros Hpayload. unfold actionRequiredPayload.
  destruct (is_object (action_parameters action) && negb (nullish (action_parameters action)))%bool
    eqn:Hobj.
  - exists (text_of (JSON_stringify (action_parameters action))).
    apply andb_true_iff in Hobj as [_ Hnn]. apply negb_true_iff in Hnn.
    cbn [ownEntries actionStreamData nullish String.eqb Ascii.eqb Bool.eqb orb ToString].
    rewrite Hnn, Hpayload. repeat split; discriminate || reflexivity.
  - exists "{}".
    cbn [ownEntries actionStreamData nullish String.eqb Ascii.eqb Bool.eqb orb ToString].
    rewrite Hpayload. repeat split; discriminate || reflexivity.
Qed.

End StrategyParts.

Lemma strategy_blocks_in_order_witness :
  @allStrategyActions sampleDb "s1" = [ sampleAction ].
Proof.
  refine (proj2 (proj2 (strategy_blocks_in_order sampleDb "s1")) _).
  vm_compute. apply NoDup_singleton.
Defined.

Lemma action_event_fields_witness :
  exists parametersText,
    @actionStreamData sampleRt
      (ownEntries (actionRequiredPayload samplePayload "s1" sampleAction))
    = [ ("actionId", "a1"); ("actionType", "NOTIFY"); ("parameters", parametersText);
        ("strategyId", "s1");
        ("triggeringIndicator", text_of (@JSON_stringify sampleRt samplePayload)) ]
    /\ (true = true ->
        parametersText
        = text_of (@JSON_stringify sampleRt (action_parameters sampleAction)))
    /\ (true = false -> parametersText = "{}").
Proof.
  refine (@action_event_fields sampleRt samplePayload "s1" sampleAction _). reflexivity.
Defined.

(** ** A run of the evaluation engine and the action stream *)

Section UniqueMembers.
Context {A : Type} (id : A -> string).



End UniqueMembers.

Section RunFacts.
Context {rt : JSRuntime}.
Variable db : Database.















End RunFacts.



Lemma relevant_strategies_are_evaluated_once_witness :
  NoDup (@strategiesEvaluated sampleRt richDb samplePayload)
  /\ forall w, @evaluateStrategiesForIndicator sampleRt richDb samplePayload w
               = fold_left (@evaluateStrategy sampleRt richDb samplePayload)
                           (@strategiesEvaluated sampleRt richDb samplePayload) w.
Proof.
  pose proof (@relevant_strategies_are_evaluated_once sampleRt richDb samplePayload
                "SMA" "AAPL" "daily" eq_refl eq_refl eq_refl) as (Hnd & _ & Hrun & _).
  split; [exact Hnd|exact Hrun].
Defined.
